(** * Fusera: the filesystem controller of [internal/sddp.go]

    A shallow embedding of the controller ([Fusera]) and of the kernel-facing
    operations it implements, followed by the properties the specification
    states about them and by further properties of the code.

    Go pointers to [Inode] objects are modelled as addresses into a heap
    (a list, allocation appends), so that the aliasing between the inode
    table, the child maps and the directory handles is the program's own.
    [uint64] counters are integers with their wrap-around written out. *)

From Stdlib Require Import ZArith Lia String Ascii.
From stdpp Require Import gmap strings list fin_maps.

Local Open Scope Z_scope.

(** ** Machine integers *)

Definition two64 : Z := 2 ^ 64.

(** Result of a [uint64] operation. *)
Definition u64 (z : Z) : Z := z mod two64.

(** Go's [int]: the length of a slice or of a map never exceeds it. *)
Definition MaxInt : Z := 2 ^ 63 - 1.

(** Result of an operation on Go's [int] (64 bits, two's complement). *)
Definition wrap_int (z : Z) : Z := (z + 2 ^ 63) mod two64 - 2 ^ 63.

(** ** Constants and types of the fuse library used by the controller *)

(** [fuseops.RootInodeID]. *)
Definition RootInodeID : Z := 1.

(** [fuseutil.DirentType]. *)
Inductive DirentType :=
  | DT_Unknown | DT_Socket | DT_Link | DT_File
  | DT_Block | DT_Directory | DT_Char | DT_FIFO.

Definition is_DT_Directory (t : DirentType) : bool :=
  match t with DT_Directory => true | _ => false end.

(** [fuseutil.Dirent], the entry handed to [fuseutil.WriteDirent]. *)
Record Dirent := mkDirent {
  d_Offset : Z;
  d_Inode : Z;
  d_Name : string;
  d_Type : DirentType
}.

(** Error values surfaced by the operations. *)
Inductive Errno :=
  | ENOENT
  | ERANGE
  | EParseSize          (* "failed to parse size into a uint64" *)
  | EOther (code : Z).  (* an error produced by a collaborator *)

(** ** Data model *)

(** Addresses of [Inode] objects. *)
Abbreviation loc := nat (only parsing).

Abbreviation bytes := (list Byte.byte) (only parsing).

(** Modelled from the spec: the struct [InodeAttributes] is declared outside
    [sddp.go]; these are the two fields the controller reads and writes. *)
Record InodeAttributes := mkAttrs {
  Size : Z;
  Mtime : Z
}.

(** Modelled from the spec: [DirInodeData] is declared outside [sddp.go].
    The child map is keyed by the child's (name, kind), kind being "is a
    directory"; [DirTime] is the directory-listing timestamp. *)
Record DirInodeData := mkDir {
  Children : gmap (string * bool) loc;
  DirTime : Z
}.

(** Modelled from the spec: the struct [Inode] is declared outside [sddp.go];
    the fields are those the controller uses. [dir] is [nil] for a file. *)
Record Inode := mkInode {
  Id : Z;
  Name : string;
  Parent : option loc;
  Attributes : InodeAttributes;
  KnownSize : option Z;
  AttrTime : Z;
  dir : option DirInodeData;
  s3Metadata : gmap string bytes;
  refcnt : Z;
  fileHandles : Z;
  Link : string
}.

Definition isDir (i : Inode) : bool :=
  match dir i with Some _ => true | None => false end.

(** Modelled from the spec: [DirHandleEntry], the materialization unit, is
    declared outside [sddp.go]. [e_Inode = 0] means "not yet realized as an
    Inode"; the content tag and the storage class are optional. *)
Record DirHandleEntry := mkEntry {
  e_Name : string;
  e_Inode : Z;
  e_Type : DirentType;
  e_Offset : Z;
  e_Attributes : InodeAttributes;
  e_ETag : option string;
  e_StorageClass : option string
}.

(** Modelled from the spec: [DirHandle] is declared outside [sddp.go]. It is
    bound to its owning inode; [dh_Entries] is what its [ReadDir] method
    answers at each offset ([inr None] is the end-of-listing sentinel). *)
Record DirHandle := mkDirHandle {
  dh_inode : loc;
  dh_Entries : Z -> Errno + option DirHandleEntry
}.

(** Modelled from the spec: [FileHandle] is declared outside [sddp.go]; it
    binds an inode to a content buffer, [fh_dirty] meaning "nothing fetched
    yet". *)
Record FileHandle := mkFileHandle {
  fh_inode : loc;
  fh_dirty : bool
}.

(** Modelled from the spec: [FlagStorage] is declared outside [sddp.go];
    these are the two configuration values the controller reads, the
    attribute-cache and the entry-type-cache TTL. *)
Record FlagStorage := mkFlags {
  StatCacheTTL : Z;
  TypeCacheTTL : Z
}.

(** The [Fusera] struct. *)
Record Fusera := mkFusera {
  flags : FlagStorage;
  umask : Z;
  rootAttrs : InodeAttributes;
  nextInodeID : Z;
  inodes : gmap Z loc;
  nextHandleID : Z;
  dirHandles : gmap Z DirHandle;
  fileHandles_tbl : gmap Z FileHandle;
  forgotCnt : Z
}.

(** The whole program state: the heap of inode objects, the controller, and
    the clock ([time.Now()] returns [clock ticks] and advances [ticks]). *)
Record State := mkState {
  heap : list Inode;
  fs : Fusera;
  clock : nat -> Z;
  ticks : nat
}.

(** *** Field updates *)

Definition set_Id (v : Z) (i : Inode) : Inode :=
  mkInode v (Name i) (Parent i) (Attributes i) (KnownSize i) (AttrTime i)
          (dir i) (s3Metadata i) (refcnt i) (fileHandles i) (Link i).
Definition set_Attributes (v : InodeAttributes) (i : Inode) : Inode :=
  mkInode (Id i) (Name i) (Parent i) v (KnownSize i) (AttrTime i)
          (dir i) (s3Metadata i) (refcnt i) (fileHandles i) (Link i).
Definition set_KnownSize (v : option Z) (i : Inode) : Inode :=
  mkInode (Id i) (Name i) (Parent i) (Attributes i) v (AttrTime i)
          (dir i) (s3Metadata i) (refcnt i) (fileHandles i) (Link i).
Definition set_AttrTime (v : Z) (i : Inode) : Inode :=
  mkInode (Id i) (Name i) (Parent i) (Attributes i) (KnownSize i) v
          (dir i) (s3Metadata i) (refcnt i) (fileHandles i) (Link i).
Definition set_dir (v : option DirInodeData) (i : Inode) : Inode :=
  mkInode (Id i) (Name i) (Parent i) (Attributes i) (KnownSize i) (AttrTime i)
          v (s3Metadata i) (refcnt i) (fileHandles i) (Link i).
Definition set_s3Metadata (v : gmap string bytes) (i : Inode) : Inode :=
  mkInode (Id i) (Name i) (Parent i) (Attributes i) (KnownSize i) (AttrTime i)
          (dir i) v (refcnt i) (fileHandles i) (Link i).
Definition set_refcnt (v : Z) (i : Inode) : Inode :=
  mkInode (Id i) (Name i) (Parent i) (Attributes i) (KnownSize i) (AttrTime i)
          (dir i) (s3Metadata i) v (fileHandles i) (Link i).
Definition set_fileHandles (v : Z) (i : Inode) : Inode :=
  mkInode (Id i) (Name i) (Parent i) (Attributes i) (KnownSize i) (AttrTime i)
          (dir i) (s3Metadata i) (refcnt i) v (Link i).
Definition set_Link (v : string) (i : Inode) : Inode :=
  mkInode (Id i) (Name i) (Parent i) (Attributes i) (KnownSize i) (AttrTime i)
          (dir i) (s3Metadata i) (refcnt i) (fileHandles i) v.
Definition set_Mtime (v : Z) (a : InodeAttributes) : InodeAttributes :=
  mkAttrs (Size a) v.

Definition set_rootAttrs (v : InodeAttributes) (f : Fusera) : Fusera :=
  mkFusera (flags f) (umask f) v (nextInodeID f) (inodes f) (nextHandleID f)
           (dirHandles f) (fileHandles_tbl f) (forgotCnt f).
Definition set_nextInodeID (v : Z) (f : Fusera) : Fusera :=
  mkFusera (flags f) (umask f) (rootAttrs f) v (inodes f) (nextHandleID f)
           (dirHandles f) (fileHandles_tbl f) (forgotCnt f).
Definition set_inodes (v : gmap Z loc) (f : Fusera) : Fusera :=
  mkFusera (flags f) (umask f) (rootAttrs f) (nextInodeID f) v (nextHandleID f)
           (dirHandles f) (fileHandles_tbl f) (forgotCnt f).
Definition set_nextHandleID (v : Z) (f : Fusera) : Fusera :=
  mkFusera (flags f) (umask f) (rootAttrs f) (nextInodeID f) (inodes f) v
           (dirHandles f) (fileHandles_tbl f) (forgotCnt f).
Definition set_dirHandles (v : gmap Z DirHandle) (f : Fusera) : Fusera :=
  mkFusera (flags f) (umask f) (rootAttrs f) (nextInodeID f) (inodes f)
           (nextHandleID f) v (fileHandles_tbl f) (forgotCnt f).
Definition set_fileHandles_tbl (v : gmap Z FileHandle) (f : Fusera) : Fusera :=
  mkFusera (flags f) (umask f) (rootAttrs f) (nextInodeID f) (inodes f)
           (nextHandleID f) (dirHandles f) v (forgotCnt f).

Definition set_heap (v : list Inode) (s : State) : State :=
  mkState v (fs s) (clock s) (ticks s).
Definition set_fs (v : Fusera) (s : State) : State :=
  mkState (heap s) v (clock s) (ticks s).

(** ** The monad of the controller's code

    A computation runs on the state and either returns a value or panics (a
    failed [getInodeOrDie], a nil dereference): the process is gone. A Go
    [error] is a returned value. [OutOfFuel] is the answer of a loop whose
    iteration bound was too small; [ReadDir_terminates] shows that the bound
    used is never too small. *)

Inductive Res (A : Type) : Type :=
  | Ok (a : A) (s : State)
  | Panic
  | OutOfFuel.
Arguments Ok {A} a s.
Arguments Panic {A}.
Arguments OutOfFuel {A}.

Definition M (A : Type) : Type := State -> Res A.

Definition ret {A} (a : A) : M A := fun s => Ok a s.

Definition bind {A B} (m : M A) (k : A -> M B) : M B :=
  fun s => match m s with
           | Ok a s' => k a s'
           | Panic => Panic
           | OutOfFuel => OutOfFuel
           end.

Declare Scope fusera_scope.
Delimit Scope fusera_scope with fusera.
Notation "x <- m ;; k" := (bind m (fun x => k))
  (at level 100, m at next level, right associativity) : fusera_scope.
Notation "m ;;; k" := (bind m (fun _ => k))
  (at level 100, right associativity) : fusera_scope.
Local Open Scope fusera_scope.

Definition panic {A} : M A := fun _ => Panic.
Definition get_fs : M Fusera := fun s => Ok (fs s) s.
Definition put_fs (f : Fusera) : M unit := fun s => Ok tt (set_fs f s).

(** [time.Now()]. *)
Definition now : M Z :=
  fun s => Ok (clock s (ticks s)) (mkState (heap s) (fs s) (clock s) (S (ticks s))).

(** Dereference of an inode pointer; a dangling or nil pointer panics. *)
Definition load (a : loc) : M Inode :=
  fun s => match heap s !! a with Some i => Ok i s | None => Panic end.

(** Update of the object behind a pointer. *)
Definition modify (a : loc) (f : Inode -> Inode) : M unit :=
  fun s => match heap s !! a with
           | Some i => Ok tt (set_heap (<[a := f i]> (heap s)) s)
           | None => Panic
           end.

(** Allocation of a new object. *)
Definition alloc (i : Inode) : M loc :=
  fun s => Ok (length (heap s)) (set_heap (heap s ++ [i]) s).

(** The plumbing unfolds when a computation is applied to a state. *)
Arguments bind {A B} m k s /.
Arguments ret {A} a s /.
Arguments now s /.
Arguments get_fs s /.
Arguments put_fs f s /.
Arguments alloc i s /.
Arguments panic {A} s /.

(** ** Inode methods the controller calls *)

(** Modelled from the spec: the constructor [NewInode] is outside [sddp.go].
    It allocates an inode object with the given parent and name, which is a
    file until [ToDir] is called, carries no remote metadata yet, and has a
    fresh attribute-refresh timestamp. The caller assigns the ID. (The full
    path it also receives is used for logging only and is not modelled; the
    reference count a new object starts with is not stated by the spec, and
    every path of the controller that depends on it assigns it.) *)
Definition NewInode (parent : option loc) (name : string) : M loc :=
  t <- now ;;
  alloc (mkInode 0 name parent (mkAttrs 0 0) None t None ∅ 1 0 "").

(** Modelled from the spec: [Inode.ToDir] is outside [sddp.go]. It turns the
    inode into a Directory: an empty child map and an unset listing
    timestamp. It takes no argument, so nothing of a listing entry enters. *)
Definition ToDir (a : loc) : M unit :=
  modify a (set_dir (Some (mkDir ∅ 0))).

(** Modelled from the spec: [Inode.touch] is outside [sddp.go]; it sets the
    inode's mtime to the current time. *)
Definition touch (a : loc) : M unit :=
  t <- now ;;
  modify a (fun i => set_Attributes (set_Mtime t (Attributes i)) i).

(** Modelled from the spec: [Inode.findChildUnlocked] is outside [sddp.go];
    it searches the parent's child map for (name, kind) and returns [nil]
    when there is none. A parent that is not a directory has no child map. *)
Definition findChildUnlocked (parent : loc) (name : string) (isdir : bool)
  : M (option loc) :=
  p <- load parent ;;
  match dir p with
  | Some d => ret (Children d !! (name, isdir))
  | None => panic
  end.

(** Modelled from the spec: [Inode.findChildUnlockedFull] is outside
    [sddp.go]; it searches the child map by name alone, a file first and a
    directory of that name otherwise. *)
Definition findChildUnlockedFull (parent : loc) (name : string)
  : M (option loc) :=
  c <- findChildUnlocked parent name false ;;
  match c with
  | Some a => ret (Some a)
  | None => findChildUnlocked parent name true
  end.

(** Modelled from the spec: [Inode.insertChildUnlocked] is outside
    [sddp.go]; it registers the child in the parent's child map. *)
Definition insertChildUnlocked (parent child : loc) : M unit :=
  c <- load child ;;
  p <- load parent ;;
  match dir p with
  | Some d =>
      modify parent
        (set_dir (Some (mkDir (<[(Name c, isDir c) := child]> (Children d))
                              (DirTime d))))
  | None => panic
  end.

(** Modelled from the spec: [Inode.Ref] is outside [sddp.go]; it increments
    the reference count. *)
Definition Ref (a : loc) : M unit :=
  modify a (fun i => set_refcnt (refcnt i + 1) i).

(** Greatest element of a list of times; the zero time for no element. *)
Definition max_list (l : list Z) : Z :=
  match l with
  | [] => 0
  | x :: r => foldr Z.max x r
  end.

(** Dereference of a list of pointers, in order. *)
Fixpoint load_all (l : list loc) : M (list Inode) :=
  match l with
  | [] => ret []
  | a :: r => i <- load a ;; rest <- load_all r ;; ret (i :: rest)
  end.

(** Modelled from the spec: [Inode.findChildMaxTime] is outside [sddp.go];
    it is the maximum mtime over the directory's children. *)
Definition findChildMaxTime (parent : loc) : M Z :=
  p <- load parent ;;
  match dir p with
  | Some d =>
      cs <- load_all (map_to_list (Children d)).*2 ;;
      ret (max_list ((fun c => Mtime (Attributes c)) <$> cs))
  | None => panic
  end.

(** ** The controller: ID allocation and insertion *)

(** [Fusera.allocateInodeId]. *)
Definition allocateInodeId : M Z :=
  f <- get_fs ;;
  put_fs (set_nextInodeID (u64 (nextInodeID f + 1)) f) ;;;
  ret (nextInodeID f).

(** [Fusera.getInodeOrDie]: panics when the ID is not in the table. *)
Definition getInodeOrDie (id : Z) : M loc :=
  f <- get_fs ;;
  match inodes f !! id with
  | Some a => ret a
  | None => panic
  end.

(** [Fusera.insertInode]. *)
Definition insertInode (parent inode : loc) : M unit :=
  id <- allocateInodeId ;;
  modify inode (set_Id id) ;;;
  insertChildUnlocked parent inode ;;;
  i <- load inode ;;
  f <- get_fs ;;
  put_fs (set_inodes (<[Id i := inode]> (inodes f)) f).

(** [inode.s3Metadata[key] = []byte(v)], done when the entry carries [v]. *)
Definition set_meta_opt (a : loc) (key : string) (v : option string) : M unit :=
  match v with
  | Some t =>
      modify a (fun i =>
        set_s3Metadata (<[key := list_byte_of_string t]> (s3Metadata i)) i)
  | None => ret tt
  end.

(** [Fusera.insertInodeFromDirEntry]. *)
Definition insertInodeFromDirEntry (parent : loc) (entry : DirHandleEntry)
  : M loc :=
  found <- findChildUnlocked parent (e_Name entry)
             (is_DT_Directory (e_Type entry)) ;;
  match found with
  | None =>
      inode <- NewInode (Some parent) (e_Name entry) ;;
      (if is_DT_Directory (e_Type entry)
       then ToDir inode
       else modify inode (set_Attributes (e_Attributes entry))) ;;;
      set_meta_opt inode "etag" (e_ETag entry) ;;;
      set_meta_opt inode "storage-class" (e_StorageClass entry) ;;;
      modify inode (set_refcnt 0) ;;;
      insertInode parent inode ;;;
      ret inode
  | Some inode =>
      set_meta_opt inode "etag" (e_ETag entry) ;;;
      set_meta_opt inode "storage-class" (e_StorageClass entry) ;;;
      modify inode (set_KnownSize (Some (Size (e_Attributes entry)))) ;;;
      modify inode (fun i =>
        set_Attributes (set_Mtime (Mtime (e_Attributes entry)) (Attributes i)) i) ;;;
      t <- now ;;
      modify inode (set_AttrTime t) ;;;
      ret inode
  end.

(** ** Kernel-facing operations *)

(** [fuseops.InodeAttributes], the attributes handed to the kernel. *)
Record FuseAttributes := mkFuseAttributes {
  fa_Size : Z;
  fa_Nlink : Z;
  fa_Mode : Z;
  fa_Mtime : Z;
  fa_Uid : Z;
  fa_Gid : Z
}.

(** [fuseops.ChildInodeEntry], filled by [LookUpInode]. *)
Record ChildInodeEntry := mkChildInodeEntry {
  Child : Z;
  ce_Attributes : FuseAttributes;
  ce_AttributesExpiration : Z;
  ce_EntryExpiration : Z
}.

(** The fields of [fuseops.GetInodeAttributesOp] the operation fills. *)
Record GetInodeAttributesOut := mkGetInodeAttributesOut {
  ga_Attributes : FuseAttributes;
  ga_AttributesExpiration : Z
}.

(** The destination buffer and byte count of [GetXattrOp], [ListXattrOp]. *)
Record XattrOut := mkXattrOut {
  x_Dst : bytes;
  x_BytesRead : Z
}.

(** What [ReadDir] leaves in [ReadDirOp]: the byte count and, in order, the
    entries encoded into [Dst]. *)
Record ReadDirOut := mkReadDirOut {
  rd_BytesRead : Z;
  rd_Dst : list Dirent
}.

(** The figures [StatFS] reports. *)
Record StatFSOut := mkStatFSOut {
  BlockSize : Z;
  Blocks : Z;
  BlocksFree : Z;
  BlocksAvailable : Z;
  IoSize : Z;
  Inodes : Z;
  InodesFree : Z
}.

(** [Fusera.StatFS]. *)
Definition StatFS : StatFSOut :=
  let BLOCK_SIZE := 4096 in
  let TOTAL_SPACE := 1 * 1024 * 1024 * 1024 * 1024 * 1024 in
  let TOTAL_BLOCKS := TOTAL_SPACE / BLOCK_SIZE in
  let INODES := 1 * 1000 * 1000 * 1000 in
  mkStatFSOut BLOCK_SIZE TOTAL_BLOCKS TOTAL_BLOCKS TOTAL_BLOCKS
              (1 * 1024 * 1024) INODES INODES.

(** Go's [copy(dst, src)]: overwrites the first [min (len dst) (len src)]
    bytes of [dst]. *)
Definition copy (dst src : bytes) : bytes :=
  take (length dst) src ++ drop (length src) dst.

(** [fuseutil.WriteDirent] on a buffer with [avail] bytes left: the number of
    bytes the encoded entry takes (a 24-byte header, the name, padding to a
    multiple of 8), or zero when it does not fit. *)
Definition direntSize : Z := 8 + 8 + 4 + 4.
Definition direntAlignment : Z := 8.
Definition WriteDirent (avail : Z) (d : Dirent) : Z :=
  let len := Z.of_nat (String.length (d_Name d)) in
  let padLen := if len mod direntAlignment =? 0 then 0
                else direntAlignment - len mod direntAlignment in
  let totalLen := direntSize + len + padLen in
  if totalLen >? avail then 0 else totalLen.

(** [makeDirEntry]. *)
Definition makeDirEntry (en : DirHandleEntry) : Dirent :=
  mkDirent (e_Offset en) (RootInodeID + 1) (e_Name en) (e_Type en).

Section Collaborators.

(** Inode methods that live outside [sddp.go] and whose results the
    controller only passes on: what they compute is left open. *)
Variable Inode_GetAttributes : Inode -> Errno + FuseAttributes.
Variable Inode_InflateAttributes : Fusera -> Inode -> FuseAttributes.
Variable Inode_GetXattr : Inode -> string -> Errno + bytes.
Variable Inode_ListXattr : Inode -> list string * option Errno.

(** [Fusera.GetInodeAttributes]; [op] holds the two output fields as the
    caller passed them. *)
Definition GetInodeAttributes (id : Z) (op : GetInodeAttributesOut)
  : M (GetInodeAttributesOut * option Errno) :=
  inode <- getInodeOrDie id ;;
  i <- load inode ;;
  match Inode_GetAttributes i with
  | inr attr =>
      t <- now ;;
      f <- get_fs ;;
      ret (mkGetInodeAttributesOut attr (t + StatCacheTTL (flags f)), None)
  | inl err => ret (op, Some err)
  end.

(** [Fusera.GetXattr]. *)
Definition GetXattr (id : Z) (name : string) (op : XattrOut)
  : M (XattrOut * option Errno) :=
  inode <- getInodeOrDie id ;;
  i <- load inode ;;
  match Inode_GetXattr i name with
  | inl err => ret (op, Some err)
  | inr value =>
      let bytesRead := Z.of_nat (length value) in
      if Z.of_nat (length (x_Dst op)) <? bytesRead
      then ret (mkXattrOut (x_Dst op) bytesRead, Some ERANGE)
      else ret (mkXattrOut (copy (x_Dst op) value) bytesRead, None)
  end.

(** The loop of [ListXattr]; [dst], [bytesRead] and [ncopied] are the loop's
    variables. [op.BytesRead] is a Go [int]: [op.BytesRead += nlen] wraps. *)
Fixpoint ListXattr_loop (xattrs : list string) (dst : bytes)
    (bytesRead : Z) (ncopied : nat) : bytes * Z * nat :=
  match xattrs with
  | [] => (dst, bytesRead, ncopied)
  | name :: rest =>
      let buf := drop ncopied dst in
      let nlen := S (String.length name) in
      if (nlen <=? length buf)%nat
      then
        let buf' := <[(nlen - 1)%nat := Byte.x00]>
                      (copy buf (list_byte_of_string name)) in
        ListXattr_loop rest (take ncopied dst ++ buf')
                       (wrap_int (bytesRead + Z.of_nat nlen))
                       (ncopied + nlen)%nat
      else
        ListXattr_loop rest dst (wrap_int (bytesRead + Z.of_nat nlen)) ncopied
  end.

(** [Fusera.ListXattr]. *)
Definition ListXattr (id : Z) (op : XattrOut)
  : M (XattrOut * option Errno) :=
  inode <- getInodeOrDie id ;;
  i <- load inode ;;
  let '(xattrs, err) := Inode_ListXattr i in
  let '(dst, bytesRead, ncopied) :=
    ListXattr_loop xattrs (x_Dst op) (x_BytesRead op) 0 in
  ret (mkXattrOut dst bytesRead,
       if Z.of_nat ncopied <? bytesRead then Some ERANGE else err).

(** [Fusera.LookUpInode]. *)
Definition LookUpInode (parentId : Z) (name : string) (op : ChildInodeEntry)
  : M (ChildInodeEntry * option Errno) :=
  parent <- getInodeOrDie parentId ;;
  found <- findChildUnlockedFull parent name ;;
  match found with
  | Some inode =>
      Ref inode ;;;
      i <- load inode ;;
      f <- get_fs ;;
      t1 <- now ;;
      t2 <- now ;;
      ret (mkChildInodeEntry (Id i) (Inode_InflateAttributes f i)
             (t1 + StatCacheTTL (flags f)) (t2 + TypeCacheTTL (flags f)),
           None)
  | None => ret (op, Some ENOENT)
  end.

End Collaborators.

(** Modelled from the spec: [Inode.OpenDir] is outside [sddp.go]; it
    allocates a directory handle bound to the inode. [listing] is what the
    listing source will answer through this handle. *)
Definition Inode_OpenDir (a : loc)
    (listing : Z -> Errno + option DirHandleEntry) : DirHandle :=
  mkDirHandle a listing.

(** [Fusera.OpenDir]; returns [op.Handle]. *)
Definition OpenDir (id : Z) (listing : Z -> Errno + option DirHandleEntry)
  : M Z :=
  f <- get_fs ;;
  let handleID := nextHandleID f in
  put_fs (set_nextHandleID (u64 (nextHandleID f + 1)) f) ;;;
  a <- getInodeOrDie id ;;
  let dh := Inode_OpenDir a listing in
  f <- get_fs ;;
  put_fs (set_dirHandles (<[handleID := dh]> (dirHandles f)) f) ;;;
  ret handleID.

(** Modelled from the spec: [Inode.OpenFile] is outside [sddp.go]; it binds a
    file handle to a content buffer from the pool, or fails ([failure] is the
    pool's answer). *)
Definition Inode_OpenFile (a : loc) (failure : option Errno)
  : Errno + FileHandle :=
  match failure with
  | Some err => inl err
  | None => inr (mkFileHandle a false)
  end.

(** The fields of [fuseops.OpenFileOp] the operation fills. *)
Record OpenFileOut := mkOpenFileOut {
  of_Handle : Z;
  of_KeepPageCache : bool
}.

(** [Fusera.OpenFile]; [op] holds the output fields as the caller passed
    them, and is returned unchanged on an error. *)
Definition OpenFile (id : Z) (failure : option Errno) (op : OpenFileOut)
  : M (OpenFileOut * option Errno) :=
  a <- getInodeOrDie id ;;
  match Inode_OpenFile a failure with
  | inl err => ret (op, Some err)
  | inr fh =>
      f <- get_fs ;;
      let handleID := nextHandleID f in
      put_fs (set_fileHandles_tbl (<[handleID := fh]> (fileHandles_tbl f))
                (set_nextHandleID (u64 (nextHandleID f + 1)) f)) ;;;
      ret (mkOpenFileOut handleID true, None)
  end.

(** [Fusera.ReleaseDirHandle]: an unknown handle is a nil dereference. *)
Definition ReleaseDirHandle (handle : Z) : M unit :=
  f <- get_fs ;;
  match dirHandles f !! handle with
  | Some _ => put_fs (set_dirHandles (delete handle (dirHandles f)) f)
  | None => panic
  end.

(** [Fusera.ReleaseFileHandle]. *)
Definition ReleaseFileHandle (handle : Z) : M unit :=
  f <- get_fs ;;
  match fileHandles_tbl f !! handle with
  | Some _ => put_fs (set_fileHandles_tbl (delete handle (fileHandles_tbl f)) f)
  | None => panic
  end.

(** [Fusera.ReadFile]: the bytes come from the handle's content buffer,
    [fetched] being its answer. *)
Definition ReadFile (handle : Z) (fetched : Z * option Errno)
  : M (Z * option Errno) :=
  f <- get_fs ;;
  match fileHandles_tbl f !! handle with
  | Some _ => ret fetched
  | None => panic
  end.

(** [Fusera.SyncFile]. *)
Definition SyncFile : M (option Errno) := ret None.

(** The loop of [ReadDir]. [i] and [readFromS3] are the loop's variables,
    [op] holds [op.BytesRead] and the entries written to [op.Dst] so far,
    [dstLen] is [len(op.Dst)]. The slice [op.Dst[op.BytesRead:]] panics when
    [op.BytesRead] is outside the destination. Every iteration that
    continues has written at least [direntSize] bytes, which bounds the
    number of iterations. *)
Fixpoint ReadDir_loop (fuel : nat) (dh : DirHandle) (dstLen : Z) (i : Z)
    (readFromS3 : bool) (op : ReadDirOut) : M (ReadDirOut * option Errno) :=
  match fuel with
  | O => fun _ => OutOfFuel
  | S fuel' =>
      let inode := dh_inode dh in
      match dh_Entries dh i with
      | inl err => ret (op, Some err)
      | inr None =>
          (if readFromS3
           then
             t <- now ;;
             p <- load inode ;;
             match dir p with
             | Some d =>
                 modify inode (set_dir (Some (mkDir (Children d) t))) ;;;
                 m <- findChildMaxTime inode ;;
                 modify inode (fun x =>
                   set_Attributes (set_Mtime m (Attributes x)) x)
             | None => panic
             end
           else ret tt) ;;;
          ret (op, None)
      | inr (Some e) =>
          readFromS3' <-
            (if e_Inode e =? 0
             then insertInodeFromDirEntry inode e ;;; ret true
             else ret readFromS3) ;;
          if (rd_BytesRead op <? 0) || (dstLen <? rd_BytesRead op)
          then panic
          else
            let n := WriteDirent (dstLen - rd_BytesRead op) (makeDirEntry e) in
            if n =? 0
            then ret (op, None)
            else ReadDir_loop fuel' dh dstLen (u64 (i + 1)) readFromS3'
                   (mkReadDirOut (rd_BytesRead op + n)
                                 (rd_Dst op ++ [makeDirEntry e]))
      end
  end.

(** [Fusera.ReadDir]: [offset] is [op.Offset], [dstLen] is [len(op.Dst)]. *)
Definition ReadDir (handle : Z) (offset : Z) (dstLen : Z) (op : ReadDirOut)
  : M (ReadDirOut * option Errno) :=
  f <- get_fs ;;
  match dirHandles f !! handle with
  | None => panic
  | Some dh =>
      ReadDir_loop (S (Z.to_nat (dstLen - rd_BytesRead op))) dh dstLen
                   offset false op
  end.

(** ** Construction *)

(** Modelled from the spec: the metadata payload of the name resolver
    ([nr.Accession] and its files) is declared outside [sddp.go]; an
    accession has an identifier and files, a file a name, a remote link and
    its size as a decimal string. *)
Record File := mkFile {
  f_Name : string;
  f_Link : string;
  f_Size : string
}.

Record Accession := mkAccession {
  acc_ID : string;
  Files : list File
}.

(** [strconv.ParseUint(s, 10, 64)]: a non-empty string of decimal digits
    whose value fits 64 bits; no sign, no separator. *)
Definition digit_of (c : ascii) : option Z :=
  let n := Z.of_nat (nat_of_ascii c) in
  if (48 <=? n) && (n <=? 57) then Some (n - 48) else None.

Fixpoint parse_digits (s : string) (acc : Z) : option Z :=
  match s with
  | EmptyString => Some acc
  | String c r =>
      match digit_of c with
      | Some d => parse_digits r (acc * 10 + d)
      | None => None
      end
  end.

Definition ParseUint (s : string) : option Z :=
  match s with
  | EmptyString => None
  | _ =>
      match parse_digits s 0 with
      | Some v => if v <? two64 then Some v else None
      | None => None
      end
  end.

(** The body of the inner loop of [NewFusera]: one file of an accession. *)
Definition newFile (dir : loc) (f : File) : M (option Errno) :=
  file <- NewInode (Some dir) (f_Name f) ;;
  modify file (set_Link (f_Link f)) ;;;
  match ParseUint (f_Size f) with
  | None => ret (Some EParseSize)
  | Some u =>
      t <- now ;;
      modify file (set_Attributes (mkAttrs u t)) ;;;
      let fh := mkFileHandle file true in
      modify file (set_fileHandles 1) ;;;
      touch dir ;;;
      insertInode dir file ;;;
      fsv <- get_fs ;;
      let hID := nextHandleID fsv in
      put_fs (set_fileHandles_tbl (<[hID := fh]> (fileHandles_tbl fsv))
                (set_nextHandleID (u64 (nextHandleID fsv + 1)) fsv)) ;;;
      ret None
  end.

Fixpoint newFiles (dir : loc) (files : list File) : M (option Errno) :=
  match files with
  | [] => ret None
  | f :: rest =>
      e <- newFile dir f ;;
      match e with
      | Some err => ret (Some err)
      | None => newFiles dir rest
      end
  end.

(** The body of the outer loop of [NewFusera]: one accession. *)
Definition newAccession (root : loc) (acc : Accession) : M (option Errno) :=
  d <- NewInode (Some root) (acc_ID acc) ;;
  ToDir d ;;;
  touch d ;;;
  insertInode root d ;;;
  newFiles d (Files acc).

Fixpoint newAccessions (root : loc) (payload : list Accession)
  : M (option Errno) :=
  match payload with
  | [] => ret None
  | acc :: rest =>
      e <- newAccession root acc ;;
      match e with
      | Some err => ret (Some err)
      | None => newAccessions root rest
      end
  end.

(** The memory before construction. *)
Definition blank (fl : FlagStorage) (clk : nat -> Z) : State :=
  mkState [] (mkFusera fl 0 (mkAttrs 0 0) 0 ∅ 0 ∅ ∅ 0) clk 0.

(** [NewFusera] after the name resolver has answered. *)
Definition NewFusera_build (payload : list Accession) : M (option Errno) :=
  f <- get_fs ;;
  put_fs (mkFusera (flags f) 82 (rootAttrs f) (nextInodeID f) (inodes f)
            (nextHandleID f) (dirHandles f) (fileHandles_tbl f) (forgotCnt f)) ;;;
  t <- now ;;
  f <- get_fs ;;
  put_fs (set_rootAttrs (mkAttrs 4096 t) f) ;;;
  f <- get_fs ;;
  put_fs (set_inodes ∅ (set_nextInodeID (RootInodeID + 1) f)) ;;;
  root <- NewInode None "" ;;
  modify root (set_Id RootInodeID) ;;;
  ToDir root ;;;
  f <- get_fs ;;
  modify root (fun x =>
    set_Attributes (set_Mtime (Mtime (rootAttrs f)) (Attributes x)) x) ;;;
  put_fs (set_inodes (<[RootInodeID := root]> (inodes f)) f) ;;;
  f <- get_fs ;;
  put_fs (set_fileHandles_tbl ∅ (set_dirHandles ∅ (set_nextHandleID 1 f))) ;;;
  newAccessions root payload.

(** [NewFusera]: [resolved] is the answer of [nr.ResolveNames]. The result is
    the filesystem, or the error with which construction gives up. *)
Definition NewFusera (fl : FlagStorage) (resolved : Errno + list Accession)
    (clk : nat -> Z) : Res (option Errno) :=
  match resolved with
  | inl err => Ok (Some err) (blank fl clk)
  | inr payload => NewFusera_build payload (blank fl clk)
  end.

(** The filesystem [NewFusera] returns, when it returns one. *)
Definition constructed (fl : FlagStorage) (resolved : Errno + list Accession)
    (clk : nat -> Z) : option State :=
  match NewFusera fl resolved clk with
  | Ok None s => Some s
  | _ => None
  end.

(** ** Sequences of opens *)

(** A request to open a directory (with what its listing will answer) or a
    file (the pool granting a buffer). *)
Inductive OpenReq :=
  | OpenDirReq (id : Z) (listing : Z -> Errno + option DirHandleEntry)
  | OpenFileReq (id : Z).

Definition req_inode (r : OpenReq) : Z :=
  match r with
  | OpenDirReq id _ => id
  | OpenFileReq id => id
  end.

(** The requests served one after the other; the handle IDs in order. *)
Fixpoint open_all (reqs : list OpenReq) : M (list Z) :=
  match reqs with
  | [] => ret []
  | r :: rest =>
      h <- match r with
           | OpenDirReq id listing => OpenDir id listing
           | OpenFileReq id =>
               hr <- OpenFile id None (mkOpenFileOut 0 false) ;;
               ret (of_Handle hr.1)
           end ;;
      hs <- open_all rest ;;
      ret (h :: hs)
  end.

(** ** A small filesystem used in the examples

    A root directory holding one file [f] (inode 2, size 3, mtime 5, content
    tag [old]), and listing entries for it. *)

Definition ex_dirdata : DirInodeData :=
  mkDir {[ ("f"%string, false) := 1%nat ]} 0.

Definition ex_root : Inode :=
  mkInode 1 "" None (mkAttrs 4096 0) None 0 (Some ex_dirdata) ∅ 1 0 "".

Definition ex_file : Inode :=
  mkInode 2 "f" (Some 0%nat) (mkAttrs 3 5) None 0 None
          {[ "etag"%string := list_byte_of_string "old" ]} 1 0 "".

Definition ex_flags : FlagStorage := mkFlags 60 30.

Definition ex_clock (n : nat) : Z := 100 + Z.of_nat n.

Definition ex_state : State :=
  mkState [ex_root; ex_file]
          (mkFusera ex_flags 82 (mkAttrs 4096 0) 3
                    {[ 1 := 0%nat; 2 := 1%nat ]} 1 ∅ ∅ 0)
          ex_clock 0.

(** A listing entry for the existing file, without tag or storage class. *)
Definition ex_entry : DirHandleEntry :=
  mkEntry "f" 0 DT_File 2 (mkAttrs 7 9) None None.

(** A listing entry for a directory that is not yet a child. *)
Definition ex_dir_entry : DirHandleEntry :=
  mkEntry "d" 0 DT_Directory 3 (mkAttrs 7 9) None None.

(** A listing entry for a file that is not yet a child. *)
Definition ex_new_entry : DirHandleEntry :=
  mkEntry "g" 0 DT_File 3 (mkAttrs 11 13) (Some "tag"%string) None.

(** An empty listing. *)
Definition ex_no_entries (off : Z) : Errno + option DirHandleEntry :=
  inr None.

(** A listing of the root: the known file [f] (inode 2), then the remote
    entry [g], then the end. *)
Definition ex_listing (off : Z) : Errno + option DirHandleEntry :=
  if off =? 0 then inr (Some (mkEntry "f" 2 DT_File 1 (mkAttrs 3 5) None None))
  else if off =? 1 then inr (Some ex_new_entry)
  else inr None.

Definition ex_handle : DirHandle := mkDirHandle 0%nat ex_listing.

(** The example filesystem with the root opened under handle 7. *)
Definition ex_open : State :=
  mkState [ex_root; ex_file]
          (mkFusera ex_flags 82 (mkAttrs 4096 0) 3
                    {[ 1 := 0%nat; 2 := 1%nat ]} 8 {[ 7 := ex_handle ]} ∅ 0)
          ex_clock 0.

(** The payload of the specification's scenario: one accession with two
    files of declared sizes 100 and 200; and one with an unparsable size. *)
Definition ex_payload : list Accession :=
  [mkAccession "SRR1" [mkFile "a.bam" "http://x/a" "100";
                       mkFile "b.bam" "http://x/b" "200"]].

Definition ex_bad_payload : list Accession :=
  [mkAccession "SRR1" [mkFile "a.bam" "http://x/a" "100";
                       mkFile "b.bam" "http://x/b" "-200"]].

(** The filesystem built from the scenario's payload. *)
Definition ex_built : State :=
  Eval vm_compute in
    match constructed ex_flags (inr ex_payload) ex_clock with
    | Some s => s
    | None => blank ex_flags ex_clock
    end.

(** ** Reachable states *)

(** The requests of the kernel, with what the collaborators answer where the
    controller asks them. *)
Inductive Op :=
  | OpStatFS
  | OpGetInodeAttributes (id : Z)
  | OpGetXattr (id : Z) (name : string) (dst : bytes)
  | OpListXattr (id : Z) (dst : bytes)
  | OpLookUpInode (parent : Z) (name : string)
  | OpOpenDir (id : Z) (listing : Z -> Errno + option DirHandleEntry)
  | OpReadDir (handle offset dstLen : Z)
  | OpReleaseDirHandle (handle : Z)
  | OpOpenFile (id : Z) (failure : option Errno)
  | OpReadFile (handle : Z) (fetched : Z * option Errno)
  | OpSyncFile
  | OpReleaseFileHandle (handle : Z).

Section Reachable.

Variable getattr : Inode -> Errno + FuseAttributes.
Variable inflate : Fusera -> Inode -> FuseAttributes.
Variable getxattr : Inode -> string -> Errno + bytes.
Variable listxattr : Inode -> list string * option Errno.

(** One request served on the state; what is returned to the kernel is
    dropped. *)
Definition exec (op : Op) : M unit :=
  match op with
  | OpStatFS => ret tt
  | OpGetInodeAttributes id =>
      GetInodeAttributes getattr id
        (mkGetInodeAttributesOut (mkFuseAttributes 0 0 0 0 0 0) 0) ;;; ret tt
  | OpGetXattr id name dst =>
      GetXattr getxattr id name (mkXattrOut dst 0) ;;; ret tt
  | OpListXattr id dst =>
      ListXattr listxattr id (mkXattrOut dst 0) ;;; ret tt
  | OpLookUpInode parent name =>
      LookUpInode inflate parent name
        (mkChildInodeEntry 0 (mkFuseAttributes 0 0 0 0 0 0) 0 0) ;;; ret tt
  | OpOpenDir id listing => OpenDir id listing ;;; ret tt
  | OpReadDir handle offset dstLen =>
      ReadDir handle offset dstLen (mkReadDirOut 0 []) ;;; ret tt
  | OpReleaseDirHandle handle => ReleaseDirHandle handle
  | OpOpenFile id failure =>
      OpenFile id failure (mkOpenFileOut 0 false) ;;; ret tt
  | OpReadFile handle fetched => ReadFile handle fetched ;;; ret tt
  | OpSyncFile => SyncFile ;;; ret tt
  | OpReleaseFileHandle handle => ReleaseFileHandle handle
  end.

(** The states of a filesystem: the one [NewFusera] returns, and those the
    requests lead to from it. A request that panics leads nowhere. *)
Inductive reachable : State -> Prop :=
  | reachable_new fl payload clk s :
      constructed fl (inr payload) clk = Some s -> reachable s
  | reachable_op s op s' :
      reachable s -> exec op s = Ok tt s' -> reachable s'.

End Reachable.

(** The inode table and the allocator agree: every ID of the table is the
    ID of the inode it maps to, lies between the root ID and the next ID to
    hand out, the IDs handed out so far are all in the table, and the root
    ID maps to the root inode, the first object allocated. *)
Definition ids_ok (s : State) : Prop :=
  (forall k a, inodes (fs s) !! k = Some a ->
     exists i, heap s !! a = Some i /\ Id i = k)
  /\ (forall k a, inodes (fs s) !! k = Some a ->
        RootInodeID <= k < nextInodeID (fs s))
  /\ nextInodeID (fs s) = 1 + Z.of_nat (size (inodes (fs s)))
  /\ inodes (fs s) !! RootInodeID = Some 0%nat.

(** * Vocabulary of the properties *)

(** What the entry makes of a metadata key of an inode: the entry's value
    when it carries one, the inode's own otherwise. *)
Definition meta_after (v : option string) (old : option bytes) : option bytes :=
  match v with
  | Some t => Some (list_byte_of_string t)
  | None => old
  end.

(** The child a name resolves to in a child map: the file of that name, or
    else the directory of that name. *)
Definition child_named (d : DirInodeData) (name : string) : option loc :=
  match Children d !! (name, false) with
  | Some c => Some c
  | None => Children d !! (name, true)
  end.


(** Attributes as the kernel sees them, for the examples: size and mtime of
    the inode, two links and the directory bit for a directory. *)
Definition ex_inflate (f : Fusera) (i : Inode) : FuseAttributes :=
  mkFuseAttributes (Size (Attributes i)) (if isDir i then 2 else 1)
                   (if isDir i then 16877 else 420) (Mtime (Attributes i)) 0 0.

(** An attribute getter for the examples: it always answers. *)
Definition ex_getattr (i : Inode) : Errno + FuseAttributes :=
  inr (ex_inflate (mkFusera ex_flags 0 (mkAttrs 0 0) 0 ∅ 0 ∅ ∅ 0) i).

(** The size [ListXattr] requires: every name and its terminating zero. *)
Definition xattrs_size (xattrs : list string) : nat :=
  sum_list ((fun n => S (String.length n)) <$> xattrs).

(** The names of [xattrs] that find room in [room] bytes: each name, in
    order, that fits, with its terminator, the space the names taken
    before it have left. *)
Fixpoint fitting (xattrs : list string) (room : nat) : list string :=
  match xattrs with
  | [] => []
  | name :: rest =>
      if (S (String.length name) <=? room)%nat
      then name :: fitting rest (room - S (String.length name))
      else fitting rest room
  end.

(** The names as [ListXattr] lays them out. *)
Definition xattrs_bytes (xattrs : list string) : bytes :=
  concat ((fun n => list_byte_of_string n ++ [Byte.x00]) <$> xattrs).

(** Extended attributes for the examples: the content tag is the only value,
    and the names are [a] and [bb]. *)
Definition ex_getxattr (i : Inode) (name : string) : Errno + bytes :=
  match s3Metadata i !! name with
  | Some v => inr v
  | None => inl (EOther 61)
  end.

Definition ex_listxattr (i : Inode) : list string * option Errno :=
  (["a"%string; "bb"%string], None).

(** [m] is the greatest mtime among the children of [d] in the heap [h]. *)
Definition max_child_mtime (h : list Inode) (d : DirInodeData) (m : Z) : Prop :=
  (forall k c ci,
      Children d !! k = Some c -> h !! c = Some ci ->
      Mtime (Attributes ci) <= m)
  /\ (Children d <> ∅ ->
      exists k c ci,
        Children d !! k = Some c /\ h !! c = Some ci
        /\ Mtime (Attributes ci) = m).

(** The children of the directory at [a] are other objects of the heap. *)
Definition children_valid (h : list Inode) (a : loc) (d : DirInodeData) : Prop :=
  map_Forall (fun _ c => c <> a /\ (c < length h)%nat) (Children d).

(** The offset of the [j]-th iteration of the loop that starts at [i]. *)
Definition offs (i : Z) (j : nat) : Z := Nat.iter j (fun x => u64 (x + 1)) i.

(** The entry came from the remote listing: it is not yet an inode. *)
Definition remote (e : DirHandleEntry) : bool := e_Inode e =? 0.

(** The directory at [a] has listing timestamp [T] and attributes [A]. *)
Definition dir_kept (s : State) (a : loc) (T : Z) (A : InodeAttributes) : Prop :=
  exists p d,
    heap s !! a = Some p /\ dir p = Some d
    /\ DirTime d = T /\ Attributes p = A
    /\ children_valid (heap s) a d.

(** The directory at [a] was refreshed by the last clock reading: its
    listing timestamp is that reading and its mtime is the greatest mtime
    among its children. *)
Definition dir_refreshed (s : State) (a : loc) : Prop :=
  exists p d,
    heap s !! a = Some p /\ dir p = Some d
    /\ (0 < ticks s)%nat
    /\ DirTime d = clock s (pred (ticks s))
    /\ max_child_mtime (heap s) d (Mtime (Attributes p)).

(** Computations that cannot run out of iterations: everything but a loop
    with too small a bound. *)
Definition returns_or_panics {A} (m : M A) : Prop := forall s, m s <> OutOfFuel.

(** How a call of [ReadDir] that encoded the entries [es] ends, and what it
    did to the directory whose listing timestamp was [T] and whose
    attributes were [A]: at the end of the listing the directory is
    refreshed if one of [es] was remote and is as before otherwise; when the
    next entry does not fit, or the listing fails, it is as before. *)
Definition listing_outcome (dh : DirHandle) (offset dstLen : Z) (T : Z)
    (A : InodeAttributes) (es : list DirHandleEntry) (r : ReadDirOut)
    (err : option Errno) (s' : State) : Prop :=
  match dh_Entries dh (offs offset (length es)) with
  | inr None =>
      err = None
      /\ if existsb remote es
         then dir_refreshed s' (dh_inode dh)
         else dir_kept s' (dh_inode dh) T A
  | inr (Some e) =>
      WriteDirent (dstLen - rd_BytesRead r) (makeDirEntry e) = 0
      /\ err = None /\ dir_kept s' (dh_inode dh) T A
  | inl e => err = Some e /\ dir_kept s' (dh_inode dh) T A
  end.

(** The child map of an inode, when it is a directory. *)
Definition children (i : Inode) : option (gmap (string * bool) loc) :=
  Children <$> dir i.

(** From [s] to [s'] the inode table and the allocator are the same, no
    inode was allocated, and every inode keeps its ID and its children. *)
Definition same_ids (s s' : State) : Prop :=
  inodes (fs s') = inodes (fs s)
  /\ nextInodeID (fs s') = nextInodeID (fs s)
  /\ length (heap s') = length (heap s)
  /\ forall a i, heap s !! a = Some i ->
       exists i', heap s' !! a = Some i' /\ Id i' = Id i
                  /\ children i' = children i.

(** From [s] to [s'] one inode, without children, was allocated and
    inserted under the next ID; every other inode keeps its ID, and keeps
    its children or gains the new inode as a child. *)
Definition inserted (s s' : State) : Prop :=
  inodes (fs s')
    = <[nextInodeID (fs s) := length (heap s)]> (inodes (fs s))
  /\ nextInodeID (fs s') = u64 (nextInodeID (fs s) + 1)
  /\ length (heap s') = S (length (heap s))
  /\ (exists i, heap s' !! length (heap s) = Some i
                /\ Id i = nextInodeID (fs s)
                /\ forall m, children i = Some m -> m = ∅)
  /\ forall a i, heap s !! a = Some i ->
       exists i', heap s' !! a = Some i' /\ Id i' = Id i
         /\ (children i' = children i
             \/ exists k,
                  children i' = <[k := length (heap s)]> <$> children i).

(** Every directory of the heap has children that are other objects of the
    heap. *)
Definition tree_ok (s : State) : Prop :=
  forall a p d, heap s !! a = Some p -> dir p = Some d ->
                children_valid (heap s) a d.

(** What the code does to the IDs and to the directory tree between two
    states: a sequence of such steps. *)
Definition id_step (s s' : State) : Prop := same_ids s s' \/ inserted s s'.

(** Computations that leave table, allocator, IDs and children alone. *)
Definition quiet {A} (m : M A) : Prop :=
  forall s a s', m s = Ok a s' -> same_ids s s'.

(** The inode [i] is the file inode made for the payload file [f]: its
    attribute size is the parsed size. *)
Definition file_of (f : File) (i : Inode) : Prop :=
  dir i = None /\ Name i = f_Name f /\ Link i = f_Link f
  /\ ParseUint (f_Size f) = Some (Size (Attributes i)).

(** The file [f] of the accession [acc] has its inode in the heap [h], below
    the directory inode of the accession. *)
Definition file_made (h : list Inode) (acc : Accession) (f : File) : Prop :=
  exists a i dl di,
    h !! a = Some i /\ file_of f i /\ Parent i = Some dl
    /\ h !! dl = Some di /\ isDir di = true /\ Name di = acc_ID acc.

Definition parses (f : File) : bool :=
  match ParseUint (f_Size f) with Some _ => true | None => false end.

(** From heap [h] to heap [h']: file inodes stay as they are, directories
    stay directories of the same name, and the file inodes that are new are
    those of [files], all below the directory at [dl]. *)
Definition built (files : list File) (dl : loc) (h h' : list Inode) : Prop :=
  (forall a i, h !! a = Some i -> dir i = None -> h' !! a = Some i)
  /\ (forall a i, h !! a = Some i -> isDir i = true ->
        exists i', h' !! a = Some i' /\ isDir i' = true /\ Name i' = Name i)
  /\ (forall f, f ∈ files ->
        exists a i, h' !! a = Some i /\ file_of f i /\ Parent i = Some dl)
  /\ (forall a i, h' !! a = Some i -> dir i = None ->
        h !! a = Some i \/ exists f, f ∈ files /\ file_of f i).

(** From heap [h] to heap [h']: as [built], for the files of the accessions
    of [payload], each below the directory inode of its accession. *)
Definition made (payload : list Accession) (h h' : list Inode) : Prop :=
  (forall a i, h !! a = Some i -> dir i = None -> h' !! a = Some i)
  /\ (forall a i, h !! a = Some i -> isDir i = true ->
        exists i', h' !! a = Some i' /\ isDir i' = true /\ Name i' = Name i)
  /\ (forall acc f, acc ∈ payload -> f ∈ Files acc -> file_made h' acc f)
  /\ (forall a i, h' !! a = Some i -> dir i = None ->
        h !! a = Some i
        \/ exists acc f, acc ∈ payload /\ f ∈ Files acc /\ file_of f i).

(** * More vocabulary: runs, sizes and handles *)

(** The bytes an encoded directory entry takes: the 24-byte header, the
    name, and the padding of the name to a multiple of 8. *)
Definition direntLen (d : Dirent) : Z :=
  let len := Z.of_nat (String.length (d_Name d)) in
  direntSize + len
  + (if len mod direntAlignment =? 0 then 0
     else direntAlignment - len mod direntAlignment).

(** The bytes a sequence of encoded entries takes. *)
Definition direntsLen (ds : list Dirent) : Z :=
  foldr (fun d n => direntLen d + n) 0 ds.

(** A computation returned (it neither panicked nor ran short of
    iterations). *)
Definition returned {A} (r : Res A) : Prop :=
  match r with Ok _ _ => True | _ => False end.

(** A listing whose first answer is the remote entry [g] and which then
    ends, and the example filesystem with the root opened on it. *)
Definition ex_remote_listing (off : Z) : Errno + option DirHandleEntry :=
  if off =? 0 then inr (Some ex_new_entry) else inr None.

Definition ex_open_remote : State :=
  mkState [ex_root; ex_file]
          (mkFusera ex_flags 82 (mkAttrs 4096 0) 3
                    {[ 1 := 0%nat; 2 := 1%nat ]} 8
                    {[ 7 := mkDirHandle 0%nat ex_remote_listing ]} ∅ 0)
          ex_clock 0.

(** A listing of entries that are all realized: the file [f], inode 2, at
    every offset. *)
Definition ex_realized_listing (off : Z) : Errno + option DirHandleEntry :=
  inr (Some (mkEntry "f" 2 DT_File 1 (mkAttrs 3 5) None None)).

Definition ex_open_realized : State :=
  mkState [ex_root; ex_file]
          (mkFusera ex_flags 82 (mkAttrs 4096 0) 3
                    {[ 1 := 0%nat; 2 := 1%nat ]} 8
                    {[ 7 := mkDirHandle 0%nat ex_realized_listing ]} ∅ 0)
          ex_clock 0.

(** Requests that only ask: they hand out no handle, take no reference and
    list nothing. *)
Definition is_query (op : Op) : bool :=
  match op with
  | OpStatFS | OpGetInodeAttributes _ | OpGetXattr _ _ _ | OpListXattr _ _
  | OpReadFile _ _ | OpSyncFile => true
  | _ => false
  end.

Definition is_ReadDir (op : Op) : bool :=
  match op with OpReadDir _ _ _ => true | _ => false end.

Section Runs.

Variable getattr : Inode -> Errno + FuseAttributes.
Variable inflate : Fusera -> Inode -> FuseAttributes.
Variable getxattr : Inode -> string -> Errno + bytes.
Variable listxattr : Inode -> list string * option Errno.

(** The requests of a list served one after the other. *)
Fixpoint execs (ops : list Op) : M unit :=
  match ops with
  | [] => ret tt
  | op :: rest => exec getattr inflate getxattr listxattr op ;;; execs rest
  end.

End Runs.

(** The number of files of a payload, and of inodes made for it (one per
    accession and one per file). *)
Definition count_files (payload : list Accession) : nat :=
  sum_list ((fun acc => length (Files acc)) <$> payload).

Definition count_inodes (payload : list Accession) : nat :=
  (length payload + count_files payload)%nat.

(** The configuration of the controller: what [NewFusera] sets once. *)
Definition config (f : Fusera) : FlagStorage * Z * InodeAttributes * Z :=
  (flags f, umask f, rootAttrs f, forgotCnt f).

(** From [s] to [s'] construction has made [m] inodes and [n] file
    handles: the configuration, the directory handles and the clock
    function are the same; the new inodes are the next [m] objects of the
    heap and carry the next [m] inode IDs, under which the table holds
    them; the new handles carry the next [n] handle IDs, are unpopulated
    and bound to file inodes that count one handle; and what was there
    before keeps its table entries, its IDs and its kind, a file inode
    staying as it is. *)
Definition grown (m n : nat) (s s' : State) : Prop :=
  config (fs s') = config (fs s)
  /\ dirHandles (fs s') = dirHandles (fs s)
  /\ clock s' = clock s
  /\ length (heap s') = (length (heap s) + m)%nat
  /\ nextInodeID (fs s') = nextInodeID (fs s) + Z.of_nat m
  /\ nextHandleID (fs s') = nextHandleID (fs s) + Z.of_nat n
  /\ (forall id,
        ~ (nextInodeID (fs s) <= id < nextInodeID (fs s) + Z.of_nat m) ->
        inodes (fs s') !! id = inodes (fs s) !! id)
  /\ (forall k, (k < m)%nat ->
        inodes (fs s') !! (nextInodeID (fs s) + Z.of_nat k)
          = Some (length (heap s) + k)%nat
        /\ exists i, heap s' !! (length (heap s) + k)%nat = Some i
                     /\ Id i = nextInodeID (fs s) + Z.of_nat k)
  /\ (forall h,
        ~ (nextHandleID (fs s) <= h < nextHandleID (fs s) + Z.of_nat n) ->
        fileHandles_tbl (fs s') !! h = fileHandles_tbl (fs s) !! h)
  /\ (forall h,
        nextHandleID (fs s) <= h < nextHandleID (fs s) + Z.of_nat n ->
        exists a i,
          fileHandles_tbl (fs s') !! h = Some (mkFileHandle a true)
          /\ heap s' !! a = Some i /\ dir i = None /\ fileHandles i = 1)
  /\ (forall a i, heap s !! a = Some i -> dir i = None ->
        heap s' !! a = Some i)
  /\ (forall a i, heap s !! a = Some i ->
        exists i', heap s' !! a = Some i' /\ Id i' = Id i
                   /\ isDir i' = isDir i).

(** The filesystem [NewFusera] has built when it turns to the payload: the
    root directory alone, inode 1, and no handle. *)
Definition rooted (fl : FlagStorage) (clk : nat -> Z) : State :=
  mkState
    [mkInode RootInodeID "" None (mkAttrs 0 (clk 0%nat)) None (clk 1%nat)
             (Some (mkDir ∅ 0)) ∅ 1 0 ""]
    (mkFusera fl 82 (mkAttrs 4096 (clk 0%nat)) (RootInodeID + 1)
              (<[RootInodeID := 0%nat]> ∅) 1 ∅ ∅ 0)
    clk 2.

(** The handle side of the controller: the counter and the two tables. *)
Definition handles (f : Fusera)
  : Z * gmap Z DirHandle * gmap Z FileHandle :=
  (nextHandleID f, dirHandles f, fileHandles_tbl f).

(** Computations that leave a part [proj] of the controller as it is. *)
Definition keeps {A B} (proj : Fusera -> B) (m : M A) : Prop :=
  forall s a s', m s = Ok a s' -> proj (fs s') = proj (fs s).

(** What one request does to the handle side, the configuration being left
    alone: nothing, or one handle registered under the counter's value and
    the counter advanced, or one handle removed. *)
Definition handle_step (f f' : Fusera) : Prop :=
  config f' = config f
  /\ (handles f' = handles f
      \/ (exists dh,
            handles f' = (u64 (nextHandleID f + 1),
                          <[nextHandleID f := dh]> (dirHandles f),
                          fileHandles_tbl f))
      \/ (exists fh,
            handles f' = (u64 (nextHandleID f + 1), dirHandles f,
                          <[nextHandleID f := fh]> (fileHandles_tbl f)))
      \/ (exists h,
            handles f' = (nextHandleID f, delete h (dirHandles f),
                          fileHandles_tbl f))
      \/ (exists h,
            handles f' = (nextHandleID f, dirHandles f,
                          delete h (fileHandles_tbl f)))).

(** The handle IDs in use lie between 1 and the counter, and no ID names
    both a directory handle and a file handle. *)
Definition handles_ok (f : Fusera) : Prop :=
  (forall h, is_Some (dirHandles f !! h) \/ is_Some (fileHandles_tbl f !! h) ->
             1 <= h < nextHandleID f)
  /\ (forall h, is_Some (dirHandles f !! h) -> fileHandles_tbl f !! h = None).

(** Two requests for the examples: the root is opened, then the file with
    inode 3. *)
Definition ex_requests : list Op :=
  [OpOpenDir 1 ex_no_entries; OpOpenFile 3 None].

(** Every inode of the heap is in the inode table under its own ID, and
    the table holds nothing else. *)
Definition registered (s : State) : Prop :=
  (forall a i, heap s !! a = Some i -> inodes (fs s) !! Id i = Some a)
  /\ length (heap s) = size (inodes (fs s)).

(** ** Names across requests *)



(** A listing that answers one remote file, called like the accession
    directory of the scenario, and then ends. *)
Definition ex_shadow_listing (off : Z) : Errno + option DirHandleEntry :=
  if off =? 0
  then inr (Some (mkEntry "SRR1" 0 DT_File 1 (mkAttrs 1 1) None None))
  else inr None.



(** ** Locks and calls

    The operations once more, this time keeping what the sequential reading
    drops: every [Lock] and [Unlock] of a mutex and every call of a method
    that lives outside [sddp.go], in the order the operation makes them.
    Each operation is the one above with these events written between its
    steps; the state it leaves and the value it returns are the same. Calls
    into the logging, time, formatting and encoding libraries are not
    recorded. A panic ends the run, and its events with it. *)
Module Sync.

(** The mutexes: [fs.mu], the [mu] of the inode at an address, the [mu] of
    the directory handle registered under an ID. *)
Inductive Mutex :=
  | FsMu
  | InodeMu (a : loc)
  | DirHandleMu (h : Z).

(** The methods outside [sddp.go] that the operations call. *)
Inductive Callee :=
  | c_ResolveNames          (* nr.ResolveNames *)
  | c_BufferPool_Init       (* BufferPool{}.Init *)
  | c_NewInode              (* NewInode *)
  | c_ToDir                 (* Inode.ToDir *)
  | c_touch                 (* Inode.touch *)
  | c_getChildName          (* Inode.getChildName *)
  | c_insertChildUnlocked   (* Inode.insertChildUnlocked *)
  | c_NewFileHandle         (* NewFileHandle *)
  | c_MBuf_Init             (* MBuf{}.Init *)
  | c_GetAttributes         (* Inode.GetAttributes *)
  | c_GetXattr              (* Inode.GetXattr *)
  | c_ListXattr             (* Inode.ListXattr *)
  | c_findChildUnlockedFull (* Inode.findChildUnlockedFull *)
  | c_findChildUnlocked     (* Inode.findChildUnlocked *)
  | c_Ref                   (* Inode.Ref *)
  | c_InflateAttributes     (* Inode.InflateAttributes *)
  | c_OpenDir               (* Inode.OpenDir *)
  | c_DirHandle_ReadDir     (* DirHandle.ReadDir *)
  | c_findChildMaxTime      (* Inode.findChildMaxTime *)
  | c_CloseDir              (* DirHandle.CloseDir *)
  | c_FullName              (* Inode.FullName *)
  | c_OpenFile              (* Inode.OpenFile *)
  | c_FileHandle_ReadFile   (* FileHandle.ReadFile *)
  | c_Release.              (* FileHandle.Release *)

Inductive Event :=
  | Lock (m : Mutex)
  | Unlock (m : Mutex)
  | Call (c : Callee).

(** A computation that also logs its events. *)
Definition T (A : Type) : Type := M (A * list Event).

Definition tret {A} (a : A) : T A := ret (a, []).

Definition tbind {A B} (m : T A) (k : A -> T B) : T B :=
  fun s => match m s with
           | Ok (a, l1) s1 =>
               match k a s1 with
               | Ok (b, l2) s2 => Ok (b, l1 ++ l2) s2
               | Panic => Panic
               | OutOfFuel => OutOfFuel
               end
           | Panic => Panic
           | OutOfFuel => OutOfFuel
           end.

Definition emit (e : Event) : T unit := ret (tt, [e]).

(** A step of the operation that makes no event. *)
Definition lift {A} (m : M A) : T A :=
  fun s => match m s with
           | Ok a s' => Ok (a, []) s'
           | Panic => Panic
           | OutOfFuel => OutOfFuel
           end.

Declare Scope sync_scope.
Delimit Scope sync_scope with sync.
Notation "x <- m ;; k" := (tbind m (fun x => k))
  (at level 100, m at next level, right associativity) : sync_scope.
Notation "m ;;; k" := (tbind m (fun _ => k))
  (at level 100, right associativity) : sync_scope.
Local Open Scope sync_scope.

(** Go's [defer]: the deferred call is made when the rest of the function,
    [body], returns; calls deferred later are made earlier. *)
Definition defer {A} (e : Event) (body : T A) : T A :=
  a <- body ;; emit e ;;; tret a.

(** [Fusera.insertInode]. *)
Definition insertInode (parent inode : loc) : T unit :=
  id <- lift allocateInodeId ;;
  lift (modify inode (set_Id id)) ;;;
  emit (Call c_insertChildUnlocked) ;;;
  lift (insertChildUnlocked parent inode) ;;;
  i <- lift (load inode) ;;
  f <- lift get_fs ;;
  lift (put_fs (set_inodes (<[Id i := inode]> (inodes f)) f)).

(** [Fusera.insertInodeFromDirEntry]. *)
Definition insertInodeFromDirEntry (parent : loc) (entry : DirHandleEntry)
  : T loc :=
  emit (Lock (InodeMu parent)) ;;;
  defer (Unlock (InodeMu parent)) (
    emit (Call c_findChildUnlocked) ;;;
    found <- lift (findChildUnlocked parent (e_Name entry)
                     (is_DT_Directory (e_Type entry))) ;;
    match found with
    | None =>
        emit (Call c_getChildName) ;;;
        emit (Call c_NewInode) ;;;
        inode <- lift (NewInode (Some parent) (e_Name entry)) ;;
        (if is_DT_Directory (e_Type entry)
         then emit (Call c_ToDir) ;;; lift (ToDir inode)
         else lift (modify inode (set_Attributes (e_Attributes entry)))) ;;;
        lift (set_meta_opt inode "etag" (e_ETag entry)) ;;;
        lift (set_meta_opt inode "storage-class" (e_StorageClass entry)) ;;;
        lift (modify inode (set_refcnt 0)) ;;;
        emit (Lock FsMu) ;;;
        defer (Unlock FsMu) (
          insertInode parent inode ;;;
          tret inode)
    | Some inode =>
        emit (Lock (InodeMu inode)) ;;;
        defer (Unlock (InodeMu inode)) (
          lift (set_meta_opt inode "etag" (e_ETag entry)) ;;;
          lift (set_meta_opt inode "storage-class" (e_StorageClass entry)) ;;;
          lift (modify inode
                  (set_KnownSize (Some (Size (e_Attributes entry))))) ;;;
          lift (modify inode (fun i =>
            set_Attributes
              (set_Mtime (Mtime (e_Attributes entry)) (Attributes i)) i)) ;;;
          t <- lift now ;;
          lift (modify inode (set_AttrTime t)) ;;;
          tret inode)
    end).

Section Collaborators.

Variable Inode_GetAttributes : Inode -> Errno + FuseAttributes.
Variable Inode_InflateAttributes : Fusera -> Inode -> FuseAttributes.
Variable Inode_GetXattr : Inode -> string -> Errno + bytes.
Variable Inode_ListXattr : Inode -> list string * option Errno.

(** [Fusera.GetInodeAttributes]. *)
Definition GetInodeAttributes (id : Z) (op : GetInodeAttributesOut)
  : T (GetInodeAttributesOut * option Errno) :=
  emit (Lock FsMu) ;;;
  inode <- lift (getInodeOrDie id) ;;
  emit (Unlock FsMu) ;;;
  emit (Call c_GetAttributes) ;;;
  i <- lift (load inode) ;;
  match Inode_GetAttributes i with
  | inr attr =>
      t <- lift now ;;
      f <- lift get_fs ;;
      tret (mkGetInodeAttributesOut attr (t + StatCacheTTL (flags f)), None)
  | inl err => tret (op, Some err)
  end.

(** [Fusera.GetXattr]. *)
Definition GetXattr (id : Z) (name : string) (op : XattrOut)
  : T (XattrOut * option Errno) :=
  emit (Lock FsMu) ;;;
  inode <- lift (getInodeOrDie id) ;;
  emit (Unlock FsMu) ;;;
  emit (Call c_GetXattr) ;;;
  i <- lift (load inode) ;;
  match Inode_GetXattr i name with
  | inl err => tret (op, Some err)
  | inr value =>
      let bytesRead := Z.of_nat (length value) in
      if Z.of_nat (length (x_Dst op)) <? bytesRead
      then tret (mkXattrOut (x_Dst op) bytesRead, Some ERANGE)
      else tret (mkXattrOut (copy (x_Dst op) value) bytesRead, None)
  end.

(** [Fusera.ListXattr]. *)
Definition ListXattr (id : Z) (op : XattrOut)
  : T (XattrOut * option Errno) :=
  emit (Lock FsMu) ;;;
  inode <- lift (getInodeOrDie id) ;;
  emit (Unlock FsMu) ;;;
  emit (Call c_ListXattr) ;;;
  i <- lift (load inode) ;;
  let '(xattrs, err) := Inode_ListXattr i in
  let '(dst, bytesRead, ncopied) :=
    ListXattr_loop xattrs (x_Dst op) (x_BytesRead op) 0 in
  tret (mkXattrOut dst bytesRead,
        if Z.of_nat ncopied <? bytesRead then Some ERANGE else err).

(** [Fusera.LookUpInode]. *)
Definition LookUpInode (parentId : Z) (name : string) (op : ChildInodeEntry)
  : T (ChildInodeEntry * option Errno) :=
  emit (Lock FsMu) ;;;
  parent <- lift (getInodeOrDie parentId) ;;
  emit (Unlock FsMu) ;;;
  emit (Lock (InodeMu parent)) ;;;
  emit (Lock FsMu) ;;;
  emit (Call c_findChildUnlockedFull) ;;;
  found <- lift (findChildUnlockedFull parent name) ;;
  match found with
  | Some inode =>
      emit (Call c_Ref) ;;;
      lift (Ref inode) ;;;
      emit (Unlock FsMu) ;;;
      emit (Unlock (InodeMu parent)) ;;;
      i <- lift (load inode) ;;
      emit (Call c_InflateAttributes) ;;;
      f <- lift get_fs ;;
      t1 <- lift now ;;
      t2 <- lift now ;;
      tret (mkChildInodeEntry (Id i) (Inode_InflateAttributes f i)
              (t1 + StatCacheTTL (flags f)) (t2 + TypeCacheTTL (flags f)),
            None)
  | None =>
      emit (Unlock FsMu) ;;;
      emit (Unlock (InodeMu parent)) ;;;
      tret (op, Some ENOENT)
  end.

End Collaborators.

(** [Fusera.OpenDir]. *)
Definition OpenDir (id : Z) (listing : Z -> Errno + option DirHandleEntry)
  : T Z :=
  emit (Lock FsMu) ;;;
  f <- lift get_fs ;;
  let handleID := nextHandleID f in
  lift (put_fs (set_nextHandleID (u64 (nextHandleID f + 1)) f)) ;;;
  a <- lift (getInodeOrDie id) ;;
  emit (Unlock FsMu) ;;;
  emit (Call c_OpenDir) ;;;
  let dh := Inode_OpenDir a listing in
  emit (Lock FsMu) ;;;
  defer (Unlock FsMu) (
    f <- lift get_fs ;;
    lift (put_fs (set_dirHandles (<[handleID := dh]> (dirHandles f)) f)) ;;;
    tret handleID).

(** [Fusera.OpenFile]. *)
Definition OpenFile (id : Z) (failure : option Errno) (op : OpenFileOut)
  : T (OpenFileOut * option Errno) :=
  emit (Lock FsMu) ;;;
  a <- lift (getInodeOrDie id) ;;
  emit (Unlock FsMu) ;;;
  emit (Call c_OpenFile) ;;;
  match Inode_OpenFile a failure with
  | inl err => tret (op, Some err)
  | inr fh =>
      emit (Lock FsMu) ;;;
      defer (Unlock FsMu) (
        f <- lift get_fs ;;
        let handleID := nextHandleID f in
        lift (put_fs (set_fileHandles_tbl
                        (<[handleID := fh]> (fileHandles_tbl f))
                        (set_nextHandleID (u64 (nextHandleID f + 1)) f))) ;;;
        tret (mkOpenFileOut handleID true, None))
  end.

(** [Fusera.ReleaseDirHandle]. *)
Definition ReleaseDirHandle (handle : Z) : T unit :=
  emit (Lock FsMu) ;;;
  defer (Unlock FsMu) (
    f <- lift get_fs ;;
    match dirHandles f !! handle with
    | Some _ =>
        emit (Call c_CloseDir) ;;;
        emit (Call c_FullName) ;;;
        lift (put_fs (set_dirHandles (delete handle (dirHandles f)) f))
    | None => lift panic
    end).

(** [Fusera.ReleaseFileHandle]. *)
Definition ReleaseFileHandle (handle : Z) : T unit :=
  emit (Lock FsMu) ;;;
  defer (Unlock FsMu) (
    f <- lift get_fs ;;
    match fileHandles_tbl f !! handle with
    | Some _ =>
        emit (Call c_Release) ;;;
        emit (Call c_FullName) ;;;
        lift (put_fs (set_fileHandles_tbl
                        (delete handle (fileHandles_tbl f)) f))
    | None => lift panic
    end).

(** [Fusera.ReadFile]. *)
Definition ReadFile (handle : Z) (fetched : Z * option Errno)
  : T (Z * option Errno) :=
  emit (Lock FsMu) ;;;
  f <- lift get_fs ;;
  emit (Unlock FsMu) ;;;
  match fileHandles_tbl f !! handle with
  | Some _ =>
      emit (Call c_FileHandle_ReadFile) ;;;
      tret fetched
  | None => lift panic
  end.

(** [Fusera.SyncFile]. *)
Definition SyncFile : T (option Errno) := tret None.

(** The loop of [ReadDir]. *)
Fixpoint ReadDir_loop (fuel : nat) (dh : DirHandle) (dstLen : Z) (i : Z)
    (readFromS3 : bool) (op : ReadDirOut) : T (ReadDirOut * option Errno) :=
  match fuel with
  | O => fun _ => OutOfFuel
  | S fuel' =>
      let inode := dh_inode dh in
      emit (Call c_DirHandle_ReadDir) ;;;
      match dh_Entries dh i with
      | inl err => tret (op, Some err)
      | inr None =>
          (if readFromS3
           then
             emit (Call c_findChildMaxTime) ;;;
             lift (t <- now ;;
                   p <- load inode ;;
                   match dir p with
                   | Some d =>
                       modify inode (set_dir (Some (mkDir (Children d) t))) ;;;
                       m <- findChildMaxTime inode ;;
                       modify inode (fun x =>
                         set_Attributes (set_Mtime m (Attributes x)) x)
                   | None => panic
                   end)%fusera
           else tret tt) ;;;
          tret (op, None)
      | inr (Some e) =>
          readFromS3' <-
            (if e_Inode e =? 0
             then insertInodeFromDirEntry inode e ;;; tret true
             else tret readFromS3) ;;
          if (rd_BytesRead op <? 0) || (dstLen <? rd_BytesRead op)
          then lift panic
          else
            let n := WriteDirent (dstLen - rd_BytesRead op) (makeDirEntry e) in
            if n =? 0
            then tret (op, None)
            else ReadDir_loop fuel' dh dstLen (u64 (i + 1)) readFromS3'
                   (mkReadDirOut (rd_BytesRead op + n)
                                 (rd_Dst op ++ [makeDirEntry e]))
      end
  end.

(** [Fusera.ReadDir]. *)
Definition ReadDir (handle : Z) (offset : Z) (dstLen : Z) (op : ReadDirOut)
  : T (ReadDirOut * option Errno) :=
  emit (Lock FsMu) ;;;
  f <- lift get_fs ;;
  emit (Unlock FsMu) ;;;
  match dirHandles f !! handle with
  | None => lift panic
  | Some dh =>
      emit (Lock (DirHandleMu handle)) ;;;
      defer (Unlock (DirHandleMu handle)) (
        ReadDir_loop (S (Z.to_nat (dstLen - rd_BytesRead op))) dh dstLen
                     offset false op)
  end.

(** The body of the inner loop of [NewFusera]. A size that does not parse
    makes [NewFusera] return where it stands. *)
Definition newFile (dir : loc) (f : File) : T (option Errno) :=
  emit (Call c_getChildName) ;;;
  emit (Lock (InodeMu dir)) ;;;
  emit (Call c_NewInode) ;;;
  file <- lift (NewInode (Some dir) (f_Name f)) ;;
  lift (modify file (set_Link (f_Link f))) ;;;
  match ParseUint (f_Size f) with
  | None => tret (Some EParseSize)
  | Some u =>
      t <- lift now ;;
      lift (modify file (set_Attributes (mkAttrs u t))) ;;;
      emit (Call c_NewFileHandle) ;;;
      let fh := mkFileHandle file true in
      emit (Call c_MBuf_Init) ;;;
      lift (modify file (set_fileHandles 1)) ;;;
      emit (Call c_touch) ;;;
      lift (touch dir) ;;;
      emit (Unlock (InodeMu dir)) ;;;
      emit (Lock FsMu) ;;;
      insertInode dir file ;;;
      fsv <- lift get_fs ;;
      let hID := nextHandleID fsv in
      lift (put_fs (set_fileHandles_tbl (<[hID := fh]> (fileHandles_tbl fsv))
                      (set_nextHandleID (u64 (nextHandleID fsv + 1)) fsv))) ;;;
      emit (Unlock FsMu) ;;;
      tret None
  end.

Fixpoint newFiles (dir : loc) (files : list File) : T (option Errno) :=
  match files with
  | [] => tret None
  | f :: rest =>
      e <- newFile dir f ;;
      match e with
      | Some err => tret (Some err)
      | None => newFiles dir rest
      end
  end.

(** The body of the outer loop of [NewFusera]. *)
Definition newAccession (root : loc) (acc : Accession) : T (option Errno) :=
  emit (Call c_getChildName) ;;;
  emit (Lock (InodeMu root)) ;;;
  emit (Call c_NewInode) ;;;
  d <- lift (NewInode (Some root) (acc_ID acc)) ;;
  emit (Call c_ToDir) ;;;
  lift (ToDir d) ;;;
  emit (Call c_touch) ;;;
  lift (touch d) ;;;
  emit (Unlock (InodeMu root)) ;;;
  emit (Lock FsMu) ;;;
  insertInode root d ;;;
  emit (Unlock FsMu) ;;;
  newFiles d (Files acc).

Fixpoint newAccessions (root : loc) (payload : list Accession)
  : T (option Errno) :=
  match payload with
  | [] => tret None
  | acc :: rest =>
      e <- newAccession root acc ;;
      match e with
      | Some err => tret (Some err)
      | None => newAccessions root rest
      end
  end.

(** [NewFusera] after the name resolver has answered. *)
Definition NewFusera_build (payload : list Accession) : T (option Errno) :=
  f <- lift get_fs ;;
  lift (put_fs (mkFusera (flags f) 82 (rootAttrs f) (nextInodeID f) (inodes f)
                  (nextHandleID f) (dirHandles f) (fileHandles_tbl f)
                  (forgotCnt f))) ;;;
  t <- lift now ;;
  f <- lift get_fs ;;
  lift (put_fs (set_rootAttrs (mkAttrs 4096 t) f)) ;;;
  emit (Call c_BufferPool_Init) ;;;
  f <- lift get_fs ;;
  lift (put_fs (set_inodes ∅ (set_nextInodeID (RootInodeID + 1) f))) ;;;
  emit (Call c_NewInode) ;;;
  root <- lift (NewInode None "") ;;
  lift (modify root (set_Id RootInodeID)) ;;;
  emit (Call c_ToDir) ;;;
  lift (ToDir root) ;;;
  f <- lift get_fs ;;
  lift (modify root (fun x =>
    set_Attributes (set_Mtime (Mtime (rootAttrs f)) (Attributes x)) x)) ;;;
  lift (put_fs (set_inodes (<[RootInodeID := root]> (inodes f)) f)) ;;;
  f <- lift get_fs ;;
  lift (put_fs (set_fileHandles_tbl ∅
                  (set_dirHandles ∅ (set_nextHandleID 1 f)))) ;;;
  newAccessions root payload.

(** [NewFusera]. *)
Definition NewFusera (fl : FlagStorage) (resolved : Errno + list Accession)
    (clk : nat -> Z) : Res (option Errno * list Event) :=
  match resolved with
  | inl err =>
      (emit (Call c_ResolveNames) ;;; tret (Some err)) (blank fl clk)
  | inr payload =>
      (emit (Call c_ResolveNames) ;;; NewFusera_build payload) (blank fl clk)
  end.

Section Requests.

Variable getattr : Inode -> Errno + FuseAttributes.
Variable inflate : Fusera -> Inode -> FuseAttributes.
Variable getxattr : Inode -> string -> Errno + bytes.
Variable listxattr : Inode -> list string * option Errno.

(** One request served on the state. *)
Definition exec (op : Op) : T unit :=
  match op with
  | OpStatFS => tret tt
  | OpGetInodeAttributes id =>
      GetInodeAttributes getattr id
        (mkGetInodeAttributesOut (mkFuseAttributes 0 0 0 0 0 0) 0) ;;; tret tt
  | OpGetXattr id name dst =>
      GetXattr getxattr id name (mkXattrOut dst 0) ;;; tret tt
  | OpListXattr id dst =>
      ListXattr listxattr id (mkXattrOut dst 0) ;;; tret tt
  | OpLookUpInode parent name =>
      LookUpInode inflate parent name
        (mkChildInodeEntry 0 (mkFuseAttributes 0 0 0 0 0 0) 0 0) ;;; tret tt
  | OpOpenDir id listing => OpenDir id listing ;;; tret tt
  | OpReadDir handle offset dstLen =>
      ReadDir handle offset dstLen (mkReadDirOut 0 []) ;;; tret tt
  | OpReleaseDirHandle handle => ReleaseDirHandle handle
  | OpOpenFile id failure =>
      OpenFile id failure (mkOpenFileOut 0 false) ;;; tret tt
  | OpReadFile handle fetched => ReadFile handle fetched ;;; tret tt
  | OpSyncFile => SyncFile ;;; tret tt
  | OpReleaseFileHandle handle => ReleaseFileHandle handle
  end.

End Requests.

(** *** The locking discipline *)

Definition Mutex_eqb (m1 m2 : Mutex) : bool :=
  match m1, m2 with
  | FsMu, FsMu => true
  | InodeMu a, InodeMu b => (a =? b)%nat
  | DirHandleMu a, DirHandleMu b => a =? b
  | _, _ => false
  end.

(** Whether the table lock is among the locks held. *)
Definition holds_table (held : list Mutex) : bool :=
  existsb (Mutex_eqb FsMu) held.

(** The locks held once [m] is released; [None] when it is not held. *)
Fixpoint release (m : Mutex) (held : list Mutex) : option (list Mutex) :=
  match held with
  | [] => None
  | x :: r =>
      if Mutex_eqb m x then Some r
      else match release m r with
           | Some r' => Some (x :: r')
           | None => None
           end
  end.

(** One event under the ordering rule, [blocking] telling which calls may
    block: an inode lock or a directory-handle lock is not taken while the
    table lock is held, a call that may block is not made while the table
    lock is held, and only a lock that is held is released. The result is
    the locks held afterwards, or [None] when the event breaks the rule. *)
Definition step (blocking : Callee -> bool) (held : list Mutex) (e : Event)
  : option (list Mutex) :=
  match e with
  | Lock FsMu => Some (FsMu :: held)
  | Lock m => if holds_table held then None else Some (m :: held)
  | Unlock m => release m held
  | Call c => if blocking c && holds_table held then None else Some held
  end.

(** A sequence of events under the rule, from the locks held before it. *)
Fixpoint run (blocking : Callee -> bool) (held : list Mutex)
    (l : list Event) : option (list Mutex) :=
  match l with
  | [] => Some held
  | e :: r =>
      match step blocking held e with
      | Some held' => run blocking held' r
      | None => None
      end
  end.

(** Modelled from the spec: the calls that may block are the remote ones,
    the listing call and the byte-range fetch; the name resolver that
    [NewFusera] asks is remote as well. *)
Definition remote_call (c : Callee) : bool :=
  match c with
  | c_ResolveNames | c_DirHandle_ReadDir | c_FileHandle_ReadFile => true
  | _ => false
  end.

(** The methods [sddp.go] calls while it holds the table lock. *)
Definition table_callee (c : Callee) : bool :=
  match c with
  | c_insertChildUnlocked | c_findChildUnlockedFull | c_Ref
  | c_CloseDir | c_FullName | c_Release => true
  | _ => false
  end.

End Sync.

(** * Properties *)

(** ** Running the primitives *)

Lemma bind_Ok {A B} (m : M A) (k : A -> M B) s a s' :
  m s = Ok a s' -> bind m k s = k a s'.
Proof. intros H. unfold bind. by rewrite H. Qed.

Lemma load_run a s i : heap s !! a = Some i -> load a s = Ok i s.
Proof. intros H. unfold load. by rewrite H. Qed.

Lemma modify_run a f s i :
  heap s !! a = Some i ->
  modify a f s =
    Ok tt (mkState (<[a := f i]> (heap s)) (fs s) (clock s) (ticks s)).
Proof. intros H. unfold modify. by rewrite H. Qed.

Lemma heap_insert_lookup (h : list Inode) a x i :
  h !! a = Some i -> <[a := x]> h !! a = Some x.
Proof. intros H. apply list_lookup_insert_eq. by eapply lookup_lt_Some. Qed.

Lemma heap_app_lookup (h : list Inode) x : (h ++ [x]) !! length h = Some x.
Proof. by rewrite lookup_app_r, Nat.sub_diag. Qed.

Lemma heap_app_lookup_old (h : list Inode) x a i :
  h !! a = Some i -> (h ++ [x]) !! a = Some i.
Proof. intros H. rewrite lookup_app_l; [done | by eapply lookup_lt_Some]. Qed.

Lemma state_eta s : mkState (heap s) (fs s) (clock s) (ticks s) = s.
Proof. by destruct s. Qed.

(** Resolves a lookup in a heap built by updates and one allocation. *)
Ltac heap_lookup :=
  simpl;
  repeat first
    [ eassumption
    | reflexivity
    | apply heap_app_lookup
    | eapply heap_insert_lookup
    | rewrite list_lookup_insert_ne by (simpl; lia)
    | eapply heap_app_lookup_old ].

(** Unfolds the plumbing of the monad. *)
Tactic Notation "msimpl" :=
  cbn [bind ret now get_fs put_fs alloc panic
       heap fs clock ticks set_heap set_fs].
Tactic Notation "msimpl" "in" hyp(H) :=
  cbn [bind ret now get_fs put_fs alloc panic
       heap fs clock ticks set_heap set_fs] in H.

(** Runs the next heap access of a computation applied to a state. *)
Ltac mstep :=
  first [ erewrite modify_run by heap_lookup
        | erewrite load_run by heap_lookup ];
  msimpl.

(** Case analysis on the outcome of the first computation of a run that is
    known to return. *)
Ltac case_run H :=
  match type of H with
  | match ?x with Ok _ _ => _ | Panic => _ | OutOfFuel => _ end = _ =>
      destruct x as [? ?| |] eqn:?; try discriminate H
  end.

Lemma set_meta_opt_run a key v s i :
  heap s !! a = Some i ->
  set_meta_opt a key v s =
    Ok tt (mkState
      (<[a := match v with
              | Some t =>
                  set_s3Metadata
                    (<[key := list_byte_of_string t]> (s3Metadata i)) i
              | None => i
              end]> (heap s)) (fs s) (clock s) (ticks s)).
Proof.
  intros H. destruct v; simpl.
  - by rewrite (modify_run _ _ _ _ H).
  - by rewrite list_insert_id, state_eta.
Qed.

(** ** Materialization of a listing entry *)

(** The child already exists: the run of [insertInodeFromDirEntry]. *)
Lemma insertInodeFromDirEntry_existing s parent entry p d c ci :
  heap s !! parent = Some p -> dir p = Some d ->
  Children d !! (e_Name entry, is_DT_Directory (e_Type entry)) = Some c ->
  heap s !! c = Some ci ->
  exists ci',
    insertInodeFromDirEntry parent entry s
      = Ok c (mkState (<[c := ci']> (heap s)) (fs s) (clock s) (S (ticks s)))
    /\ (Id ci' = Id ci /\ Name ci' = Name ci /\ Parent ci' = Parent ci
        /\ dir ci' = dir ci /\ refcnt ci' = refcnt ci
        /\ fileHandles ci' = fileHandles ci /\ Link ci' = Link ci)
    /\ s3Metadata ci' =
         match e_StorageClass entry with
         | Some t => <["storage-class"%string := list_byte_of_string t]>
         | None => id
         end
           (match e_ETag entry with
            | Some t => <["etag"%string := list_byte_of_string t]>
            | None => id
            end (s3Metadata ci))
    /\ KnownSize ci' = Some (Size (e_Attributes entry))
    /\ Attributes ci' =
         mkAttrs (Size (Attributes ci)) (Mtime (e_Attributes entry))
    /\ AttrTime ci' = clock s (ticks s).
Proof.
  intros Hp Hd Hc Hci.
  unfold insertInodeFromDirEntry, findChildUnlocked. msimpl.
  mstep. rewrite Hd. msimpl. rewrite Hc. msimpl.
  rewrite (set_meta_opt_run _ _ _ _ _ Hci). msimpl.
  erewrite set_meta_opt_run by heap_lookup. msimpl.
  do 3 mstep. rewrite !list_insert_insert_eq.
  eexists. split; [reflexivity|].
  by destruct (e_ETag entry), (e_StorageClass entry).
Qed.

(** The run of [insertInode] on a directory and an object not yet in it. *)
Lemma insertInode_run s parent inode p d c :
  heap s !! parent = Some p -> dir p = Some d ->
  heap s !! inode = Some c -> parent <> inode ->
  insertInode parent inode s =
    Ok tt (mkState
      (<[parent := set_dir (Some (mkDir
                    (<[(Name c, isDir c) := inode]> (Children d)) (DirTime d))) p]>
         (<[inode := set_Id (nextInodeID (fs s)) c]> (heap s)))
      (set_inodes (<[nextInodeID (fs s) := inode]> (inodes (fs s)))
         (set_nextInodeID (u64 (nextInodeID (fs s) + 1)) (fs s)))
      (clock s) (ticks s)).
Proof.
  intros Hp Hd Hc Hne.
  unfold insertInode, allocateInodeId, insertChildUnlocked. msimpl.
  do 3 mstep. rewrite Hd. msimpl. do 2 mstep. reflexivity.
Qed.

(** No child of that name and kind: the run of [insertInodeFromDirEntry]. *)
Lemma insertInodeFromDirEntry_new s parent entry p d :
  heap s !! parent = Some p -> dir p = Some d ->
  Children d !! (e_Name entry, is_DT_Directory (e_Type entry)) = None ->
  exists ni,
    insertInodeFromDirEntry parent entry s =
      Ok (length (heap s)) (mkState
        (<[parent := set_dir (Some (mkDir
             (<[(e_Name entry, is_DT_Directory (e_Type entry)) := length (heap s)]>
                (Children d)) (DirTime d))) p]> (heap s ++ [ni]))
        (set_inodes (<[nextInodeID (fs s) := length (heap s)]> (inodes (fs s)))
           (set_nextInodeID (u64 (nextInodeID (fs s) + 1)) (fs s)))
        (clock s) (S (ticks s)))
    /\ Id ni = nextInodeID (fs s) /\ Name ni = e_Name entry
    /\ Parent ni = Some parent /\ refcnt ni = 0
    /\ dir ni = (if is_DT_Directory (e_Type entry)
                 then Some (mkDir ∅ 0) else None)
    /\ (is_DT_Directory (e_Type entry) = false ->
        Attributes ni = e_Attributes entry)
    /\ s3Metadata ni =
         match e_StorageClass entry with
         | Some t => <["storage-class"%string := list_byte_of_string t]>
         | None => id
         end
           (match e_ETag entry with
            | Some t => <["etag"%string := list_byte_of_string t]>
            | None => id
            end ∅)
    /\ AttrTime ni = clock s (ticks s).
Proof.
  intros Hp Hd Hc.
  assert (Hlt : (parent < length (heap s))%nat) by (by eapply lookup_lt_Some).
  unfold insertInodeFromDirEntry, findChildUnlocked. msimpl.
  mstep. rewrite Hd. msimpl. rewrite Hc. unfold NewInode. msimpl.
  destruct (is_DT_Directory (e_Type entry)) eqn:Hk,
    (e_ETag entry) as [tag|], (e_StorageClass entry) as [cls|];
    [unfold ToDir..| | | |]; mstep;
    (erewrite set_meta_opt_run by heap_lookup); msimpl;
    (erewrite set_meta_opt_run by heap_lookup); msimpl;
    mstep;
    (erewrite insertInode_run; [| heap_lookup | exact Hd | heap_lookup | lia]);
    msimpl; rewrite !list_insert_insert_eq;
    rewrite insert_app_r_alt, Nat.sub_diag by lia; simpl;
    (eexists; split; [reflexivity|]); done.
Qed.

(** Splits on the bounds check of the slice [op.Dst[op.BytesRead:]] in a run
    that returned. *)
Ltac in_bounds H Hb :=
  match type of H with
  | context [(?b <? 0) || (?d <? ?b)] =>
      destruct ((b <? 0) || (d <? b)) eqn:Hb; [discriminate H|]
  end.


(** C1 (as amended). [insertInodeFromDirEntry] on a parent directory and a
    listing entry. If the parent has a child with the entry's (name, kind):
    no inode is allocated (heap and inode table keep their size and content
    but for that child), the child's refcount is unchanged, its content tag
    and storage class are the entry's when the entry carries them and are
    kept otherwise, its known size and its mtime are the entry's while its
    attribute size is left as it was, and its attribute-refresh timestamp is
    the current time. If there is no such child: a new inode of the entry's
    kind is allocated, with the entry's attributes when the entry is not a
    directory, with the entry's tag and storage class, refcount zero and the
    next inode ID, and it is registered in the parent's child map and in the
    inode table. *)
Theorem insertInodeFromDirEntry_materializes s parent entry p d :
  heap s !! parent = Some p -> dir p = Some d ->
  (forall c ci,
      Children d !! (e_Name entry, is_DT_Directory (e_Type entry)) = Some c ->
      heap s !! c = Some ci ->
      exists s' ci',
        insertInodeFromDirEntry parent entry s = Ok c s'
        /\ length (heap s') = length (heap s)
        /\ fs s' = fs s
        /\ heap s' !! c = Some ci'
        /\ refcnt ci' = refcnt ci
        /\ s3Metadata ci' !! "etag"%string
           = meta_after (e_ETag entry) (s3Metadata ci !! "etag"%string)
        /\ s3Metadata ci' !! "storage-class"%string
           = meta_after (e_StorageClass entry)
               (s3Metadata ci !! "storage-class"%string)
        /\ KnownSize ci' = Some (Size (e_Attributes entry))
        /\ Mtime (Attributes ci') = Mtime (e_Attributes entry)
        /\ Size (Attributes ci') = Size (Attributes ci)
        /\ AttrTime ci' = clock s (ticks s))
  /\ (Children d !! (e_Name entry, is_DT_Directory (e_Type entry)) = None ->
      exists s' ni p' d',
        insertInodeFromDirEntry parent entry s = Ok (length (heap s)) s'
        /\ heap s' !! length (heap s) = Some ni
        /\ isDir ni = is_DT_Directory (e_Type entry)
        /\ (is_DT_Directory (e_Type entry) = false ->
            Attributes ni = e_Attributes entry)
        /\ s3Metadata ni !! "etag"%string = meta_after (e_ETag entry) None
        /\ s3Metadata ni !! "storage-class"%string
           = meta_after (e_StorageClass entry) None
        /\ refcnt ni = 0
        /\ Id ni = nextInodeID (fs s)
        /\ inodes (fs s') = <[Id ni := length (heap s)]> (inodes (fs s))
        /\ heap s' !! parent = Some p' /\ dir p' = Some d'
        /\ Children d' =
             <[(e_Name entry, is_DT_Directory (e_Type entry)) := length (heap s)]>
               (Children d)).
Proof.
  intros Hp Hd. split.
  - intros c ci Hc Hci.
    destruct (insertInodeFromDirEntry_existing _ _ _ _ _ _ _ Hp Hd Hc Hci)
      as (ci' & Hrun & (_ & _ & _ & _ & Hr & _) & Hm & Hk & Ha & Ht).
    eexists _, ci'. split; [exact Hrun|]. simpl.
    rewrite length_insert, Hm, Hk, Ha, Ht, Hr.
    repeat split; try done.
    + by eapply heap_insert_lookup.
    + destruct (e_ETag entry), (e_StorageClass entry); simpl;
        by rewrite ?lookup_insert_ne, ?lookup_insert_eq by done.
    + destruct (e_ETag entry), (e_StorageClass entry); simpl;
        by rewrite ?lookup_insert_eq, ?lookup_insert_ne by done.
  - intros Hc.
    assert (Hlt : (parent < length (heap s))%nat) by (by eapply lookup_lt_Some).
    destruct (insertInodeFromDirEntry_new _ _ _ _ _ Hp Hd Hc)
      as (ni & Hrun & Hid & _ & _ & Hr & Hdir & Ha & Hm & _).
    eexists _, ni,
      (set_dir (Some (mkDir
         (<[(e_Name entry, is_DT_Directory (e_Type entry)) := length (heap s)]>
            (Children d)) (DirTime d))) p), _.
    split; [exact Hrun|]. simpl.
    rewrite Hm, Hid, Hr.
    repeat split; try done.
    + rewrite list_lookup_insert_ne by lia. apply heap_app_lookup.
    + unfold isDir. rewrite Hdir. by destruct (is_DT_Directory _).
    + destruct (e_ETag entry), (e_StorageClass entry); simpl;
        by rewrite ?lookup_insert_ne, ?lookup_insert_eq by done.
    + destruct (e_ETag entry), (e_StorageClass entry); simpl;
        by rewrite ?lookup_insert_eq, ?lookup_insert_ne by done.
    + eapply heap_insert_lookup, heap_app_lookup_old, Hp.
Qed.

(** The theorem at the example: the entry for the existing file [f] is
    merged into inode 2, the entry for the unknown file [g] is materialized
    at a fresh address. *)
Lemma insertInodeFromDirEntry_materializes_witness :
  (heap ex_state !! 0%nat = Some ex_root /\ dir ex_root = Some ex_dirdata)
  /\ (exists s' ci',
        insertInodeFromDirEntry 0%nat ex_entry ex_state = Ok 1%nat s'
        /\ heap s' !! 1%nat = Some ci'
        /\ refcnt ci' = 1 /\ KnownSize ci' = Some 7
        /\ Attributes ci' = mkAttrs 3 9 /\ AttrTime ci' = 100)
  /\ (exists s' ni,
        insertInodeFromDirEntry 0%nat ex_new_entry ex_state = Ok 2%nat s'
        /\ heap s' !! 2%nat = Some ni
        /\ Attributes ni = mkAttrs 11 13 /\ refcnt ni = 0 /\ Id ni = 3).
Proof.
  pose proof (insertInodeFromDirEntry_materializes ex_state 0%nat ex_entry
                ex_root ex_dirdata eq_refl eq_refl) as [Hold _].
  pose proof (insertInodeFromDirEntry_materializes ex_state 0%nat ex_new_entry
                ex_root ex_dirdata eq_refl eq_refl) as [_ Hnew].
  split; [done|]. split.
  - destruct (Hold 1%nat ex_file eq_refl eq_refl)
      as (s' & ci' & Hrun & _ & _ & Hl & Hr & _ & _ & Hk & Hm & Hs & Ht).
    exists s', ci'. repeat split; try done.
    destruct ci' as [? ? ? [sz mt] ? ? ? ? ? ? ?]. simpl in *. by subst.
  - destruct (Hnew eq_refl)
      as (s' & ni & p' & d' & Hrun & Hl & _ & Ha & _ & _ & Hr & Hid & _).
    exists s', ni. repeat split; try done. by apply Ha.
Defined.

(** C1 as the specification words it does not hold. At the example, merging
    the entry for [f] (size 7, no tag) leaves the child's attribute size at 3
    and its content tag at [old]; and the inode made for the directory entry
    [d] (attributes 7 and 9) does not carry the entry's attributes. *)
Lemma insertInodeFromDirEntry_not_as_specified :
  match insertInodeFromDirEntry 0%nat ex_entry ex_state with
  | Ok c s' =>
      (Size <$> (Attributes <$> heap s' !! c)) = Some 3
      /\ Size (e_Attributes ex_entry) = 7
      /\ ((fun i => s3Metadata i !! "etag"%string) <$> heap s' !! c)
         = Some (Some (list_byte_of_string "old"))
      /\ e_ETag ex_entry = None
  | _ => False
  end
  /\ match insertInodeFromDirEntry 0%nat ex_dir_entry ex_state with
     | Ok c s' =>
         (Attributes <$> heap s' !! c) = Some (mkAttrs 0 0)
         /\ e_Attributes ex_dir_entry = mkAttrs 7 9
     | _ => False
     end.
Proof. vm_compute. repeat split. Qed.

(** ** Lookup by name *)

Lemma findChildUnlockedFull_run s parent name p d :
  heap s !! parent = Some p -> dir p = Some d ->
  findChildUnlockedFull parent name s = Ok (child_named d name) s.
Proof.
  intros Hp Hd. unfold findChildUnlockedFull, findChildUnlocked, child_named.
  msimpl. mstep. rewrite Hd. msimpl.
  destruct (Children d !! (name, false)); msimpl; [done|].
  mstep. by rewrite Hd.
Qed.

Section LookUp.

Variable inflate : Fusera -> Inode -> FuseAttributes.

(** A successful lookup: the run of [LookUpInode]. *)
Lemma LookUpInode_hit s parentId name op parent p d c ci :
  inodes (fs s) !! parentId = Some parent ->
  heap s !! parent = Some p -> dir p = Some d ->
  child_named d name = Some c -> heap s !! c = Some ci ->
  LookUpInode inflate parentId name op s =
    Ok (mkChildInodeEntry (Id ci)
          (inflate (fs s) (set_refcnt (refcnt ci + 1) ci))
          (clock s (ticks s) + StatCacheTTL (flags (fs s)))
          (clock s (S (ticks s)) + TypeCacheTTL (flags (fs s))),
        None)
       (mkState (<[c := set_refcnt (refcnt ci + 1) ci]> (heap s)) (fs s)
                (clock s) (S (S (ticks s)))).
Proof.
  intros Hid Hp Hd Hc Hci. unfold LookUpInode, getInodeOrDie, Ref. msimpl.
  rewrite Hid. msimpl.
  rewrite (findChildUnlockedFull_run _ _ _ _ _ Hp Hd), Hc. msimpl.
  by do 2 mstep.
Qed.



End LookUp.


(** ** Attributes *)

Section GetAttributes.

Variable getattr : Inode -> Errno + FuseAttributes.

(** C5 (as amended). [GetInodeAttributes]: when the inode ID is in the table
    and the inode's own attribute getter answers, the call returns that
    snapshot with the expiration now + StatCacheTTL; when the getter fails
    the call returns its error and leaves [op] alone; when the ID is not in
    the table the call does not return at all: [getInodeOrDie] panics. *)
Theorem GetInodeAttributes_spec s id op :
  (forall a i,
      inodes (fs s) !! id = Some a -> heap s !! a = Some i ->
      match getattr i with
      | inr attr =>
          GetInodeAttributes getattr id op s =
            Ok (mkGetInodeAttributesOut attr
                  (clock s (ticks s) + StatCacheTTL (flags (fs s))), None)
               (mkState (heap s) (fs s) (clock s) (S (ticks s)))
      | inl err =>
          GetInodeAttributes getattr id op s = Ok (op, Some err) s
      end)
  /\ (inodes (fs s) !! id = None ->
      GetInodeAttributes getattr id op s = Panic).
Proof.
  split.
  - intros a i Hid Hi. unfold GetInodeAttributes, getInodeOrDie. msimpl.
    rewrite Hid. msimpl. mstep. by destruct (getattr i).
  - intros Hid. unfold GetInodeAttributes, getInodeOrDie. msimpl.
    by rewrite Hid.
Qed.

End GetAttributes.

(** The theorem at the example: the attributes of inode 2, expiring at
    100 + 60. *)
Lemma GetInodeAttributes_spec_witness :
  GetInodeAttributes ex_getattr 2
      (mkGetInodeAttributesOut (mkFuseAttributes 0 0 0 0 0 0) 0) ex_state
    = Ok (mkGetInodeAttributesOut (mkFuseAttributes 3 1 420 5 0 0) 160, None)
         (mkState (heap ex_state) (fs ex_state) ex_clock 1).
Proof.
  exact (proj1 (GetInodeAttributes_spec ex_getattr ex_state 2
                  (mkGetInodeAttributesOut (mkFuseAttributes 0 0 0 0 0 0) 0))
               1%nat ex_file eq_refl eq_refl).
Defined.

(** C5 as the specification words it does not hold: for an ID that is not
    in the table the call panics, it does not fail with NotFound. *)
Lemma GetInodeAttributes_unknown_id_panics :
  inodes (fs ex_state) !! 99 = None
  /\ GetInodeAttributes ex_getattr 99
       (mkGetInodeAttributesOut (mkFuseAttributes 0 0 0 0 0 0) 0) ex_state
     = Panic.
Proof. split; reflexivity. Qed.

(** ** Extended attributes *)

Lemma length_list_byte_of_string (s : string) :
  length (list_byte_of_string s) = String.length s.
Proof.
  unfold list_byte_of_string. rewrite length_map.
  induction s as [|c s IH]; simpl; [done | by rewrite IH].
Qed.

Lemma length_xattrs_bytes xattrs :
  length (xattrs_bytes xattrs) = xattrs_size xattrs.
Proof.
  unfold xattrs_bytes, xattrs_size.
  induction xattrs as [|n r IH]; [done|].
  rewrite !fmap_cons. simpl.
  rewrite !length_app, length_list_byte_of_string, IH. simpl. lia.
Qed.

Lemma wrap_int_small z : - 2 ^ 63 <= z <= MaxInt -> wrap_int z = z.
Proof.
  unfold wrap_int, MaxInt, two64. intros Hz.
  rewrite Z.mod_small by lia. lia.
Qed.

Lemma xattrs_size_cons name r :
  xattrs_size (name :: r) = (S (String.length name) + xattrs_size r)%nat.
Proof. done. Qed.

(** The loop never copies past the end of the destination and keeps the
    destination's length. *)
Lemma ListXattr_loop_count xattrs : forall dst b n,
  (n <= length dst)%nat ->
  let '(dst', b', n') := ListXattr_loop xattrs dst b n in
  (n <= n' <= length dst)%nat /\ length dst' = length dst.
Proof.
  induction xattrs as [|name r IH]; intros dst b n Hn; cbn [ListXattr_loop].
  { split; [lia | done]. }
  rewrite length_drop.
  destruct (S (String.length name) <=? length dst - n)%nat eqn:Hfit.
  - apply Nat.leb_le in Hfit.
    match goal with |- context [ListXattr_loop r ?d ?x ?y] =>
      assert (Hlen : length d = length dst);
      [| specialize (IH d x y);
         destruct (ListXattr_loop r d x y) as [[dst' b'] n'] ]
    end.
    { unfold copy. rewrite length_app, length_insert, length_app, !length_take,
        !length_drop, length_list_byte_of_string. lia. }
    rewrite Hlen in IH. destruct IH as (Hn' & Hl); [lia|].
    split; lia.
  - apply Nat.leb_gt in Hfit.
    match goal with |- context [ListXattr_loop r dst ?x n] =>
      specialize (IH dst x n Hn);
      destruct (ListXattr_loop r dst x n) as [[dst' b'] n']
    end.
    destruct IH as (Hn' & Hl). split; lia.
Qed.

(** The loop counts every name, copied or not; the count is the sum as long
    as it stays within Go's [int]. *)
Lemma ListXattr_loop_bytesRead xattrs : forall dst b n,
  - 2 ^ 63 <= b -> b + Z.of_nat (xattrs_size xattrs) <= MaxInt ->
  (ListXattr_loop xattrs dst b n).1.2 = b + Z.of_nat (xattrs_size xattrs).
Proof.
  induction xattrs as [|name r IH]; intros dst b n Hlo Hhi;
    cbn [ListXattr_loop].
  { unfold xattrs_size. simpl. lia. }
  rewrite xattrs_size_cons in *.
  rewrite wrap_int_small by lia.
  destruct (S (String.length name) <=? length (drop n dst))%nat;
    rewrite IH by lia; lia.
Qed.

Lemma xattrs_size_fitting xattrs : forall room,
  (xattrs_size (fitting xattrs room) <= room)%nat.
Proof.
  induction xattrs as [|name r IH]; intros room; cbn [fitting];
    [unfold xattrs_size; simpl; lia|].
  destruct (S (String.length name) <=? room)%nat eqn:Hfit; [|apply IH].
  apply Nat.leb_le in Hfit. rewrite xattrs_size_cons.
  specialize (IH (room - S (String.length name))%nat). lia.
Qed.

Lemma fitting_all xattrs : forall room,
  (xattrs_size xattrs <= room)%nat -> fitting xattrs room = xattrs.
Proof.
  induction xattrs as [|name r IH]; intros room Hfit; cbn [fitting]; [done|].
  rewrite xattrs_size_cons in Hfit.
  destruct (S (String.length name) <=? room)%nat eqn:Hle;
    [|apply Nat.leb_gt in Hle; lia].
  f_equal. apply IH. lia.
Qed.


(** One name that fits is laid out after what was copied before it. *)
Lemma ListXattr_copy_one (dst : bytes) n name :
  (n + S (String.length name) <= length dst)%nat ->
  take n dst
    ++ <[(S (String.length name) - 1)%nat := Byte.x00]>
         (copy (drop n dst) (list_byte_of_string name))
  = (take n dst ++ list_byte_of_string name ++ [Byte.x00])
      ++ drop (n + S (String.length name)) dst.
Proof.
  intros Hfit. rewrite <- !app_assoc. f_equal. unfold copy.
  rewrite length_drop, length_list_byte_of_string.
  rewrite take_ge by (rewrite length_list_byte_of_string; lia).
  rewrite drop_drop.
  replace (S (String.length name) - 1)%nat
    with (length (list_byte_of_string name) + 0)%nat
    by (rewrite length_list_byte_of_string; lia).
  rewrite insert_app_r.
  destruct (drop (n + String.length name) dst) as [|x rest] eqn:Hd.
  { apply (f_equal length) in Hd. rewrite length_drop in Hd. simpl in Hd. lia. }
  replace (n + S (String.length name))%nat
    with ((n + String.length name) + 1)%nat by lia.
  by rewrite <- drop_drop, Hd.
Qed.

(** What the loop leaves in the destination: after what was copied before,
    the names that find room, in order, each with its terminator; the rest
    of the destination is as it was. *)
Lemma ListXattr_loop_run xattrs : forall dst b n,
  (n <= length dst)%nat ->
  let copied := fitting xattrs (length dst - n) in
  let '(dst', _, n') := ListXattr_loop xattrs dst b n in
  dst' = take n dst ++ xattrs_bytes copied
           ++ drop (n + xattrs_size copied) dst
  /\ n' = (n + xattrs_size copied)%nat.
Proof.
  induction xattrs as [|name r IH]; intros dst b n Hn; cbv zeta.
  { cbn [ListXattr_loop fitting]. unfold xattrs_size, xattrs_bytes. simpl.
    by rewrite Nat.add_0_r, take_drop. }
  cbn [ListXattr_loop fitting]. rewrite length_drop.
  destruct (S (String.length name) <=? length dst - n)%nat eqn:Hle.
  - apply Nat.leb_le in Hle.
    rewrite ListXattr_copy_one by lia.
    set (pre := take n dst ++ list_byte_of_string name ++ [Byte.x00]).
    set (post := drop (n + S (String.length name)) dst).
    assert (Hpre : length pre = (n + S (String.length name))%nat).
    { unfold pre. rewrite !length_app, length_take, length_list_byte_of_string.
      simpl. lia. }
    assert (Hpost : length post = (length dst - (n + S (String.length name)))%nat).
    { unfold post. by rewrite length_drop. }
    specialize (IH (pre ++ post) (wrap_int (b + Z.of_nat (S (String.length name))))
                   (n + S (String.length name))%nat).
    cbv zeta in IH.
    destruct (ListXattr_loop r (pre ++ post) _ _) as [[dst' b'] n'].
    rewrite length_app, Hpre, Hpost in IH.
    replace (n + S (String.length name)
             + (length dst - (n + S (String.length name)))
             - (n + S (String.length name)))%nat
      with (length dst - n - S (String.length name))%nat in IH by lia.
    destruct IH as [-> ->]; [lia|].
    rewrite xattrs_size_cons. split; [|lia].
    rewrite <- Hpre at 1. rewrite take_app_length.
    rewrite <- Hpre at 1. rewrite drop_app_add. unfold post.
    rewrite drop_drop.
    unfold pre, xattrs_bytes. rewrite fmap_cons. simpl concat.
    rewrite <- !app_assoc. by rewrite Nat.add_assoc.
  - specialize (IH dst (wrap_int (b + Z.of_nat (S (String.length name)))) n Hn).
    cbv zeta in IH.
    by destruct (ListXattr_loop r dst _ n) as [[dst' b'] n'].
Qed.

Section Xattr.

Variable getxattr : Inode -> string -> Errno + bytes.
Variable listxattr : Inode -> list string * option Errno.

(** C4 (as amended). For a known inode. [GetXattr] with a destination
    smaller than the value fails with ERANGE, reports the size of the value
    in [BytesRead] and leaves the destination as it was; with a destination
    that is large enough it copies the whole value. [ListXattr], called with
    [BytesRead] zero (the names taking no more than a Go [int] counts),
    reports in [BytesRead] the size of all names with their terminators and
    leaves in the destination, from its start, every name that found room
    when the loop reached it ([fitting]), each with its terminator, the
    rest of the destination being as it was; it fails with ERANGE exactly
    when the destination is smaller than all names take, and by then the
    names that found room have been copied. With a destination that is
    large enough these are all the names, in order. *)
Theorem xattr_destination_size s id a i :
  inodes (fs s) !! id = Some a -> heap s !! a = Some i ->
  (forall name value op,
      getxattr i name = inr value ->
      GetXattr getxattr id name op s =
        if (length (x_Dst op) <? length value)%nat
        then Ok (mkXattrOut (x_Dst op) (Z.of_nat (length value)), Some ERANGE) s
        else Ok (mkXattrOut (value ++ drop (length value) (x_Dst op))
                            (Z.of_nat (length value)), None) s)
  /\ (forall xattrs err op,
      listxattr i = (xattrs, err) -> x_BytesRead op = 0 ->
      Z.of_nat (xattrs_size xattrs) <= MaxInt ->
      ListXattr listxattr id op s =
        Ok (mkXattrOut
              (xattrs_bytes (fitting xattrs (length (x_Dst op)))
                 ++ drop (xattrs_size (fitting xattrs (length (x_Dst op))))
                      (x_Dst op))
              (Z.of_nat (xattrs_size xattrs)),
            if (length (x_Dst op) <? xattrs_size xattrs)%nat
            then Some ERANGE else err) s
      /\ ((xattrs_size xattrs <= length (x_Dst op))%nat ->
          fitting xattrs (length (x_Dst op)) = xattrs)).
Proof.
  intros Hid Hi. split.
  - intros name value op Hv. unfold GetXattr, getInodeOrDie. msimpl.
    rewrite Hid. msimpl. mstep. rewrite Hv.
    destruct (length (x_Dst op) <? length value)%nat eqn:Hlt.
    + apply Nat.ltb_lt in Hlt.
      destruct (Z.ltb_spec (Z.of_nat (length (x_Dst op)))
                           (Z.of_nat (length value))); [done | lia].
    + apply Nat.ltb_ge in Hlt.
      destruct (Z.ltb_spec (Z.of_nat (length (x_Dst op)))
                           (Z.of_nat (length value))); [lia|].
      unfold copy. by rewrite take_ge.
  - intros xattrs err op Hl Hb Hmax. split; [|apply fitting_all].
    unfold ListXattr, getInodeOrDie. msimpl.
    rewrite Hid. msimpl. mstep. rewrite Hl, Hb.
    pose proof (ListXattr_loop_run xattrs (x_Dst op) 0 0%nat ltac:(lia))
      as Hrun.
    pose proof (ListXattr_loop_bytesRead xattrs (x_Dst op) 0 0%nat
                  ltac:(lia) ltac:(lia)) as Hbytes.
    cbv zeta in Hrun. rewrite Nat.sub_0_r in Hrun.
    destruct (ListXattr_loop xattrs (x_Dst op) 0 0) as [[dst' b'] n'].
    simpl in Hbytes. rewrite Z.add_0_l in Hbytes.
    destruct Hrun as [-> ->]. subst b'.
    rewrite take_0. simpl. do 2 f_equal.
    destruct (length (x_Dst op) <? xattrs_size xattrs)%nat eqn:Hlt.
    + apply Nat.ltb_lt in Hlt.
      pose proof (xattrs_size_fitting xattrs (length (x_Dst op))).
      destruct (Z.ltb_spec
                  (Z.of_nat (xattrs_size (fitting xattrs (length (x_Dst op)))))
                  (Z.of_nat (xattrs_size xattrs))); [done | lia].
    + apply Nat.ltb_ge in Hlt. rewrite fitting_all by done.
      by rewrite Z.ltb_irrefl.
Qed.

End Xattr.

(** The theorem at the example: the tag [old] of inode 2 read into two
    bytes; and the names [a] and [bb] listed into two bytes, where [a]
    finds room and [bb] does not. *)
Lemma xattr_destination_size_witness :
  GetXattr ex_getxattr 2 "etag" (mkXattrOut [Byte.x01; Byte.x01] 0) ex_state
    = Ok (mkXattrOut [Byte.x01; Byte.x01] 3, Some ERANGE) ex_state
  /\ ListXattr ex_listxattr 2 (mkXattrOut [Byte.x01; Byte.x01] 0) ex_state
     = Ok (mkXattrOut (xattrs_bytes ["a"%string]) 5, Some ERANGE) ex_state.
Proof.
  pose proof (xattr_destination_size ex_getxattr ex_listxattr ex_state 2
                1%nat ex_file eq_refl eq_refl) as [Hget Hlist].
  split.
  - exact (Hget "etag"%string (list_byte_of_string "old")
                (mkXattrOut [Byte.x01; Byte.x01] 0) eq_refl).
  - refine (proj1 (Hlist ["a"%string; "bb"%string] None
                     (mkXattrOut [Byte.x01; Byte.x01] 0) eq_refl eq_refl _)).
    vm_compute. discriminate.
Defined.

(** C4 as the specification words it does not hold for [ListXattr]: with
    names [a] and [bb] (five bytes) and a destination of two bytes, the call
    fails with ERANGE and reports 5, and the destination now holds [a] and
    its terminator. *)
Lemma ListXattr_copies_what_fits :
  ListXattr ex_listxattr 2 (mkXattrOut [Byte.x01; Byte.x01] 0) ex_state
    = Ok (mkXattrOut [Byte.x61; Byte.x00] 5, Some ERANGE) ex_state.
Proof. vm_compute. reflexivity. Qed.

(** ** Handle IDs *)

Lemma OpenDir_run s id listing a :
  inodes (fs s) !! id = Some a ->
  OpenDir id listing s =
    Ok (nextHandleID (fs s))
       (set_fs (set_dirHandles
                  (<[nextHandleID (fs s) := mkDirHandle a listing]>
                     (dirHandles (fs s)))
                  (set_nextHandleID (u64 (nextHandleID (fs s) + 1)) (fs s)))
               s).
Proof.
  intros Hid. unfold OpenDir, getInodeOrDie. msimpl. simpl. by rewrite Hid.
Qed.

Lemma OpenFile_run s id op a :
  inodes (fs s) !! id = Some a ->
  OpenFile id None op s =
    Ok (mkOpenFileOut (nextHandleID (fs s)) true, None)
       (set_fs (set_fileHandles_tbl
                  (<[nextHandleID (fs s) := mkFileHandle a false]>
                     (fileHandles_tbl (fs s)))
                  (set_nextHandleID (u64 (nextHandleID (fs s) + 1)) (fs s)))
               s).
Proof.
  intros Hid. unfold OpenFile, getInodeOrDie. msimpl. by rewrite Hid.
Qed.

Lemma open_all_run reqs : forall s,
  Forall (fun r => is_Some (inodes (fs s) !! req_inode r)) reqs ->
  exists hs s',
    open_all reqs s = Ok hs s'
    /\ length hs = length reqs
    /\ (forall k h, hs !! k = Some h ->
          h = Nat.iter k (fun x => u64 (x + 1)) (nextHandleID (fs s)))
    /\ nextHandleID (fs s')
       = Nat.iter (length reqs) (fun x => u64 (x + 1)) (nextHandleID (fs s))
    /\ inodes (fs s') = inodes (fs s).
Proof.
  induction reqs as [|r rest IH]; intros s Hall.
  { exists [], s. by repeat split. }
  apply Forall_cons in Hall as [[a Ha] Hrest].
  cbn [open_all]. msimpl.
  assert (exists s1,
    match r with
    | OpenDirReq id listing => OpenDir id listing
    | OpenFileReq id =>
        hr <- OpenFile id None (mkOpenFileOut 0 false) ;;
        ret (of_Handle hr.1)
    end s = Ok (nextHandleID (fs s)) s1
    /\ nextHandleID (fs s1) = u64 (nextHandleID (fs s) + 1)
    /\ inodes (fs s1) = inodes (fs s)) as (s1 & Hrun & Hnext & Hino).
  { destruct r as [id listing|id]; simpl in Ha.
    - eexists. by rewrite (OpenDir_run _ _ _ _ Ha).
    - eexists. msimpl. by rewrite (OpenFile_run _ _ _ _ Ha). }
  rewrite Hrun.
  destruct (IH s1) as (hs & s' & Hrun' & Hlen & Hhs & Hnext' & Hino').
  { by rewrite Hino. }
  rewrite Hrun'. exists (nextHandleID (fs s) :: hs), s'.
  split; [done|]. split; [simpl; by rewrite Hlen|].
  split; [|split].
  - intros [|k] h Hk; simpl in Hk.
    + by inversion Hk.
    + rewrite (Hhs _ _ Hk), Hnext. by rewrite Nat.iter_succ_r.
  - rewrite Hnext', Hnext. simpl length. by rewrite Nat.iter_succ_r.
  - by rewrite Hino'.
Qed.

(** C6 (as amended). Directory handles and file handles draw their IDs from
    the one counter [nextHandleID]: [OpenDir] and a successful [OpenFile]
    each return its current value, advance it by one (modulo 2^64) and
    register the handle under that ID, in [dirHandles] and in [fileHandles]
    respectively, leaving the other table alone; so in every sequence of
    opens of known inodes the k-th handle, whatever its kind, is the counter's
    initial value advanced k times. *)
Theorem handle_ids_one_counter s :
  (forall id listing a,
      inodes (fs s) !! id = Some a ->
      exists s',
        OpenDir id listing s = Ok (nextHandleID (fs s)) s'
        /\ nextHandleID (fs s') = u64 (nextHandleID (fs s) + 1)
        /\ dirHandles (fs s')
           = <[nextHandleID (fs s) := mkDirHandle a listing]> (dirHandles (fs s))
        /\ fileHandles_tbl (fs s') = fileHandles_tbl (fs s))
  /\ (forall id op a,
      inodes (fs s) !! id = Some a ->
      exists s',
        OpenFile id None op s
          = Ok (mkOpenFileOut (nextHandleID (fs s)) true, None) s'
        /\ nextHandleID (fs s') = u64 (nextHandleID (fs s) + 1)
        /\ fileHandles_tbl (fs s')
           = <[nextHandleID (fs s) := mkFileHandle a false]>
               (fileHandles_tbl (fs s))
        /\ dirHandles (fs s') = dirHandles (fs s))
  /\ (forall reqs,
      Forall (fun r => is_Some (inodes (fs s) !! req_inode r)) reqs ->
      exists hs s',
        open_all reqs s = Ok hs s'
        /\ length hs = length reqs
        /\ forall k h, hs !! k = Some h ->
             h = Nat.iter k (fun x => u64 (x + 1)) (nextHandleID (fs s))).
Proof.
  split; [|split].
  - intros id listing a Ha. eexists.
    by rewrite (OpenDir_run _ _ _ _ Ha).
  - intros id op a Ha. eexists.
    by rewrite (OpenFile_run _ _ _ _ Ha).
  - intros reqs Hall.
    destruct (open_all_run reqs s Hall) as (hs & s' & Hrun & Hlen & Hhs & _).
    by exists hs, s'.
Qed.

(** The theorem at the example: a directory, a file and a directory opened
    in this order get the handles 1, 2 and 3. *)
Lemma handle_ids_one_counter_witness :
  exists s',
    open_all [OpenDirReq 1 ex_no_entries; OpenFileReq 2;
              OpenDirReq 1 ex_no_entries] ex_state
      = Ok [1; 2; 3] s'.
Proof.
  destruct (proj2 (proj2 (handle_ids_one_counter ex_state))
              [OpenDirReq 1 ex_no_entries; OpenFileReq 2;
               OpenDirReq 1 ex_no_entries])
    as (hs & s' & Hrun & Hlen & Hhs).
  { repeat constructor; by eexists. }
  exists s'. rewrite Hrun. f_equal.
  destruct hs as [|h0 [|h1 [|h2 [|]]]]; try discriminate Hlen.
  by rewrite (Hhs 0%nat h0 eq_refl), (Hhs 1%nat h1 eq_refl),
    (Hhs 2%nat h2 eq_refl).
Defined.

(** C6 as the specification words it does not hold: opening a directory, a
    file and again a directory gives the directory handles the IDs 1 and 3
    (not consecutive within their table) and the file handle the ID 2 (it
    depends on the directory opened before). *)
Lemma handle_ids_not_per_table :
  match open_all [OpenDirReq 1 ex_no_entries; OpenFileReq 2;
                  OpenDirReq 1 ex_no_entries] ex_state with
  | Ok hs s' =>
      hs = [1; 2; 3]
      /\ dom (dirHandles (fs s')) = {[ 1; 3 ]}
      /\ dom (fileHandles_tbl (fs s')) = {[ 2 ]}
  | _ => False
  end.
Proof. vm_compute. repeat split. Qed.

(** ** Directory entries handed to the kernel *)

(** Whatever the loop of [ReadDir] appends to the destination was made by
    [makeDirEntry]. *)
Lemma ReadDir_loop_appends fuel : forall dh dstLen i rfs op s r err s',
  ReadDir_loop fuel dh dstLen i rfs op s = Ok (r, err) s' ->
  exists es, rd_Dst r = rd_Dst op ++ (makeDirEntry <$> es).
Proof.
  induction fuel as [|fuel IH]; intros dh dstLen i rfs op s r err s' Hrun;
    [discriminate|].
  cbn [ReadDir_loop] in Hrun.
  destruct (dh_Entries dh i) as [e|[e|]].
  - msimpl in Hrun. injection Hrun as <- _ _. exists []. by rewrite app_nil_r.
  - msimpl in Hrun.
    case_run Hrun. in_bounds Hrun Hb.
    destruct (WriteDirent _ _ =? 0).
    + msimpl in Hrun. injection Hrun as <- _ _. exists []. by rewrite app_nil_r.
    + apply IH in Hrun as [es Hes]. simpl in Hes.
      exists (e :: es). by rewrite Hes, <- app_assoc.
  - msimpl in Hrun.
    case_run Hrun.
    injection Hrun as <- _ _. exists []. by rewrite app_nil_r.
Qed.

(** C9. Every directory entry [ReadDir] encodes for the caller carries the
    inode number [RootInodeID + 1], whatever inode the entry is realized as
    (its [e_Inode], or the inode just materialized for it). *)
Theorem ReadDir_dirent_inode_constant s handle offset dstLen op r err s' :
  ReadDir handle offset dstLen op s = Ok (r, err) s' ->
  exists added,
    rd_Dst r = rd_Dst op ++ added
    /\ Forall (fun d => d_Inode d = RootInodeID + 1) added.
Proof.
  unfold ReadDir. msimpl.
  destruct (dirHandles (fs s) !! handle) as [dh|]; [|discriminate].
  intros Hrun. apply ReadDir_loop_appends in Hrun as [es Hes].
  exists (makeDirEntry <$> es). split; [done|].
  apply Forall_fmap, Forall_forall. by intros e _.
Qed.

(** The theorem at the example: reading the root through handle 7 encodes
    [f] (inode 2) and [g] (materialized as inode 3), both with the inode
    number 2. *)
Lemma ReadDir_dirent_inode_constant_witness :
  match ReadDir 7 0 4096 (mkReadDirOut 0 []) ex_open with
  | Ok (r, err) s' =>
      Forall (fun d => d_Inode d = RootInodeID + 1) (rd_Dst r)
      /\ ((fun d => (d_Name d, d_Inode d)) <$> rd_Dst r)
         = [("f"%string, 2); ("g"%string, 2)]
      /\ ((fun i => (Name i, Id i)) <$> heap s')
         = [(""%string, 1); ("f"%string, 2); ("g"%string, 3)]
  | _ => False
  end.
Proof.
  destruct (ReadDir 7 0 4096 (mkReadDirOut 0 []) ex_open)
    as [[r err] s'| |] eqn:Hrun.
  - split.
    + destruct (ReadDir_dirent_inode_constant _ _ _ _ _ _ _ _ Hrun)
        as (added & Hadd & Hall).
      by rewrite Hadd.
    + revert Hrun. vm_compute. intros [= <- _ <-]. repeat split.
  - revert Hrun. vm_compute. discriminate.
  - revert Hrun. vm_compute. discriminate.
Defined.

(** ** The listing timestamp *)

Lemma max_list_ge l x : x ∈ l -> x <= max_list l.
Proof.
  destruct l as [|y r]; [by intros ?%elem_of_nil|]. simpl.
  revert y. induction r as [|z r IH]; intros y Hx; simpl.
  - apply list_elem_of_singleton in Hx. lia.
  - apply elem_of_cons in Hx as [->|Hx].
    + specialize (IH y ltac:(left)). lia.
    + apply elem_of_cons in Hx as [->|Hx]; [lia|].
      specialize (IH y ltac:(by right)). lia.
Qed.

Lemma max_list_in l : l <> [] -> max_list l ∈ l.
Proof.
  destruct l as [|y r]; [done|]. intros _. simpl.
  revert y. induction r as [|z r IH]; intros y; simpl; [left|].
  destruct (Z.max_spec z (foldr Z.max y r)) as [[_ ->]|[_ ->]].
  - specialize (IH y). apply elem_of_cons in IH as [->|IH].
    + left.
    + right. by right.
  - right. left.
Qed.

Lemma load_all_run l : forall s,
  Forall (fun a => (a < length (heap s))%nat) l ->
  exists objs,
    load_all l s = Ok objs s
    /\ Forall2 (fun a i => heap s !! a = Some i) l objs.
Proof.
  induction l as [|a r IH]; intros s Hall.
  { exists []. by split. }
  apply Forall_cons in Hall as [Ha Hr].
  destruct (lookup_lt_is_Some_2 _ _ Ha) as [i Hi].
  destruct (IH s Hr) as (objs & Hrun & Hobjs).
  exists (i :: objs). cbn [load_all]. msimpl. mstep. rewrite Hrun.
  split; [done | by constructor].
Qed.

Lemma findChildMaxTime_run s a p d :
  heap s !! a = Some p -> dir p = Some d ->
  children_valid (heap s) a d ->
  exists m, findChildMaxTime a s = Ok m s /\ max_child_mtime (heap s) d m.
Proof.
  intros Hp Hd Hv. unfold findChildMaxTime. msimpl. mstep. rewrite Hd.
  destruct (load_all_run (map_to_list (Children d)).*2 s)
    as (objs & Hrun & Hobjs).
  { apply Forall_forall. intros c Hc.
    apply list_elem_of_fmap in Hc as ([k c'] & -> & Hc).
    apply elem_of_map_to_list in Hc. by destruct (Hv _ _ Hc). }
  msimpl. rewrite Hrun. eexists. split; [reflexivity|]. split.
  - intros k c ci Hc Hci. apply max_list_ge.
    apply list_elem_of_fmap. exists ci. split; [done|].
    apply elem_of_map_to_list in Hc.
    assert (Hin : c ∈ (map_to_list (Children d)).*2).
    { apply list_elem_of_fmap. by exists (k, c). }
    apply list_elem_of_lookup in Hin as [j Hj].
    destruct (Forall2_lookup_l _ _ _ _ _ Hobjs Hj) as (ci' & Hj' & Hci').
    rewrite Hci in Hci'. injection Hci' as <-.
    apply list_elem_of_lookup. by exists j.
  - intros Hne.
    assert (Hobjs_ne : (fun c => Mtime (Attributes c)) <$> objs <> []).
    { intros Hnil. apply fmap_nil_inv in Hnil. subst objs.
      apply Forall2_nil_inv_r in Hobjs. apply fmap_nil_inv in Hobjs.
      by apply map_to_list_empty_iff in Hobjs. }
    apply max_list_in in Hobjs_ne.
    apply list_elem_of_fmap in Hobjs_ne as (ci & Hm & Hci).
    apply list_elem_of_lookup in Hci as [j Hj].
    destruct (Forall2_lookup_r _ _ _ _ _ Hobjs Hj) as (c & Hc & Hci).
    apply list_elem_of_lookup_2 in Hc.
    apply list_elem_of_fmap in Hc as ([k c'] & -> & Hc).
    apply elem_of_map_to_list in Hc.
    by exists k, c', ci.
Qed.

Lemma WriteDirent_fits avail d :
  WriteDirent avail d <> 0 ->
  direntSize <= WriteDirent avail d <= avail.
Proof.
  unfold WriteDirent, direntSize, direntAlignment.
  set (len := Z.of_nat (String.length (d_Name d))).
  assert (0 <= len) by lia.
  pose proof (Z.mod_pos_bound len 8 ltac:(lia)).
  destruct (len mod 8 =? 0);
    match goal with |- context [?x >? avail] =>
      destruct (Z.gtb_spec x avail) end;
    intros; lia.
Qed.

Lemma insertInodeFromDirEntry_dir_kept s a e T A :
  dir_kept s a T A ->
  exists c s',
    insertInodeFromDirEntry a e s = Ok c s'
    /\ dir_kept s' a T A
    /\ clock s' = clock s.
Proof.
  intros (p & d & Hp & Hd & HT & HA & Hv).
  assert (Hlt : (a < length (heap s))%nat) by (by eapply lookup_lt_Some).
  destruct (Children d !! (e_Name e, is_DT_Directory (e_Type e)))
    as [c|] eqn:Hc.
  - destruct (Hv _ _ Hc) as [Hne Hc_lt].
    destruct (lookup_lt_is_Some_2 _ _ Hc_lt) as [ci Hci].
    destruct (insertInodeFromDirEntry_existing _ _ _ _ _ _ _ Hp Hd Hc Hci)
      as (ci' & Hrun & _).
    eexists _, _. split; [exact Hrun|]. split; [|done].
    exists p, d. simpl. rewrite list_lookup_insert_ne by done.
    split_and!; try done.
    unfold children_valid. cbn [heap]. by rewrite length_insert.
  - destruct (insertInodeFromDirEntry_new _ _ _ _ _ Hp Hd Hc)
      as (ni & Hrun & _).
    eexists _, _. split; [exact Hrun|]. split; [|done].
    eexists _, _. simpl. split.
    { eapply heap_insert_lookup, heap_app_lookup_old, Hp. }
    simpl. split_and!; try done.
    unfold children_valid. cbn [heap Children].
    rewrite length_insert, length_app. simpl.
    apply map_Forall_insert_2; [lia|].
    eapply map_Forall_impl; [exact Hv|]. simpl. intros; lia.
Qed.

(** The loop at the end of the listing. *)
Lemma ReadDir_loop_end fuel dh dstLen i rfs op s T A :
  dh_Entries dh i = inr None ->
  dir_kept s (dh_inode dh) T A ->
  exists s',
    ReadDir_loop (S fuel) dh dstLen i rfs op s = Ok (op, None) s'
    /\ clock s' = clock s
    /\ if rfs then dir_refreshed s' (dh_inode dh)
       else dir_kept s' (dh_inode dh) T A.
Proof.
  intros Hend (p & d & Hp & Hd & HT & HA & Hv).
  cbn [ReadDir_loop]. rewrite Hend. destruct rfs; msimpl.
  - mstep. rewrite Hd. msimpl. mstep.
    set (p1 := set_dir _ p).
    set (s1 := mkState (<[dh_inode dh := p1]> (heap s)) (fs s) (clock s)
                       (S (ticks s))).
    assert (Hp1 : heap s1 !! dh_inode dh = Some p1)
      by (by eapply heap_insert_lookup).
    assert (Hv1 : children_valid (heap s1) (dh_inode dh)
                    (mkDir (Children d) (clock s (ticks s))))
      by (unfold children_valid; simpl; by rewrite length_insert).
    destruct (findChildMaxTime_run s1 _ p1 _ Hp1 eq_refl Hv1)
      as (m & Hrun & Hle & Hex).
    rewrite Hrun. mstep. subst s1. cbn [heap ticks clock fs] in *.
    eexists. split; [reflexivity|]. split; [done|].
    eexists _, _. cbn [heap ticks clock].
    split; [by eapply heap_insert_lookup|].
    split; [reflexivity|]. split; [lia|]. split; [done|]. split.
    + intros k c ci Hc Hci. simpl in Hc.
      destruct (Hv _ _ Hc) as [Hne _].
      rewrite list_lookup_insert_ne in Hci by done. by eapply Hle.
    + intros Hne. destruct (Hex Hne) as (k & c & ci & Hc & Hci & Hm).
      exists k, c, ci. split_and!; try done.
      destruct (Hv _ _ Hc) as [Hne' _].
      by rewrite list_lookup_insert_ne.
  - eexists. split; [reflexivity|]. split; [done|]. by exists p, d.
Qed.

Lemma offs_succ i j : offs (u64 (i + 1)) j = offs i (S j).
Proof. unfold offs. by rewrite Nat.iter_succ_r. Qed.

(** What one run of the loop does to the directory of the handle, told by
    the answers of the listing: [es] are the entries it encodes, and the
    answer after them decides how it ends. *)
Lemma ReadDir_loop_listing fuel : forall dh dstLen i rfs op s T A,
  (Z.to_nat (dstLen - rd_BytesRead op) < fuel)%nat ->
  0 <= rd_BytesRead op <= dstLen ->
  dir_kept s (dh_inode dh) T A ->
  exists es r err s',
    ReadDir_loop fuel dh dstLen i rfs op s = Ok (r, err) s'
    /\ (forall j e, es !! j = Some e -> dh_Entries dh (offs i j) = inr (Some e))
    /\ rd_Dst r = rd_Dst op ++ (makeDirEntry <$> es)
    /\ clock s' = clock s
    /\ match dh_Entries dh (offs i (length es)) with
       | inr None =>
           err = None
           /\ if rfs || existsb remote es
              then dir_refreshed s' (dh_inode dh)
              else dir_kept s' (dh_inode dh) T A
       | inr (Some e) =>
           WriteDirent (dstLen - rd_BytesRead r) (makeDirEntry e) = 0
           /\ err = None /\ dir_kept s' (dh_inode dh) T A
       | inl e => err = Some e /\ dir_kept s' (dh_inode dh) T A
       end.
Proof.
  induction fuel as [|fuel IH];
    intros dh dstLen i rfs op s T A Hfuel Hin Hdir; [lia|].
  destruct (dh_Entries dh i) as [e|[e|]] eqn:Hent.
  - exists [], op, (Some e), s. cbn [ReadDir_loop]. rewrite Hent.
    split; [done|]. split; [by intros j e' ?|].
    split; [by rewrite app_nil_r|]. split; [done|].
    simpl. by rewrite Hent.
  - assert (exists s1,
        (if e_Inode e =? 0
         then insertInodeFromDirEntry (dh_inode dh) e;;; ret true
         else ret rfs) s = Ok (rfs || remote e) s1
        /\ dir_kept s1 (dh_inode dh) T A /\ clock s1 = clock s)
      as (s1 & Hrun1 & Hdir1 & Hclk1).
    { unfold remote. destruct (e_Inode e =? 0).
      - destruct (insertInodeFromDirEntry_dir_kept _ _ e _ _ Hdir)
          as (c & s1 & Hrun & Hdir1 & Hclk1).
        exists s1. msimpl. rewrite Hrun. by rewrite orb_true_r.
      - exists s. by rewrite orb_false_r. }
    cbn [ReadDir_loop]. rewrite Hent. msimpl. rewrite Hrun1.
    replace ((rd_BytesRead op <? 0) || (dstLen <? rd_BytesRead op))
      with false by (symmetry; apply orb_false_intro; lia).
    destruct (WriteDirent (dstLen - rd_BytesRead op) (makeDirEntry e) =? 0)
      eqn:Hn.
    + apply Z.eqb_eq in Hn.
      exists [], op, None, s1. split; [done|].
      split; [by intros j e' ?|]. split; [by rewrite app_nil_r|].
      split; [done|]. simpl. by rewrite Hent.
    + apply Z.eqb_neq in Hn. pose proof (WriteDirent_fits _ _ Hn) as Hfit.
      unfold direntSize in Hfit.
      set (op1 := mkReadDirOut _ _).
      destruct (IH dh dstLen (u64 (i + 1)) (rfs || remote e) op1 s1 T A)
        as (es & r & err & s' & Hrun & Hes & Hdst & Hclk & Hlast);
        [simpl; lia | simpl; lia | done |].
      exists (e :: es), r, err, s'. split; [done|]. split; [|split; [|split]].
      * intros [|j] e' Hj; simpl in Hj.
        -- by injection Hj as <-.
        -- rewrite <- offs_succ. by apply Hes.
      * rewrite Hdst. simpl. by rewrite <- app_assoc.
      * by rewrite Hclk.
      * simpl length. rewrite <- offs_succ. simpl existsb.
        by rewrite orb_assoc.
  - destruct (ReadDir_loop_end fuel dh dstLen i rfs op s T A Hent Hdir)
      as (s' & Hrun & Hclk & Hres).
    exists [], op, None, s'. split; [done|].
    split; [by intros j e' ?|]. split; [by rewrite app_nil_r|].
    split; [done|]. simpl. rewrite Hent, orb_false_r. by split.
Qed.

Lemma rp_bind {A B} (m : M A) (k : A -> M B) :
  returns_or_panics m -> (forall a, returns_or_panics (k a)) ->
  returns_or_panics (bind m k).
Proof.
  intros Hm Hk s. unfold bind. specialize (Hm s).
  destruct (m s); [apply Hk | done | done].
Qed.

Lemma rp_ret {A} (a : A) : returns_or_panics (ret a).
Proof. by intros s. Qed.

Lemma rp_panic {A} : returns_or_panics (@panic A).
Proof. by intros s. Qed.

Lemma rp_now : returns_or_panics now.
Proof. by intros s. Qed.

Lemma rp_get_fs : returns_or_panics get_fs.
Proof. by intros s. Qed.

Lemma rp_put_fs f : returns_or_panics (put_fs f).
Proof. by intros s. Qed.

Lemma rp_alloc i : returns_or_panics (alloc i).
Proof. by intros s. Qed.

Lemma rp_load a : returns_or_panics (load a).
Proof. intros s. unfold load. by destruct (heap s !! a). Qed.

Lemma rp_modify a f : returns_or_panics (modify a f).
Proof. intros s. unfold modify. by destruct (heap s !! a). Qed.

Lemma rp_load_all l : returns_or_panics (load_all l).
Proof.
  induction l as [|a r IH]; cbn [load_all]; [apply rp_ret|].
  apply rp_bind; [apply rp_load|]. intros i.
  apply rp_bind; [apply IH|]. intros rest. apply rp_ret.
Qed.

(** Decomposes a computation into its primitives. *)
Ltac rp :=
  repeat first
    [ apply rp_ret | apply rp_panic | apply rp_now | apply rp_get_fs
    | apply rp_put_fs | apply rp_alloc | apply rp_load | apply rp_modify
    | apply rp_load_all
    | apply rp_bind; [|intros ?]
    | match goal with
      | |- returns_or_panics (match ?x with _ => _ end) => destruct x
      | |- returns_or_panics (if ?x then _ else _) => destruct x
      end ].

Lemma rp_insertInodeFromDirEntry parent e :
  returns_or_panics (insertInodeFromDirEntry parent e).
Proof.
  unfold insertInodeFromDirEntry, findChildUnlocked, NewInode, ToDir,
    insertInode, allocateInodeId, insertChildUnlocked, set_meta_opt. rp.
Qed.

Lemma rp_findChildMaxTime a : returns_or_panics (findChildMaxTime a).
Proof. unfold findChildMaxTime. rp. Qed.

(** The loop of [ReadDir] never runs out of the iterations it is given. *)
Lemma ReadDir_loop_terminates fuel : forall dh dstLen i rfs op s,
  (Z.to_nat (dstLen - rd_BytesRead op) < fuel)%nat ->
  ReadDir_loop fuel dh dstLen i rfs op s <> OutOfFuel.
Proof.
  induction fuel as [|fuel IH]; intros dh dstLen i rfs op s Hfuel; [lia|].
  cbn [ReadDir_loop].
  destruct (dh_Entries dh i) as [e|[e|]]; [done| |].
  - apply rp_bind.
    + destruct (e_Inode e =? 0); [|apply rp_ret].
      apply rp_bind; [apply rp_insertInodeFromDirEntry | intros; apply rp_ret].
    + intros rfs'.
      destruct ((rd_BytesRead op <? 0) || (dstLen <? rd_BytesRead op));
        [apply rp_panic|].
      destruct (WriteDirent (dstLen - rd_BytesRead op) (makeDirEntry e) =? 0)
        eqn:Hn; [apply rp_ret|].
      apply Z.eqb_neq in Hn. pose proof (WriteDirent_fits _ _ Hn) as Hfit.
      unfold direntSize in Hfit. intros s1. apply IH. simpl. lia.
  - apply rp_bind; [|intros; apply rp_ret].
    destruct rfs; [|apply rp_ret].
    apply rp_bind; [apply rp_now|]. intros t.
    apply rp_bind; [apply rp_load|]. intros p.
    destruct (dir p); [|apply rp_panic].
    apply rp_bind; [apply rp_modify|]. intros _.
    apply rp_bind; [apply rp_findChildMaxTime | intros; apply rp_modify].
Qed.

(** [ReadDir] returns: its loop is given enough iterations. *)
Lemma ReadDir_terminates s handle offset dstLen op :
  ReadDir handle offset dstLen op s <> OutOfFuel.
Proof.
  unfold ReadDir. msimpl.
  destruct (dirHandles (fs s) !! handle); [|done].
  apply ReadDir_loop_terminates. lia.
Qed.

(** C2. A call of [ReadDir] on a handle whose directory is well formed
    (its children are other objects of the heap, as they are in every
    reachable state), with [BytesRead] within the destination (outside it
    the slice of the destination panics), returns, having encoded some
    entries [es] of the listing from the offset on. The directory's listing timestamp and mtime
    are updated only if the answer after [es] is the end-of-listing sentinel
    and one of [es] was not yet realized as an inode; they then are the
    clock reading just taken and the greatest mtime among the children. When the call stops because the
    next entry does not fit the destination, or because the listing fails,
    timestamp and attributes are as before. *)
Theorem ReadDir_listing_timestamp s handle dh offset dstLen op p d :
  dirHandles (fs s) !! handle = Some dh ->
  heap s !! dh_inode dh = Some p -> dir p = Some d ->
  children_valid (heap s) (dh_inode dh) d ->
  0 <= rd_BytesRead op <= dstLen ->
  exists es r err s',
    ReadDir handle offset dstLen op s = Ok (r, err) s'
    /\ (forall j e, es !! j = Some e ->
          dh_Entries dh (offs offset j) = inr (Some e))
    /\ rd_Dst r = rd_Dst op ++ (makeDirEntry <$> es)
    /\ listing_outcome dh offset dstLen (DirTime d) (Attributes p)
         es r err s'.
Proof.
  intros Hdh Hp Hd Hv Hin. unfold ReadDir. msimpl. rewrite Hdh.
  destruct (ReadDir_loop_listing (S (Z.to_nat (dstLen - rd_BytesRead op)))
              dh dstLen offset false op s (DirTime d) (Attributes p))
    as (es & r & err & s' & Hrun & Hes & Hdst & _ & Hlast);
    [lia | done | by exists p, d |].
  by exists es, r, err, s'.
Qed.

(** The theorem at the example: reading the root through handle 7 encodes
    [f] and [g], materializes [g] and refreshes the root, whose listing
    timestamp becomes the reading 101 and whose mtime becomes 13. *)
Lemma ReadDir_listing_timestamp_witness :
  (exists es r err s',
     ReadDir 7 0 4096 (mkReadDirOut 0 []) ex_open = Ok (r, err) s'
     /\ rd_Dst r = makeDirEntry <$> es
     /\ listing_outcome ex_handle 0 4096 0 (mkAttrs 4096 0) es r err s')
  /\ match ReadDir 7 0 4096 (mkReadDirOut 0 []) ex_open with
     | Ok (r, err) s' =>
         rd_BytesRead r = 64 /\ err = None
         /\ (DirTime <$> (heap s' !! 0%nat ≫= dir)) = Some 101
         /\ (Attributes <$> heap s' !! 0%nat) = Some (mkAttrs 4096 13)
     | _ => False
     end.
Proof.
  split.
  - destruct (ReadDir_listing_timestamp ex_open 7 ex_handle 0 4096
                (mkReadDirOut 0 []) ex_root ex_dirdata eq_refl eq_refl eq_refl)
      as (es & r & err & s' & Hrun & _ & Hdst & Hout).
    { apply map_Forall_singleton. split; [done | simpl; lia]. }
    { simpl. lia. }
    exists es, r, err, s'.
    split; [exact Hrun|]. split; [exact Hdst | exact Hout].
  - vm_compute. by split_and!.
Defined.

(** ** Inode IDs and directory tree along the operations *)

Lemma same_ids_refl s : same_ids s s.
Proof. split_and!; try done. intros a i Hi. by exists i. Qed.

Lemma same_ids_trans s1 s2 s3 :
  same_ids s1 s2 -> same_ids s2 s3 -> same_ids s1 s3.
Proof.
  intros (Hi1 & Hn1 & Hl1 & Hh1) (Hi2 & Hn2 & Hl2 & Hh2).
  split_and!; try congruence.
  intros a i Hi. destruct (Hh1 _ _ Hi) as (i1 & Hi1' & Hid1 & Hc1).
  destruct (Hh2 _ _ Hi1') as (i2 & Hi2' & Hid2 & Hc2).
  exists i2. split_and!; [done | congruence..].
Qed.

Lemma quiet_ret {A} (a : A) : quiet (ret a).
Proof.
  intros s b s' Hrun. cbn in Hrun. injection Hrun as _ <-.
  apply same_ids_refl.
Qed.

Lemma quiet_panic {A} : quiet (@panic A).
Proof. intros s b s' Hrun. discriminate Hrun. Qed.

Lemma quiet_bind {A B} (m : M A) (k : A -> M B) :
  quiet m -> (forall a, quiet (k a)) -> quiet (bind m k).
Proof.
  intros Hm Hk s b s' Hrun. unfold bind in Hrun.
  destruct (m s) as [a s1| |] eqn:Hms; try discriminate.
  eapply same_ids_trans; [by eapply Hm | by eapply Hk].
Qed.

Lemma quiet_now : quiet now.
Proof.
  intros s t s' Hrun. cbn in Hrun. injection Hrun as _ <-.
  split_and!; try done. intros a i Hi. by exists i.
Qed.

Lemma quiet_get_fs : quiet get_fs.
Proof.
  intros s f s' Hrun. cbn in Hrun. injection Hrun as _ <-.
  apply same_ids_refl.
Qed.

Lemma quiet_load a : quiet (load a).
Proof.
  intros s i s'. unfold load. destruct (heap s !! a); [|done].
  intros Hrun. injection Hrun as _ <-. apply same_ids_refl.
Qed.

(** A write to an inode that keeps its ID and its children. *)
Lemma quiet_modify_at a f :
  (forall s i, heap s !! a = Some i ->
               Id (f i) = Id i /\ children (f i) = children i) ->
  quiet (modify a f).
Proof.
  intros Hf s u s'. unfold modify. destruct (heap s !! a) as [i|] eqn:Hi; [|done].
  intros Hrun. injection Hrun as _ <-. split_and!; try done.
  { simpl. apply length_insert. }
  intros b j Hj. simpl.
  destruct (decide (a = b)) as [->|Hne].
  - exists (f i). split; [by eapply heap_insert_lookup|].
    destruct (Hf _ _ Hi) as [-> ->]. split; congruence.
  - exists j. by rewrite list_lookup_insert_ne.
Qed.

Lemma quiet_modify a f :
  (forall i, Id (f i) = Id i) -> (forall i, dir (f i) = dir i) ->
  quiet (modify a f).
Proof.
  intros Hid Hdir. apply quiet_modify_at. intros s i _.
  split; [apply Hid | unfold children; by rewrite Hdir].
Qed.

Lemma quiet_load_all l : quiet (load_all l).
Proof.
  induction l as [|a r IH]; cbn [load_all]; [apply quiet_ret|].
  apply quiet_bind; [apply quiet_load|]. intros i.
  apply quiet_bind; [apply IH|]. intros rest. apply quiet_ret.
Qed.

Lemma quiet_findChildUnlocked parent name isdir :
  quiet (findChildUnlocked parent name isdir).
Proof.
  apply quiet_bind; [apply quiet_load|]. intros p.
  destruct (dir p); [apply quiet_ret | apply quiet_panic].
Qed.

Lemma quiet_findChildMaxTime a : quiet (findChildMaxTime a).
Proof.
  apply quiet_bind; [apply quiet_load|]. intros p.
  destruct (dir p); [|apply quiet_panic].
  apply quiet_bind; [apply quiet_load_all | intros; apply quiet_ret].
Qed.

Lemma quiet_set_meta_opt a key v : quiet (set_meta_opt a key v).
Proof. destruct v; [by apply quiet_modify | apply quiet_ret]. Qed.

(** The refresh of a directory at the end of its listing. *)
Lemma quiet_refresh a :
  quiet (t <- now ;;
         p <- load a ;;
         match dir p with
         | Some d =>
             modify a (set_dir (Some (mkDir (Children d) t))) ;;;
             m <- findChildMaxTime a ;;
             modify a (fun i => set_Attributes (set_Mtime m (Attributes i)) i)
         | None => panic
         end).
Proof.
  apply quiet_bind; [apply quiet_now|]. intros t.
  intros s u s' Hrun. unfold bind at 1 in Hrun. unfold load in Hrun.
  destruct (heap s !! a) as [p|] eqn:Hp; [|done].
  destruct (dir p) as [d|] eqn:Hd; [|done].
  unfold bind at 1 in Hrun. unfold modify at 1 in Hrun. rewrite Hp in Hrun.
  match type of Hrun with _ ?s1 = _ => apply (same_ids_trans s s1 s') end.
  2:{ revert Hrun. apply quiet_bind; [apply quiet_findChildMaxTime|].
      intros m. by apply quiet_modify. }
  split_and!; try done.
  { simpl. apply length_insert. }
  intros b j Hj. simpl. destruct (decide (a = b)) as [->|Hne].
  - eexists. split; [by eapply heap_insert_lookup|].
    assert (j = p) as -> by congruence.
    unfold children. simpl. by rewrite Hd.
  - exists j. by rewrite list_lookup_insert_ne.
Qed.

(** The table, the allocator and the IDs under a step. *)
Lemma ids_ok_same_ids s s' : ids_ok s -> same_ids s s' -> ids_ok s'.
Proof.
  intros (H1 & H2 & H3 & H4) (Hi & Hn & _ & Hh). split_and!.
  - intros k a Hk. rewrite Hi in Hk. destruct (H1 _ _ Hk) as (i & Ha & Hid).
    destruct (Hh _ _ Ha) as (i' & Ha' & Hid' & _). exists i'. split; congruence.
  - intros k a Hk. rewrite Hi in Hk. rewrite Hn. by eapply H2.
  - by rewrite Hn, Hi.
  - by rewrite Hi.
Qed.

Lemma ids_ok_inserted s s' :
  ids_ok s -> inserted s s' ->
  Z.of_nat (size (inodes (fs s'))) <= MaxInt ->
  ids_ok s'.
Proof.
  intros (H1 & H2 & H3 & H4) (Hi & Hn & _ & (i & Hnew & Hid & _) & Hh) Hsize.
  assert (Hfresh : inodes (fs s) !! nextInodeID (fs s) = None).
  { destruct (inodes (fs s) !! nextInodeID (fs s)) as [a|] eqn:Hk; [|done].
    apply H2 in Hk. lia. }
  assert (Hsz : size (inodes (fs s')) = S (size (inodes (fs s)))).
  { rewrite Hi. by apply map_size_insert_None. }
  assert (Hnext : nextInodeID (fs s') = nextInodeID (fs s) + 1).
  { rewrite Hn. unfold u64, two64. apply Z.mod_small.
    unfold MaxInt in Hsize. lia. }
  pose proof (H2 _ _ H4) as Hroot. split_and!.
  - intros k a Hk. rewrite Hi in Hk.
    destruct (decide (nextInodeID (fs s) = k)) as [<-|Hne].
    + rewrite lookup_insert_eq in Hk. injection Hk as <-. by exists i.
    + rewrite lookup_insert_ne in Hk by done.
      destruct (H1 _ _ Hk) as (j & Ha & Hj).
      destruct (Hh _ _ Ha) as (j' & Ha' & Hj' & _). exists j'. split; congruence.
  - intros k a Hk. rewrite Hi in Hk. rewrite Hnext.
    destruct (decide (nextInodeID (fs s) = k)) as [<-|Hne]; [lia|].
    rewrite lookup_insert_ne in Hk by done. apply H2 in Hk. lia.
  - rewrite Hnext, Hsz, H3. lia.
  - rewrite Hi, lookup_insert_ne; [done | lia].
Qed.

Lemma id_step_size s s' :
  id_step s s' -> (size (inodes (fs s)) <= size (inodes (fs s')))%nat.
Proof.
  intros [(Hi & _)|(Hi & _)]; rewrite Hi; [done|].
  destruct (inodes (fs s) !! nextInodeID (fs s)) eqn:Hk.
  - by rewrite map_size_insert_Some.
  - rewrite map_size_insert_None by done. lia.
Qed.

Lemma id_steps_size s s' :
  rtc id_step s s' -> (size (inodes (fs s)) <= size (inodes (fs s')))%nat.
Proof.
  induction 1 as [|s s1 s' Hstep _ IH]; [done|].
  apply id_step_size in Hstep. lia.
Qed.

Lemma ids_ok_steps s s' :
  rtc id_step s s' -> ids_ok s ->
  Z.of_nat (size (inodes (fs s'))) <= MaxInt ->
  ids_ok s'.
Proof.
  induction 1 as [|s s1 s' Hstep Hrest IH]; intros Hok Hsize; [done|].
  apply IH; [|done]. destruct Hstep as [Hq|Hins].
  - by eapply ids_ok_same_ids.
  - eapply ids_ok_inserted; [done..|].
    apply id_steps_size in Hrest. lia.
Qed.

(** While the table is within its bound, a step neither removes nor
    reassigns an ID. *)
Lemma id_steps_keep s s' :
  rtc id_step s s' -> ids_ok s ->
  Z.of_nat (size (inodes (fs s'))) <= MaxInt ->
  forall k a, inodes (fs s) !! k = Some a -> inodes (fs s') !! k = Some a.
Proof.
  induction 1 as [|s s1 s' Hstep Hrest IH]; intros Hok Hsize k a Hk; [done|].
  assert (Hok1 : ids_ok s1).
  { eapply ids_ok_steps; [by apply rtc_once | done |].
    apply id_steps_size in Hrest. lia. }
  apply IH; [done..|].
  destruct Hstep as [(Hi & _)|(Hi & _)]; rewrite Hi; [done|].
  rewrite lookup_insert_ne; [done|].
  intros <-. destruct Hok as (_ & H2 & _). apply H2 in Hk. lia.
Qed.

(** [insertInodeFromDirEntry] once the parent's child map is at hand. *)
Lemma insertInodeFromDirEntry_unfold parent e s p d :
  heap s !! parent = Some p -> dir p = Some d ->
  insertInodeFromDirEntry parent e s =
    match Children d !! (e_Name e, is_DT_Directory (e_Type e)) with
    | None =>
        inode <- NewInode (Some parent) (e_Name e) ;;
        (if is_DT_Directory (e_Type e)
         then ToDir inode
         else modify inode (set_Attributes (e_Attributes e))) ;;;
        set_meta_opt inode "etag" (e_ETag e) ;;;
        set_meta_opt inode "storage-class" (e_StorageClass e) ;;;
        modify inode (set_refcnt 0) ;;;
        insertInode parent inode ;;;
        ret inode
    | Some inode =>
        set_meta_opt inode "etag" (e_ETag e) ;;;
        set_meta_opt inode "storage-class" (e_StorageClass e) ;;;
        modify inode (set_KnownSize (Some (Size (e_Attributes e)))) ;;;
        modify inode (fun i =>
          set_Attributes (set_Mtime (Mtime (e_Attributes e)) (Attributes i)) i) ;;;
        t <- now ;;
        modify inode (set_AttrTime t) ;;;
        ret inode
    end s.
Proof.
  intros Hp Hd. unfold insertInodeFromDirEntry, findChildUnlocked.
  unfold bind at 1. unfold bind at 1. rewrite (load_run _ _ _ Hp), Hd.
  reflexivity.
Qed.

Lemma insertInodeFromDirEntry_id_step parent e s a s' :
  insertInodeFromDirEntry parent e s = Ok a s' -> id_step s s'.
Proof.
  intros Hrun.
  destruct (heap s !! parent) as [p|] eqn:Hp.
  2:{ unfold insertInodeFromDirEntry, findChildUnlocked, load in Hrun.
      msimpl in Hrun. by rewrite Hp in Hrun. }
  destruct (dir p) as [d|] eqn:Hd.
  2:{ unfold insertInodeFromDirEntry, findChildUnlocked in Hrun.
      msimpl in Hrun. rewrite (load_run _ _ _ Hp), Hd in Hrun.
      discriminate Hrun. }
  destruct (Children d !! (e_Name e, is_DT_Directory (e_Type e)))
    as [c|] eqn:Hc.
  - left. rewrite (insertInodeFromDirEntry_unfold _ _ _ _ _ Hp Hd), Hc in Hrun.
    revert Hrun. apply quiet_bind; [apply quiet_set_meta_opt|]. intros _.
    apply quiet_bind; [apply quiet_set_meta_opt|]. intros _.
    apply quiet_bind; [by apply quiet_modify|]. intros _.
    apply quiet_bind; [by apply quiet_modify|]. intros _.
    apply quiet_bind; [apply quiet_now|]. intros t.
    apply quiet_bind; [by apply quiet_modify | intros; apply quiet_ret].
  - right.
    destruct (insertInodeFromDirEntry_new _ _ _ _ _ Hp Hd Hc)
      as (ni & Hrun' & Hid & _ & _ & _ & Hdir & _).
    rewrite Hrun' in Hrun. injection Hrun as _ <-.
    assert (Hlt : (parent < length (heap s))%nat) by (by eapply lookup_lt_Some).
    split_and!; try done.
    + simpl. rewrite length_insert, length_app. simpl. lia.
    + exists ni. simpl. rewrite list_lookup_insert_ne by lia.
      split_and!; [apply heap_app_lookup | done |].
      unfold children. rewrite Hdir. intros m.
      destruct (is_DT_Directory _); simpl; congruence.
    + intros b j Hj. simpl. destruct (decide (parent = b)) as [<-|Hne].
      * eexists. split; [eapply heap_insert_lookup, heap_app_lookup_old, Hp|].
        assert (j = p) as -> by congruence.
        split; [done|]. right. eexists. unfold children. simpl. by rewrite Hd.
      * exists j. rewrite list_lookup_insert_ne by done.
        split_and!; [by apply heap_app_lookup_old | done | by left].
Qed.

(** The loop of [ReadDir] is a sequence of such steps. *)
Lemma ReadDir_loop_id_steps fuel : forall dh dstLen i rfs op s r s',
  ReadDir_loop fuel dh dstLen i rfs op s = Ok r s' -> rtc id_step s s'.
Proof.
  induction fuel as [|fuel IH]; intros dh dstLen i rfs op s r s' Hrun;
    [discriminate|].
  cbn [ReadDir_loop] in Hrun.
  destruct (dh_Entries dh i) as [e|[e|]].
  - msimpl in Hrun. injection Hrun as _ <-. apply rtc_refl.
  - unfold bind at 1 in Hrun. case_run Hrun.
    assert (Hstep : rtc id_step s s0).
    { destruct (e_Inode e =? 0).
      - unfold bind in Heqr0. case_run Heqr0. injection Heqr0 as _ <-.
        apply rtc_once. by eapply insertInodeFromDirEntry_id_step.
      - msimpl in Heqr0. injection Heqr0 as _ <-. apply rtc_refl. }
    in_bounds Hrun Hb.
    destruct (WriteDirent _ _ =? 0).
    + msimpl in Hrun. injection Hrun as _ <-. exact Hstep.
    + etrans; [exact Hstep | by eapply IH].
  - unfold bind at 1 in Hrun. case_run Hrun. injection Hrun as _ <-.
    apply rtc_once. left. revert Heqr0.
    destruct rfs; [apply quiet_refresh | apply quiet_ret].
Qed.

(** The tree under a step. *)
Lemma tree_ok_same_ids s s' : tree_ok s -> same_ids s s' -> tree_ok s'.
Proof.
  intros Hok (_ & _ & Hlen & Hh) a p' d' Hp' Hd'.
  assert (Hlt : (a < length (heap s))%nat).
  { rewrite <- Hlen. by eapply lookup_lt_Some. }
  destruct (lookup_lt_is_Some_2 _ _ Hlt) as [p Hp].
  destruct (Hh _ _ Hp) as (p1 & Hp1 & _ & Hc).
  assert (p1 = p') as -> by congruence.
  unfold children in Hc. rewrite Hd' in Hc.
  destruct (dir p) as [d|] eqn:Hd; [|discriminate Hc].
  injection Hc as Hc. unfold children_valid. rewrite Hc, Hlen.
  by eapply Hok.
Qed.

Lemma tree_ok_inserted s s' : tree_ok s -> inserted s s' -> tree_ok s'.
Proof.
  intros Hok (_ & _ & Hlen & (ni & Hni & _ & Hempty) & Hh) a p' d' Hp' Hd'.
  unfold children_valid. rewrite Hlen.
  destruct (decide (a < length (heap s))%nat) as [Hlt|Hge].
  - destruct (lookup_lt_is_Some_2 _ _ Hlt) as [p Hp].
    destruct (Hh _ _ Hp) as (p1 & Hp1 & _ & Hc).
    assert (p1 = p') as -> by congruence.
    unfold children in Hc. rewrite Hd' in Hc.
    destruct (dir p) as [d|] eqn:Hd; [|by destruct Hc as [Hc|[k Hc]]].
    pose proof (Hok _ _ _ Hp Hd) as Hv. unfold children_valid in Hv.
    assert (Hold : map_Forall
              (fun _ c => c <> a /\ (c < S (length (heap s)))%nat) (Children d)).
    { eapply map_Forall_impl; [exact Hv|]. simpl. intros _ c [? ?].
      split; [done | lia]. }
    destruct Hc as [Hc|[k Hc]]; injection Hc as ->; [done|].
    apply map_Forall_insert_2; [split; lia | done].
  - assert (a = length (heap s)) as ->.
    { apply lookup_lt_Some in Hp'. lia. }
    assert (ni = p') as -> by congruence.
    rewrite (Hempty (Children d')); [apply map_Forall_empty|].
    unfold children. by rewrite Hd'.
Qed.

Lemma tree_ok_steps s s' : rtc id_step s s' -> tree_ok s -> tree_ok s'.
Proof.
  induction 1 as [|s s1 s' Hstep _ IH]; intros Hok; [done|].
  apply IH. destruct Hstep as [Hq|Hins].
  - by eapply tree_ok_same_ids.
  - by eapply tree_ok_inserted.
Qed.

(** ** Construction *)

Lemma built_refl dl h : built [] dl h h.
Proof.
  split_and!; try done.
  - intros a i Hi Hd. by exists i.
  - by intros f ?%elem_of_nil.
  - intros a i Hi Hd. by left.
Qed.

Lemma built_trans f files dl h h1 h2 :
  built [f] dl h h1 -> built files dl h1 h2 -> built (f :: files) dl h h2.
Proof.
  intros (Hf1 & Hd1 & Hn1 & Ho1) (Hf2 & Hd2 & Hn2 & Ho2). split_and!.
  - intros a i Hi Hd. eapply Hf2; [by eapply Hf1 | done].
  - intros a i Hi Hd. destruct (Hd1 _ _ Hi Hd) as (i1 & Hi1 & Hd1' & Hn1').
    destruct (Hd2 _ _ Hi1 Hd1') as (i2 & Hi2 & Hd2' & Hn2').
    exists i2. split_and!; try done. congruence.
  - intros g [->|Hg]%elem_of_cons.
    + destruct (Hn1 f ltac:(left)) as (a & i & Hi & Hfo & Hpar).
      exists a, i. split_and!; try done. eapply Hf2; [done | apply Hfo].
    + by apply Hn2.
  - intros a i Hi Hd. destruct (Ho2 _ _ Hi Hd) as [Hi1|(g & Hg & Hfo)].
    + destruct (Ho1 _ _ Hi1 Hd) as [Hi0|(g & Hg & Hfo)]; [by left|].
      right. exists g. apply list_elem_of_singleton in Hg as ->.
      split; [left | done].
    + right. exists g. split; [by right | done].
Qed.

(** One file of an accession: the run of the inner loop's body. *)
Lemma newFile_run s dl f di dd :
  heap s !! dl = Some di -> dir di = Some dd ->
  exists s',
    newFile dl f s = Ok (if parses f then None else Some EParseSize) s'
    /\ (parses f = true ->
        built [f] dl (heap s) (heap s') /\ inserted s s').
Proof.
  intros Hdi Hdd.
  assert (Hlt : (dl < length (heap s))%nat) by (by eapply lookup_lt_Some).
  unfold newFile, NewInode, parses, touch. msimpl. mstep.
  destruct (ParseUint (f_Size f)) as [u|] eqn:Hu; [|by eexists].
  msimpl. do 3 mstep.
  erewrite insertInode_run; [| heap_lookup | simpl; exact Hdd | heap_lookup | lia].
  msimpl. eexists. split; [reflexivity|]. intros _.
  rewrite !list_insert_insert_eq.
  rewrite list_insert_insert_ne, list_insert_insert_eq by lia.
  rewrite (list_insert_insert_ne _ (length (heap s))) by lia.
  rewrite list_insert_insert_eq.
  rewrite insert_app_r_alt, Nat.sub_diag by lia. simpl.
  split; [split_and!|split_and!; try done].
  - intros a i Hi Hd.
    assert (a <> dl) by (intros ->; congruence).
    rewrite list_lookup_insert_ne by done. by apply heap_app_lookup_old.
  - intros a i Hi Hd. destruct (decide (a = dl)) as [->|Hne].
    + eexists. split; [eapply heap_insert_lookup, heap_app_lookup_old, Hi|].
      assert (i = di) as -> by congruence. done.
    + exists i. rewrite list_lookup_insert_ne by done.
      split; [by apply heap_app_lookup_old | done].
  - intros g ->%list_elem_of_singleton. eexists (length (heap s)), _.
    split; [|split].
    + rewrite list_lookup_insert_ne by lia. apply heap_app_lookup.
    + by split_and!.
    + done.
  - intros a i Hi Hd. destruct (decide (a = dl)) as [->|Hne].
    + erewrite heap_insert_lookup in Hi by (by eapply heap_app_lookup_old).
      injection Hi as <-. simpl in Hd. discriminate Hd.
    + rewrite list_lookup_insert_ne in Hi by done.
      apply lookup_app_Some in Hi as [Hi|[Hlen Hi]]; [by left|].
      right. exists f. split; [left|].
      destruct (a - length (heap s))%nat; [|discriminate Hi].
      injection Hi as <-. by split_and!.
  - simpl. rewrite length_insert, length_app. simpl. lia.
  - simpl. eexists. rewrite list_lookup_insert_ne by lia.
    split_and!; [apply heap_app_lookup | done | done].
  - intros a i Hi. simpl. destruct (decide (dl = a)) as [<-|Hne].
    + eexists. split; [eapply heap_insert_lookup, heap_app_lookup_old, Hdi|].
      assert (i = di) as -> by congruence.
      split; [done|]. right. eexists. unfold children. simpl. by rewrite Hdd.
    + exists i. rewrite list_lookup_insert_ne by done.
      split_and!; [by apply heap_app_lookup_old | done | by left].
Qed.

Lemma newFiles_run files : forall s dl di dd,
  heap s !! dl = Some di -> dir di = Some dd ->
  exists s',
    newFiles dl files s
      = Ok (if forallb parses files then None else Some EParseSize) s'
    /\ (forallb parses files = true ->
        built files dl (heap s) (heap s') /\ rtc id_step s s').
Proof.
  induction files as [|f files IH]; intros s dl di dd Hdi Hdd.
  { exists s. split; [done|]. intros _. split; [apply built_refl | done]. }
  destruct (newFile_run s dl f di dd Hdi Hdd) as (s1 & Hrun1 & Hb1).
  cbn [newFiles forallb]. msimpl. rewrite Hrun1.
  destruct (parses f); [|by exists s1].
  destruct (Hb1 eq_refl) as [Hb1' Hins1]. clear Hb1. rename Hb1' into Hb1.
  destruct (proj1 (proj2 Hb1) dl di Hdi) as (di1 & Hdi1 & Hdir1 & _).
  { unfold isDir. by rewrite Hdd. }
  unfold isDir in Hdir1. destruct (dir di1) as [dd1|] eqn:Hdd1; [|done].
  destruct (IH s1 dl di1 dd1 Hdi1 Hdd1) as (s' & Hrun & Hb).
  exists s'. split; [done|]. intros Hall. simpl in Hall.
  destruct (Hb Hall) as [Hb' Hsteps]. split.
  - eapply built_trans; [exact Hb1 | exact Hb'].
  - eapply rtc_l; [right; exact Hins1 | exact Hsteps].
Qed.

Lemma made_refl h : made [] h h.
Proof.
  split_and!; try done.
  - intros a i Hi Hd. by exists i.
  - by intros acc f ?%elem_of_nil.
  - intros a i Hi Hd. by left.
Qed.

Lemma made_trans acc payload h h1 h2 :
  made [acc] h h1 -> made payload h1 h2 -> made (acc :: payload) h h2.
Proof.
  intros (Hf1 & Hd1 & Hn1 & Ho1) (Hf2 & Hd2 & Hn2 & Ho2). split_and!.
  - intros a i Hi Hd. eapply Hf2; [by eapply Hf1 | done].
  - intros a i Hi Hd. destruct (Hd1 _ _ Hi Hd) as (i1 & Hi1 & Hd1' & Hn1').
    destruct (Hd2 _ _ Hi1 Hd1') as (i2 & Hi2 & Hd2' & Hn2').
    exists i2. split_and!; try done. congruence.
  - intros acc' f [->|Hacc]%elem_of_cons Hf; [|by apply Hn2].
    destruct (Hn1 acc f ltac:(left) Hf)
      as (a & i & dl & di & Hi & Hfo & Hpar & Hdi & Hdir & Hname).
    destruct (Hd2 _ _ Hdi Hdir) as (di2 & Hdi2 & Hdir2 & Hname2).
    exists a, i, dl, di2. split_and!; try done; [|congruence].
    eapply Hf2; [done | apply Hfo].
  - intros a i Hi Hd. destruct (Ho2 _ _ Hi Hd) as [Hi1|(acc' & f & ? & ? & ?)].
    + destruct (Ho1 _ _ Hi1 Hd) as [Hi0|(acc' & f & Hacc & ? & ?)]; [by left|].
      right. exists acc', f. apply list_elem_of_singleton in Hacc as ->.
      split_and!; [left | done | done].
    + right. exists acc', f. split_and!; [by right | done | done].
Qed.

(** One accession: the run of the outer loop's body. *)
Lemma newAccession_run s root acc ri rd :
  heap s !! root = Some ri -> dir ri = Some rd ->
  exists s',
    newAccession root acc s
      = Ok (if forallb parses (Files acc) then None else Some EParseSize) s'
    /\ (forallb parses (Files acc) = true ->
        made [acc] (heap s) (heap s') /\ rtc id_step s s').
Proof.
  intros Hri Hrd.
  assert (Hlt : (root < length (heap s))%nat) by (by eapply lookup_lt_Some).
  unfold newAccession, NewInode, ToDir, touch. msimpl. do 2 mstep.
  erewrite insertInode_run; [| heap_lookup | exact Hrd | heap_lookup | lia].
  msimpl. rewrite !list_insert_insert_eq.
  rewrite insert_app_r_alt, Nat.sub_diag by lia. simpl.
  set (dino := set_Id _ _). set (ri1 := set_dir _ ri).
  set (s1 := mkState _ _ _ _).
  assert (Hd1 : heap s1 !! length (heap s) = Some dino).
  { simpl. rewrite list_lookup_insert_ne by lia. apply heap_app_lookup. }
  destruct (newFiles_run (Files acc) s1 (length (heap s)) dino _ Hd1 eq_refl)
    as (s' & Hrun & Hb).
  rewrite Hrun. exists s'. split; [done|]. intros Hall.
  destruct (Hb Hall) as [(Hf & Hd & Hn & Ho) Hsteps]. simpl in Hf, Hd, Ho.
  split; [split_and!|].
  - intros a i Hi Hdir. apply Hf; [|done].
    assert (a <> root) by (intros ->; congruence).
    rewrite list_lookup_insert_ne by done. by apply heap_app_lookup_old.
  - intros a i Hi Hdir. destruct (decide (a = root)) as [->|Hne].
    + assert (i = ri) as -> by congruence.
      destruct (Hd root ri1) as (i' & Hi' & Hdir' & Hname'); [|done|].
      { eapply heap_insert_lookup, heap_app_lookup_old, Hri. }
      by exists i'.
    + apply (Hd a i); [|done].
      rewrite list_lookup_insert_ne by done. by apply heap_app_lookup_old.
  - intros acc' f ->%list_elem_of_singleton Hfin.
    destruct (Hn f Hfin) as (a & i & Hi & Hfo & Hpar).
    destruct (Hd (length (heap s)) dino) as (di' & Hdi' & Hdir' & Hname');
      [exact Hd1 | done |].
    by exists a, i, (length (heap s)), di'.
  - intros a i Hi Hdir. destruct (Ho a i Hi Hdir) as [Hi1|(f & Hfin & Hfo)].
    + left. destruct (decide (a = root)) as [->|Hne].
      { erewrite heap_insert_lookup in Hi1 by (by eapply heap_app_lookup_old).
        injection Hi1 as <-. simpl in Hdir. discriminate Hdir. }
      rewrite list_lookup_insert_ne in Hi1 by done.
      apply lookup_app_Some in Hi1 as [Hi1|[Hlen Hi1]]; [done|].
      destruct (a - length (heap s))%nat; [|discriminate Hi1].
      injection Hi1 as <-. simpl in Hdir. discriminate Hdir.
    + right. exists acc, f. split_and!; [left | done | done].
  - eapply rtc_l; [right | exact Hsteps]. split_and!; try done.
    + simpl. rewrite length_insert, length_app. simpl. lia.
    + exists dino. split_and!; [done | done |].
      unfold children. simpl. congruence.
    + intros a i Hi. simpl. destruct (decide (root = a)) as [<-|Hne].
      * eexists. split; [eapply heap_insert_lookup, heap_app_lookup_old, Hri|].
        assert (i = ri) as -> by congruence.
        split; [done|]. right. eexists. unfold children. simpl. by rewrite Hrd.
      * exists i. rewrite list_lookup_insert_ne by done.
        split_and!; [by apply heap_app_lookup_old | done | by left].
Qed.

Lemma newAccessions_run payload : forall s root ri rd,
  heap s !! root = Some ri -> dir ri = Some rd ->
  exists s',
    newAccessions root payload s
      = Ok (if forallb (fun acc => forallb parses (Files acc)) payload
            then None else Some EParseSize) s'
    /\ (forallb (fun acc => forallb parses (Files acc)) payload = true ->
        made payload (heap s) (heap s') /\ rtc id_step s s').
Proof.
  induction payload as [|acc payload IH]; intros s root ri rd Hri Hrd.
  { exists s. split; [done|]. intros _. split; [apply made_refl | done]. }
  destruct (newAccession_run s root acc ri rd Hri Hrd) as (s1 & Hrun1 & Hm1).
  cbn [newAccessions forallb]. msimpl. rewrite Hrun1.
  destruct (forallb parses (Files acc)); [|by exists s1].
  destruct (Hm1 eq_refl) as [Hm1' Hsteps1]. clear Hm1. rename Hm1' into Hm1.
  destruct (proj1 (proj2 Hm1) root ri Hri) as (ri1 & Hri1 & Hdir1 & _).
  { unfold isDir. by rewrite Hrd. }
  unfold isDir in Hdir1. destruct (dir ri1) as [rd1|] eqn:Hrd1; [|done].
  destruct (IH s1 root ri1 rd1 Hri1 Hrd1) as (s' & Hrun & Hm).
  exists s'. split; [done|]. intros Hall. simpl in Hall.
  destruct (Hm Hall) as [Hm' Hsteps]. split.
  - eapply made_trans; [exact Hm1 | exact Hm'].
  - etrans; [exact Hsteps1 | exact Hsteps].
Qed.

(** The run of [NewFusera] on a resolved payload. *)
Lemma NewFusera_run fl payload clk :
  exists s,
    NewFusera fl (inr payload) clk
      = Ok (if forallb (fun acc => forallb parses (Files acc)) payload
            then None else Some EParseSize) s
    /\ (forallb (fun acc => forallb parses (Files acc)) payload = true ->
        (exists root, made payload [root] (heap s) /\ isDir root = true)
        /\ exists s0, ids_ok s0 /\ tree_ok s0 /\ rtc id_step s0 s).
Proof.
  unfold NewFusera, NewFusera_build, blank, NewInode, ToDir. msimpl.
  do 3 mstep. simpl.
  match goal with |- context [newAccessions 0%nat payload ?s0] =>
    destruct (newAccessions_run payload s0 0%nat _ _ eq_refl eq_refl)
      as (s & Hrun & Hm)
  end.
  exists s. split; [exact Hrun|]. intros Hall.
  destruct (Hm Hall) as [Hmade Hsteps]. split.
  - eexists. split; [exact Hmade | done].
  - eexists. split_and!; [| |exact Hsteps].
    + unfold ids_ok. simpl. split_and!.
      * intros k a [[<- <-]|[_ Hk]]%lookup_insert_Some; [by eexists|].
        by rewrite lookup_empty in Hk.
      * intros k a [[<- <-]|[_ Hk]]%lookup_insert_Some; [done|].
        by rewrite lookup_empty in Hk.
      * by rewrite map_size_insert_None, map_size_empty.
      * by rewrite lookup_insert_eq.
    + intros [|a] p d Hp Hd; [|done]. simpl in Hp. injection Hp as <-.
      simpl in Hd. injection Hd as <-. apply map_Forall_empty.
Qed.

Lemma forallb_parses_true payload :
  Forall (fun acc => Forall (fun f => is_Some (ParseUint (f_Size f)))
                            (Files acc)) payload ->
  forallb (fun acc => forallb parses (Files acc)) payload = true.
Proof.
  induction 1 as [|acc payload Hacc _ IH]; [done|]. simpl. rewrite IH.
  rewrite andb_true_r. induction Hacc as [|f files [u Hu] _ IHf]; [done|].
  simpl. unfold parses at 1. by rewrite Hu.
Qed.

Lemma forallb_parses_false payload :
  Exists (fun acc => Exists (fun f => ParseUint (f_Size f) = None)
                            (Files acc)) payload ->
  forallb (fun acc => forallb parses (Files acc)) payload = false.
Proof.
  induction 1 as [acc payload Hacc|acc payload _ IH]; simpl.
  - apply andb_false_intro1.
    induction Hacc as [f files Hf|f files _ IHf]; simpl.
    + unfold parses. by rewrite Hf.
    + by rewrite IHf, andb_false_r.
  - by rewrite IH, andb_false_r.
Qed.

(** C8. [NewFusera] on a resolved payload: if the declared size of some
    file does not parse as an unsigned 64-bit decimal, construction returns
    the parse error and no filesystem; if all sizes parse, it returns a
    filesystem in which every file of the payload has a file inode below the
    directory inode of its accession, with the file's name and link and
    with the parsed value as its attribute size, and every file inode is the
    inode of such a file. *)
Theorem NewFusera_sizes fl payload clk :
  (Exists (fun acc => Exists (fun f => ParseUint (f_Size f) = None)
                             (Files acc)) payload ->
   (exists s, NewFusera fl (inr payload) clk = Ok (Some EParseSize) s)
   /\ constructed fl (inr payload) clk = None)
  /\ (Forall (fun acc => Forall (fun f => is_Some (ParseUint (f_Size f)))
                                (Files acc)) payload ->
      exists s,
        constructed fl (inr payload) clk = Some s
        /\ (forall acc f, acc ∈ payload -> f ∈ Files acc ->
              file_made (heap s) acc f)
        /\ (forall a i, heap s !! a = Some i -> dir i = None ->
              exists acc f, acc ∈ payload /\ f ∈ Files acc /\ file_of f i)).
Proof.
  destruct (NewFusera_run fl payload clk) as (s & Hrun & Hmade). split.
  - intros Hbad%forallb_parses_false. rewrite Hbad in Hrun.
    split; [by exists s|]. unfold constructed. by rewrite Hrun.
  - intros Hok%forallb_parses_true. rewrite Hok in Hrun.
    destruct (Hmade Hok) as [(root & (_ & _ & Hn & Ho) & Hroot) _].
    exists s. split; [unfold constructed; by rewrite Hrun|]. split; [done|].
    intros a i Hi Hd. destruct (Ho a i Hi Hd) as [Hi0|?]; [|done].
    destruct a; [|done]. injection Hi0 as ->.
    unfold isDir in Hroot. by rewrite Hd in Hroot.
Qed.

(** The theorem at the scenario of the specification: one accession with two
    files of sizes 100 and 200 gives a root, one directory inode and two file
    inodes that are its children, with attribute sizes 100 and 200, each with
    a file handle whose buffer is unpopulated; with a size that does not
    parse there is no filesystem. *)
Lemma NewFusera_sizes_witness :
  (exists s,
     constructed ex_flags (inr ex_payload) ex_clock = Some s
     /\ forall acc f, acc ∈ ex_payload -> f ∈ Files acc ->
          file_made (heap s) acc f)
  /\ match constructed ex_flags (inr ex_payload) ex_clock with
     | Some s =>
         (isDir <$> heap s) = [true; true; false; false]
         /\ ((fun i => Size (Attributes i)) <$> drop 2 (heap s)) = [100; 200]
         /\ ((fun d => Children d !! ("a.bam"%string, false))
               <$> (heap s !! 1%nat ≫= dir)) = Some (Some 2%nat)
         /\ ((fun d => Children d !! ("b.bam"%string, false))
               <$> (heap s !! 1%nat ≫= dir)) = Some (Some 3%nat)
         /\ fileHandles_tbl (fs s) !! 1 = Some (mkFileHandle 2 true)
         /\ fileHandles_tbl (fs s) !! 2 = Some (mkFileHandle 3 true)
     | None => False
     end
  /\ constructed ex_flags (inr ex_bad_payload) ex_clock = None.
Proof.
  split; [|split].
  - destruct (proj2 (NewFusera_sizes ex_flags ex_payload ex_clock))
      as (s & Hc & Hmade & _).
    { repeat constructor; by eexists. }
    exists s. split; [exact Hc | exact Hmade].
  - vm_compute. repeat split.
  - apply (proj1 (NewFusera_sizes ex_flags ex_bad_payload ex_clock)).
    constructor. apply Exists_cons_tl, Exists_cons_hd. reflexivity.
Defined.

(** ** Reachable states: inode IDs and directory tree *)

Lemma quiet_getInodeOrDie id : quiet (getInodeOrDie id).
Proof.
  apply quiet_bind; [apply quiet_get_fs|]. intros f.
  destruct (inodes f !! id); [apply quiet_ret | apply quiet_panic].
Qed.

Lemma quiet_findChildUnlockedFull parent name :
  quiet (findChildUnlockedFull parent name).
Proof.
  apply quiet_bind; [apply quiet_findChildUnlocked|]. intros [c|].
  - apply quiet_ret.
  - apply quiet_findChildUnlocked.
Qed.

Section Steps.

Variable getattr : Inode -> Errno + FuseAttributes.
Variable inflate : Fusera -> Inode -> FuseAttributes.
Variable getxattr : Inode -> string -> Errno + bytes.
Variable listxattr : Inode -> list string * option Errno.

Lemma quiet_GetInodeAttributes id op : quiet (GetInodeAttributes getattr id op).
Proof.
  apply quiet_bind; [apply quiet_getInodeOrDie|]. intros a.
  apply quiet_bind; [apply quiet_load|]. intros i.
  destruct (getattr i); [apply quiet_ret|].
  apply quiet_bind; [apply quiet_now|]. intros t.
  apply quiet_bind; [apply quiet_get_fs | intros; apply quiet_ret].
Qed.

Lemma quiet_GetXattr id name op : quiet (GetXattr getxattr id name op).
Proof.
  apply quiet_bind; [apply quiet_getInodeOrDie|]. intros a.
  apply quiet_bind; [apply quiet_load|]. intros i.
  destruct (getxattr i name) as [err|value]; [apply quiet_ret|].
  cbv zeta. destruct (Z.of_nat (length (x_Dst op)) <? Z.of_nat (length value));
    apply quiet_ret.
Qed.

Lemma quiet_ListXattr id op : quiet (ListXattr listxattr id op).
Proof.
  apply quiet_bind; [apply quiet_getInodeOrDie|]. intros a.
  apply quiet_bind; [apply quiet_load|]. intros i.
  destruct (listxattr i) as [xattrs err].
  destruct (ListXattr_loop xattrs (x_Dst op) (x_BytesRead op) 0)
    as [[dst b] n]. apply quiet_ret.
Qed.

Lemma quiet_LookUpInode parent name op :
  quiet (LookUpInode inflate parent name op).
Proof.
  apply quiet_bind; [apply quiet_getInodeOrDie|]. intros a.
  apply quiet_bind; [apply quiet_findChildUnlockedFull|]. intros [c|];
    [|apply quiet_ret].
  apply quiet_bind; [by apply quiet_modify|]. intros _.
  apply quiet_bind; [apply quiet_load|]. intros i.
  apply quiet_bind; [apply quiet_get_fs|]. intros f.
  apply quiet_bind; [apply quiet_now|]. intros t1.
  apply quiet_bind; [apply quiet_now | intros; apply quiet_ret].
Qed.

(** Every request is a sequence of steps on the IDs. *)
Lemma exec_id_steps op s s' :
  exec getattr inflate getxattr listxattr op s = Ok tt s' ->
  rtc id_step s s'.
Proof.
  destruct op; cbn [exec]; intros Hrun.
  - injection Hrun as <-. apply rtc_refl.
  - apply rtc_once. left. revert Hrun.
    apply quiet_bind; [apply quiet_GetInodeAttributes | intros; apply quiet_ret].
  - apply rtc_once. left. revert Hrun.
    apply quiet_bind; [apply quiet_GetXattr | intros; apply quiet_ret].
  - apply rtc_once. left. revert Hrun.
    apply quiet_bind; [apply quiet_ListXattr | intros; apply quiet_ret].
  - apply rtc_once. left. revert Hrun.
    apply quiet_bind; [apply quiet_LookUpInode | intros; apply quiet_ret].
  - unfold OpenDir, getInodeOrDie in Hrun. msimpl in Hrun.
    destruct (inodes _ !! id) in Hrun; [|discriminate].
    msimpl in Hrun. injection Hrun as <-.
    apply rtc_once. left. split_and!; try done. intros a i Hi. by exists i.
  - unfold ReadDir in Hrun. msimpl in Hrun.
    destruct (dirHandles (fs s) !! handle); [|discriminate].
    case_run Hrun. injection Hrun as <-.
    by eapply ReadDir_loop_id_steps.
  - unfold ReleaseDirHandle in Hrun. msimpl in Hrun.
    destruct (dirHandles (fs s) !! handle); [|discriminate].
    msimpl in Hrun. injection Hrun as <-.
    apply rtc_once. left. split_and!; try done. intros a i Hi. by exists i.
  - unfold OpenFile, getInodeOrDie, Inode_OpenFile in Hrun. msimpl in Hrun.
    destruct (inodes (fs s) !! id); [|discriminate].
    destruct failure; msimpl in Hrun; injection Hrun as <-;
      apply rtc_once; left; split_and!; try done; intros a i Hi; by exists i.
  - unfold ReadFile in Hrun. msimpl in Hrun.
    destruct (fileHandles_tbl (fs s) !! handle); [|discriminate].
    msimpl in Hrun. injection Hrun as <-. apply rtc_refl.
  - injection Hrun as <-. apply rtc_refl.
  - unfold ReleaseFileHandle in Hrun. msimpl in Hrun.
    destruct (fileHandles_tbl (fs s) !! handle); [|discriminate].
    msimpl in Hrun. injection Hrun as <-.
    apply rtc_once. left. split_and!; try done. intros a i Hi. by exists i.
Qed.

Lemma reachable_ids_ok s :
  reachable getattr inflate getxattr listxattr s ->
  Z.of_nat (size (inodes (fs s))) <= MaxInt ->
  ids_ok s.
Proof.
  induction 1 as [fl payload clk s Hnew|s op s' Hs IH Hrun]; intros Hsize.
  - destruct (NewFusera_run fl payload clk) as (s1 & Hrun & Hok).
    unfold constructed in Hnew. rewrite Hrun in Hnew.
    destruct (forallb _ payload); [|discriminate].
    injection Hnew as ->.
    destruct (Hok eq_refl) as [_ (s0 & Hok0 & _ & Hsteps)].
    by eapply ids_ok_steps.
  - apply exec_id_steps in Hrun.
    eapply ids_ok_steps; [done| |done].
    apply IH. apply id_steps_size in Hrun. lia.
Qed.

(** In every reachable state the children of a directory are other objects
    of the heap: the well-formedness asked of the
    directory a [ReadDir] lists. *)
Lemma reachable_tree_ok s :
  reachable getattr inflate getxattr listxattr s -> tree_ok s.
Proof.
  induction 1 as [fl payload clk s Hnew|s op s' Hs IH Hrun].
  - destruct (NewFusera_run fl payload clk) as (s1 & Hrun & Hok).
    unfold constructed in Hnew. rewrite Hrun in Hnew.
    destruct (forallb _ payload); [|discriminate].
    injection Hnew as ->.
    destruct (Hok eq_refl) as [_ (s0 & _ & Hok0 & Hsteps)].
    by eapply tree_ok_steps.
  - apply exec_id_steps in Hrun. by eapply tree_ok_steps.
Qed.

(** C7. In every state reachable from construction by the operations, the
    inode table holding no more entries than a Go map can (which also keeps
    the 64-bit allocator from wrapping): every ID of the table is the ID of
    the inode it maps to, so no inode is in the table under two IDs; every
    ID of the table lies between the root ID and the allocator's next ID,
    which is what [allocateInodeId] hands out, so a newly allocated ID is
    strictly greater than all earlier ones; the root ID maps to the root
    inode; and no operation removes an ID from the table or maps it to
    another inode. *)
Theorem inode_ids_unique_increasing s :
  reachable getattr inflate getxattr listxattr s ->
  Z.of_nat (size (inodes (fs s))) <= MaxInt ->
  (forall k a, inodes (fs s) !! k = Some a ->
     exists i, heap s !! a = Some i /\ Id i = k)
  /\ (forall k1 k2 a,
        inodes (fs s) !! k1 = Some a -> inodes (fs s) !! k2 = Some a ->
        k1 = k2)
  /\ (forall k a, inodes (fs s) !! k = Some a ->
        RootInodeID <= k < nextInodeID (fs s))
  /\ (exists s', allocateInodeId s = Ok (nextInodeID (fs s)) s')
  /\ inodes (fs s) !! RootInodeID = Some 0%nat
  /\ (forall op s',
        exec getattr inflate getxattr listxattr op s = Ok tt s' ->
        Z.of_nat (size (inodes (fs s'))) <= MaxInt ->
        forall k a, inodes (fs s) !! k = Some a ->
                    inodes (fs s') !! k = Some a).
Proof.
  intros Hs Hsize. pose proof (reachable_ids_ok s Hs Hsize) as Hok.
  destruct Hok as (H1 & H2 & H3 & H4). split_and!; try done.
  - intros k1 k2 a Hk1 Hk2.
    destruct (H1 _ _ Hk1) as (i1 & Ha1 & <-).
    destruct (H1 _ _ Hk2) as (i2 & Ha2 & <-). congruence.
  - by eexists.
  - intros op s' Hrun Hsize'. apply exec_id_steps in Hrun.
    by eapply id_steps_keep.
Qed.

End Steps.

(** The theorem at the scenario's filesystem: the IDs 1 to 4 are in the
    table, the next one is 5, and the root ID maps to the root inode. *)
Lemma inode_ids_unique_increasing_witness :
  reachable ex_getattr ex_inflate ex_getxattr ex_listxattr ex_built
  /\ Z.of_nat (size (inodes (fs ex_built))) = 4
  /\ (forall k a, inodes (fs ex_built) !! k = Some a -> RootInodeID <= k < 5)
  /\ inodes (fs ex_built) !! RootInodeID = Some 0%nat.
Proof.
  assert (Hr : reachable ex_getattr ex_inflate ex_getxattr ex_listxattr
                         ex_built).
  { apply (reachable_new _ _ _ _ ex_flags ex_payload ex_clock).
    vm_compute. reflexivity. }
  split; [exact Hr|]. split; [by vm_compute|].
  destruct (inode_ids_unique_increasing _ _ _ _ ex_built Hr)
    as (_ & _ & H2 & _ & H4 & _).
  { by vm_compute. }
  split; [exact H2 | exact H4].
Defined.
(** ** Lookups across other requests *)






Section Stability.

Variable getattr : Inode -> Errno + FuseAttributes.
Variable inflate : Fusera -> Inode -> FuseAttributes.
Variable getxattr : Inode -> string -> Errno + bytes.
Variable listxattr : Inode -> list string * option Errno.






End Stability.





(** C3 as the specification words it does not hold: in the filesystem
    built from the scenario's payload, a lookup of [SRR1] in the root
    returns the accession directory, inode 2; the root is then opened and
    listed, the listing answering a remote file called [SRR1], which
    [ReadDir] materializes as inode 5; nothing is released, and the next
    lookup of [SRR1] in the root returns inode 5. *)
Lemma LookUpInode_id_changes :
  reachable ex_getattr ex_inflate ex_getxattr ex_listxattr ex_built
  /\ match LookUpInode ex_inflate 1 "SRR1"
             (mkChildInodeEntry 0 (mkFuseAttributes 0 0 0 0 0 0) 0 0) ex_built
     with
     | Ok (r1, None) s1 =>
         match execs ex_getattr ex_inflate ex_getxattr ex_listxattr
                 [OpOpenDir 1 ex_shadow_listing; OpReadDir 3 0 4096] s1
         with
         | Ok _ s2 =>
             match LookUpInode ex_inflate 1 "SRR1"
                     (mkChildInodeEntry 0 (mkFuseAttributes 0 0 0 0 0 0) 0 0)
                     s2
             with
             | Ok (r2, None) _ => Child r1 = 2 /\ Child r2 = 5
             | _ => False
             end
         | _ => False
         end
     | _ => False
     end.
Proof.
  split.
  - by apply (reachable_new _ _ _ _ ex_flags ex_payload ex_clock).
  - vm_compute. by split.
Qed.

(** * Further properties of the controller *)

(** ** What [ReadDir] writes *)

Lemma WriteDirent_direntLen avail d :
  WriteDirent avail d <> 0 ->
  WriteDirent avail d = direntLen d /\ direntLen d <= avail.
Proof.
  unfold WriteDirent, direntLen. cbv zeta.
  match goal with |- context [?x >? avail] => destruct (Z.gtb_spec x avail) end;
    [done | intros _; split; [done | lia]].
Qed.

Lemma direntLen_min d : direntSize <= direntLen d.
Proof.
  unfold direntLen, direntSize, direntAlignment. cbv zeta.
  set (len := Z.of_nat (String.length (d_Name d))).
  assert (0 <= len) by lia.
  pose proof (Z.mod_pos_bound len 8 ltac:(lia)).
  destruct (len mod 8 =? 0); lia.
Qed.

Lemma direntsLen_app ds1 ds2 :
  direntsLen (ds1 ++ ds2) = direntsLen ds1 + direntsLen ds2.
Proof.
  induction ds1 as [|d ds1 IH]; simpl; [done|].
  fold (direntsLen (ds1 ++ ds2)). fold (direntsLen ds1). lia.
Qed.

Lemma direntsLen_min ds : direntSize * Z.of_nat (length ds) <= direntsLen ds.
Proof.
  induction ds as [|d ds IH]; simpl; [unfold direntSize; lia|].
  fold (direntsLen ds). pose proof (direntLen_min d). unfold direntSize in *.
  lia.
Qed.

(** The loop of [ReadDir] counts in [BytesRead] the bytes of the entries it
    appends, and stays within the destination. *)
Lemma ReadDir_loop_bytes fuel : forall dh dstLen i rfs op s r err s',
  ReadDir_loop fuel dh dstLen i rfs op s = Ok (r, err) s' ->
  exists added,
    rd_Dst r = rd_Dst op ++ added
    /\ rd_BytesRead r = rd_BytesRead op + direntsLen added
    /\ (rd_BytesRead op <= dstLen -> rd_BytesRead r <= dstLen).
Proof.
  induction fuel as [|fuel IH]; intros dh dstLen i rfs op s r err s' Hrun;
    [discriminate|].
  cbn [ReadDir_loop] in Hrun.
  destruct (dh_Entries dh i) as [e|[e|]].
  - msimpl in Hrun. injection Hrun as <- _ _. exists [].
    rewrite app_nil_r. simpl. split_and!; [done | lia | done].
  - msimpl in Hrun. case_run Hrun. in_bounds Hrun Hb.
    destruct (WriteDirent _ _ =? 0) eqn:Hn.
    + msimpl in Hrun. injection Hrun as <- _ _. exists [].
      rewrite app_nil_r. simpl. split_and!; [done | lia | done].
    + apply Z.eqb_neq in Hn.
      destruct (WriteDirent_direntLen _ _ Hn) as [Hlen Hfit].
      apply IH in Hrun as (added & Hdst & Hbytes & Hbound).
      simpl in Hdst, Hbytes, Hbound.
      exists (makeDirEntry e :: added). split_and!.
      * by rewrite Hdst, <- app_assoc.
      * rewrite Hbytes, Hlen. simpl. fold (direntsLen added). lia.
      * intros Hle. apply Hbound. lia.
  - msimpl in Hrun. case_run Hrun. injection Hrun as <- _ _. exists [].
    rewrite app_nil_r. simpl. split_and!; [done | lia | done].
Qed.

(** X1. [ReadDir] called with [BytesRead] within the destination: what it
    adds to [BytesRead] is exactly the encoded size of the entries it
    appends (24 bytes of header and the name padded to a multiple of 8,
    each), [BytesRead] stays within the length of the destination, and so
    the number of entries appended is at most a 24th of the room there
    was. *)
Theorem ReadDir_bytes_within_destination
    s handle offset dstLen op r err s' :
  rd_BytesRead op <= dstLen ->
  ReadDir handle offset dstLen op s = Ok (r, err) s' ->
  exists added,
    rd_Dst r = rd_Dst op ++ added
    /\ rd_BytesRead r = rd_BytesRead op + direntsLen added
    /\ rd_BytesRead r <= dstLen
    /\ direntSize * Z.of_nat (length added) <= dstLen - rd_BytesRead op.
Proof.
  intros Hle. unfold ReadDir. msimpl.
  destruct (dirHandles (fs s) !! handle) as [dh|]; [|discriminate].
  intros Hrun. apply ReadDir_loop_bytes in Hrun
    as (added & Hdst & Hbytes & Hbound).
  exists added. specialize (Hbound Hle).
  pose proof (direntsLen_min added). split_and!; [done | done | done | lia].
Qed.

(** The theorem at the example: reading the root into 40 bytes encodes [f]
    alone, in 32 bytes. *)
Lemma ReadDir_bytes_within_destination_witness :
  exists r err s' added,
    ReadDir 7 0 40 (mkReadDirOut 0 []) ex_open = Ok (r, err) s'
    /\ rd_Dst r = added /\ rd_BytesRead r = direntsLen added
    /\ rd_BytesRead r = 32 /\ length added = 1%nat.
Proof.
  destruct (ReadDir 7 0 40 (mkReadDirOut 0 []) ex_open)
    as [[r err] s'| |] eqn:Hrun; [|by vm_compute in Hrun..].
  destruct (ReadDir_bytes_within_destination ex_open 7 0 40
              (mkReadDirOut 0 []) r err s' ltac:(simpl; lia) Hrun)
    as (added & Hdst & Hbytes & _).
  exists r, err, s', added. simpl in Hdst, Hbytes.
  split; [reflexivity|]. split; [exact Hdst|]. split; [exact Hbytes|].
  vm_compute in Hrun. injection Hrun as <- _ _. simpl in Hdst. subst added.
  split; reflexivity.
Defined.

(** X2. [ReadDir] materializes an entry before it tries to encode it: when
    the first entry the listing answers is remote and not yet a child, and
    the destination, with [BytesRead] within it, has no room for the entry,
    the call returns no entry and no error, and yet the entry's inode has been allocated, given the next
    inode ID, and registered in the inode table and in the directory. *)
Theorem ReadDir_materializes_before_encoding
    s handle dh offset dstLen op p d e :
  dirHandles (fs s) !! handle = Some dh ->
  heap s !! dh_inode dh = Some p -> dir p = Some d ->
  dh_Entries dh offset = inr (Some e) -> e_Inode e = 0 ->
  Children d !! (e_Name e, is_DT_Directory (e_Type e)) = None ->
  0 <= rd_BytesRead op <= dstLen ->
  WriteDirent (dstLen - rd_BytesRead op) (makeDirEntry e) = 0 ->
  exists s' ni p' d',
    ReadDir handle offset dstLen op s = Ok (op, None) s'
    /\ heap s' !! length (heap s) = Some ni
    /\ Name ni = e_Name e /\ Id ni = nextInodeID (fs s)
    /\ inodes (fs s')
       = <[nextInodeID (fs s) := length (heap s)]> (inodes (fs s))
    /\ heap s' !! dh_inode dh = Some p' /\ dir p' = Some d'
    /\ Children d' !! (e_Name e, is_DT_Directory (e_Type e))
       = Some (length (heap s)).
Proof.
  intros Hdh Hp Hd Hent Hremote Hc Hin Hfit.
  assert (Hlt : (dh_inode dh < length (heap s))%nat)
    by (by eapply lookup_lt_Some).
  destruct (insertInodeFromDirEntry_new _ _ e _ _ Hp Hd Hc)
    as (ni & Hrun & Hid & Hname & _).
  unfold ReadDir. msimpl. rewrite Hdh. cbn [ReadDir_loop].
  rewrite Hent, Hremote. simpl Z.eqb. msimpl. rewrite Hrun.
  replace ((rd_BytesRead op <? 0) || (dstLen <? rd_BytesRead op))
    with false by (symmetry; apply orb_false_intro; lia).
  rewrite Hfit. simpl.
  eexists _, ni, _, _. split; [reflexivity|]. simpl. split_and!.
  - rewrite list_lookup_insert_ne by lia. apply heap_app_lookup.
  - done.
  - done.
  - done.
  - eapply heap_insert_lookup, heap_app_lookup_old, Hp.
  - done.
  - simpl. apply lookup_insert_eq.
Qed.

(** The theorem at the example: reading the root, whose listing starts with
    the remote entry [g], into an empty destination returns nothing and
    leaves [g] registered as inode 3. *)
Lemma ReadDir_materializes_before_encoding_witness :
  exists s' ni,
    ReadDir 7 0 0 (mkReadDirOut 0 []) ex_open_remote
      = Ok (mkReadDirOut 0 [], None) s'
    /\ heap s' !! 2%nat = Some ni /\ Name ni = "g"%string /\ Id ni = 3
    /\ inodes (fs s') = <[3 := 2%nat]> (inodes (fs ex_open_remote)).
Proof.
  destruct (ReadDir_materializes_before_encoding ex_open_remote 7
              (mkDirHandle 0%nat ex_remote_listing) 0 0 (mkReadDirOut 0 [])
              ex_root ex_dirdata ex_new_entry
              eq_refl eq_refl eq_refl eq_refl eq_refl eq_refl
              ltac:(simpl; lia) eq_refl)
    as (s' & ni & p' & d' & Hrun & Hni & Hname & Hid & Hino & _).
  exists s', ni. split; [exact Hrun|]. split; [exact Hni|].
  split; [exact Hname|]. split; [exact Hid | exact Hino].
Defined.

(** A listing whose entries are all realized keeps the loop of [ReadDir]
    from writing to the state. *)
Lemma ReadDir_loop_realized fuel : forall dh dstLen i op s r err s',
  (forall j e, dh_Entries dh j = inr (Some e) -> e_Inode e <> 0) ->
  ReadDir_loop fuel dh dstLen i false op s = Ok (r, err) s' -> s' = s.
Proof.
  induction fuel as [|fuel IH]; intros dh dstLen i op s r err s' Hall Hrun;
    [discriminate|].
  cbn [ReadDir_loop] in Hrun.
  destruct (dh_Entries dh i) as [e|[e|]] eqn:Hent.
  - msimpl in Hrun. by injection Hrun as _ _ <-.
  - apply Hall in Hent. apply Z.eqb_neq in Hent. rewrite Hent in Hrun.
    msimpl in Hrun. in_bounds Hrun Hb. destruct (WriteDirent _ _ =? 0).
    + msimpl in Hrun. by injection Hrun as _ _ <-.
    + by eapply IH.
  - msimpl in Hrun. by injection Hrun as _ _ <-.
Qed.

(** X3. [ReadDir] writes to the filesystem only for remote entries: on a
    handle whose listing answers only entries that are already realized as
    inodes, a call that returns has written nothing, whatever it encodes
    and however it ends: inodes, tables and counters are exactly as they
    were, and the clock has not been read. *)
Theorem ReadDir_realized_listing_read_only
    s handle dh offset dstLen op r err s' :
  dirHandles (fs s) !! handle = Some dh ->
  (forall j e, dh_Entries dh j = inr (Some e) -> e_Inode e <> 0) ->
  ReadDir handle offset dstLen op s = Ok (r, err) s' ->
  s' = s.
Proof.
  intros Hdh Hall. unfold ReadDir. msimpl. rewrite Hdh.
  by apply ReadDir_loop_realized.
Qed.

(** The theorem at the example: the listing answers the realized file [f]
    at every offset; reading it into 100 bytes encodes three entries and
    changes nothing. *)
Lemma ReadDir_realized_listing_read_only_witness :
  exists r err,
    ReadDir 7 0 100 (mkReadDirOut 0 []) ex_open_realized
      = Ok (r, err) ex_open_realized
    /\ length (rd_Dst r) = 3%nat /\ rd_BytesRead r = 96.
Proof.
  destruct (ReadDir 7 0 100 (mkReadDirOut 0 []) ex_open_realized)
    as [[r err] s'| |] eqn:Hrun; [|by vm_compute in Hrun..].
  assert (Hs : s' = ex_open_realized).
  { apply (ReadDir_realized_listing_read_only ex_open_realized 7
             (mkDirHandle 0%nat ex_realized_listing) 0 100
             (mkReadDirOut 0 []) r err s' eq_refl); [|exact Hrun].
    intros j e He. cbn [dh_Entries] in He. unfold ex_realized_listing in He.
    injection He as <-. cbn [e_Inode]. lia. }
  exists r, err. split; [by rewrite Hs|].
  vm_compute in Hrun. injection Hrun as <- _ _. split; reflexivity.
Defined.

(** ** Handles: from open to release *)

(** X4. A directory handle from open to release, on a known inode and with
    the counter's value not in use. [OpenDir] registers a handle bound to
    that inode under the counter's value; [ReleaseDirHandle] then removes
    exactly that handle, so that the handle tables and the inode table are
    as before the open, while the counter stays advanced (the ID is not
    handed out again). After the release the handle is gone: a [ReadDir]
    through it and a second release both panic. *)
Theorem dir_handle_open_release s id listing a :
  inodes (fs s) !! id = Some a ->
  dirHandles (fs s) !! nextHandleID (fs s) = None ->
  exists s1 s2,
    OpenDir id listing s = Ok (nextHandleID (fs s)) s1
    /\ dirHandles (fs s1) !! nextHandleID (fs s) = Some (mkDirHandle a listing)
    /\ ReleaseDirHandle (nextHandleID (fs s)) s1 = Ok tt s2
    /\ dirHandles (fs s2) = dirHandles (fs s)
    /\ fileHandles_tbl (fs s2) = fileHandles_tbl (fs s)
    /\ inodes (fs s2) = inodes (fs s)
    /\ nextHandleID (fs s2) = u64 (nextHandleID (fs s) + 1)
    /\ (forall offset dstLen op,
          ReadDir (nextHandleID (fs s)) offset dstLen op s2 = Panic)
    /\ ReleaseDirHandle (nextHandleID (fs s)) s2 = Panic.
Proof.
  intros Ha Hfresh. eexists _, _.
  split; [by rewrite (OpenDir_run _ _ _ _ Ha)|]. simpl.
  split; [apply lookup_insert_eq|].
  unfold ReleaseDirHandle, ReadDir. msimpl. cbn [dirHandles set_dirHandles].
  rewrite lookup_insert_eq. msimpl. cbn [dirHandles set_dirHandles].
  split; [reflexivity|]. simpl.
  rewrite delete_insert_eq, (delete_id _ _ Hfresh), Hfresh.
  by split_and!.
Qed.

(** The theorem at the example: the root is opened under handle 1 and
    released; handle 1 is then unknown. *)
Lemma dir_handle_open_release_witness :
  exists s1 s2,
    OpenDir 1 ex_listing ex_state = Ok 1 s1
    /\ ReleaseDirHandle 1 s1 = Ok tt s2
    /\ dirHandles (fs s2) = dirHandles (fs ex_state)
    /\ nextHandleID (fs s2) = 2
    /\ ReleaseDirHandle 1 s2 = Panic.
Proof.
  destruct (dir_handle_open_release ex_state 1 ex_listing 0%nat
              eq_refl eq_refl)
    as (s1 & s2 & Hopen & _ & Hrel & Hdh & _ & _ & Hnext & _ & Hrel2).
  exists s1, s2. split; [exact Hopen|]. split; [exact Hrel|].
  split; [exact Hdh|]. split; [exact Hnext | exact Hrel2].
Defined.

(** X5. A file handle from open to release, on a known inode and with the
    counter's value not in use. A failed [OpenFile] returns the error and
    leaves state and [op] alone: no handle ID is consumed. A successful one
    registers the handle under the counter's value and sets
    [KeepPageCache]; [ReadFile] through the handle answers what the handle's
    buffer answers and leaves the controller alone; [ReleaseFileHandle]
    then removes exactly that handle, the handle tables and the inode table
    being as before the open and the counter staying advanced. A second
    release of the handle panics. *)
Theorem file_handle_open_release s id op a :
  inodes (fs s) !! id = Some a ->
  fileHandles_tbl (fs s) !! nextHandleID (fs s) = None ->
  (forall err, OpenFile id (Some err) op s = Ok (op, Some err) s)
  /\ exists s1 s2,
       OpenFile id None op s
         = Ok (mkOpenFileOut (nextHandleID (fs s)) true, None) s1
       /\ (forall fetched,
             ReadFile (nextHandleID (fs s)) fetched s1 = Ok fetched s1)
       /\ ReleaseFileHandle (nextHandleID (fs s)) s1 = Ok tt s2
       /\ fileHandles_tbl (fs s2) = fileHandles_tbl (fs s)
       /\ dirHandles (fs s2) = dirHandles (fs s)
       /\ inodes (fs s2) = inodes (fs s)
       /\ nextHandleID (fs s2) = u64 (nextHandleID (fs s) + 1)
       /\ ReleaseFileHandle (nextHandleID (fs s)) s2 = Panic.
Proof.
  intros Ha Hfresh. split.
  { intros err. unfold OpenFile, getInodeOrDie. msimpl. by rewrite Ha. }
  eexists _, _.
  split; [by rewrite (OpenFile_run _ _ _ _ Ha)|]. simpl.
  unfold ReleaseFileHandle, ReadFile. msimpl.
  cbn [fileHandles_tbl set_fileHandles_tbl set_nextHandleID].
  rewrite lookup_insert_eq. msimpl.
  cbn [fileHandles_tbl set_fileHandles_tbl set_nextHandleID].
  split; [done|]. split; [reflexivity|]. simpl.
  rewrite delete_insert_eq, (delete_id _ _ Hfresh), Hfresh.
  by split_and!.
Qed.

(** The theorem at the example: the file [f] is opened under handle 1, read
    and released; a second release panics. *)
Lemma file_handle_open_release_witness :
  OpenFile 2 (Some (EOther 12)) (mkOpenFileOut 0 false) ex_state
    = Ok (mkOpenFileOut 0 false, Some (EOther 12)) ex_state
  /\ exists s1 s2,
       OpenFile 2 None (mkOpenFileOut 0 false) ex_state
         = Ok (mkOpenFileOut 1 true, None) s1
       /\ ReadFile 1 (5, None) s1 = Ok (5, None) s1
       /\ ReleaseFileHandle 1 s1 = Ok tt s2
       /\ fileHandles_tbl (fs s2) = fileHandles_tbl (fs ex_state)
       /\ ReleaseFileHandle 1 s2 = Panic.
Proof.
  destruct (file_handle_open_release ex_state 2 (mkOpenFileOut 0 false)
              1%nat eq_refl eq_refl)
    as (Hfail & s1 & s2 & Hopen & Hread & Hrel & Hfh & _ & _ & _ & Hrel2).
  split; [exact (Hfail (EOther 12))|].
  exists s1, s2. split; [exact Hopen|]. split; [exact (Hread (5, None))|].
  split; [exact Hrel|]. split; [exact Hfh | exact Hrel2].
Defined.

(** ** Requests and the inode table *)

Section Requests.

Variable getattr : Inode -> Errno + FuseAttributes.
Variable inflate : Fusera -> Inode -> FuseAttributes.
Variable getxattr : Inode -> string -> Errno + bytes.
Variable listxattr : Inode -> list string * option Errno.

(** X6. An inode ID that is not in the table is fatal to every request that
    names an inode: [GetXattr], [ListXattr], [LookUpInode] (for the parent),
    [OpenDir] and [OpenFile] all panic in [getInodeOrDie], none returns an
    error. *)
Theorem unknown_inode_panics s id :
  inodes (fs s) !! id = None ->
  (forall name op, GetXattr getxattr id name op s = Panic)
  /\ (forall op, ListXattr listxattr id op s = Panic)
  /\ (forall name op, LookUpInode inflate id name op s = Panic)
  /\ (forall listing, OpenDir id listing s = Panic)
  /\ (forall failure op, OpenFile id failure op s = Panic).
Proof.
  intros Hid. split_and!; intros;
    unfold GetXattr, ListXattr, LookUpInode, OpenDir, OpenFile, getInodeOrDie;
    msimpl; cbn [inodes set_nextHandleID]; by rewrite Hid.
Qed.

(** X7. Inodes come into being in [ReadDir] only: every other request that
    returns leaves the inode table and the ID allocator as they were,
    allocates no inode, and leaves every inode its ID and, if it is a
    directory, its children. *)
Theorem only_ReadDir_allocates op s s' :
  is_ReadDir op = false ->
  exec getattr inflate getxattr listxattr op s = Ok tt s' ->
  inodes (fs s') = inodes (fs s)
  /\ nextInodeID (fs s') = nextInodeID (fs s)
  /\ length (heap s') = length (heap s)
  /\ forall a i, heap s !! a = Some i ->
       exists i', heap s' !! a = Some i' /\ Id i' = Id i
                  /\ children i' = children i.
Proof.
  intros Hop Hrun. change (same_ids s s'). revert Hop Hrun.
  destruct op; cbn [exec is_ReadDir]; intros Hop Hrun; try discriminate Hop.
  - injection Hrun as <-. apply same_ids_refl.
  - revert Hrun.
    apply quiet_bind; [apply quiet_GetInodeAttributes | intros; apply quiet_ret].
  - revert Hrun.
    apply quiet_bind; [apply quiet_GetXattr | intros; apply quiet_ret].
  - revert Hrun.
    apply quiet_bind; [apply quiet_ListXattr | intros; apply quiet_ret].
  - revert Hrun.
    apply quiet_bind; [apply quiet_LookUpInode | intros; apply quiet_ret].
  - unfold OpenDir, getInodeOrDie in Hrun. msimpl in Hrun.
    destruct (inodes _ !! id) in Hrun; [|discriminate].
    msimpl in Hrun. injection Hrun as <-.
    split_and!; try done. intros a i Hi. by exists i.
  - unfold ReleaseDirHandle in Hrun. msimpl in Hrun.
    destruct (dirHandles (fs s) !! handle); [|discriminate].
    msimpl in Hrun. injection Hrun as <-.
    split_and!; try done. intros a i Hi. by exists i.
  - unfold OpenFile, getInodeOrDie, Inode_OpenFile in Hrun. msimpl in Hrun.
    destruct (inodes (fs s) !! id); [|discriminate].
    destruct failure; msimpl in Hrun; injection Hrun as <-;
      split_and!; try done; intros a i Hi; by exists i.
  - unfold ReadFile in Hrun. msimpl in Hrun.
    destruct (fileHandles_tbl (fs s) !! handle); [|discriminate].
    msimpl in Hrun. injection Hrun as <-. apply same_ids_refl.
  - injection Hrun as <-. apply same_ids_refl.
  - unfold ReleaseFileHandle in Hrun. msimpl in Hrun.
    destruct (fileHandles_tbl (fs s) !! handle); [|discriminate].
    msimpl in Hrun. injection Hrun as <-.
    split_and!; try done. intros a i Hi. by exists i.
Qed.

(** X8. The requests that only ask ([StatFS], [GetInodeAttributes],
    [GetXattr], [ListXattr], [ReadFile], [SyncFile]) write nothing of their
    own (the inode and handle methods they call being taken to only
    answer): when one returns, with or without an error, the inodes and the
    whole controller (tables, counters, configuration) are as before; at
    most the clock has been read. *)
Theorem queries_write_nothing op s s' :
  is_query op = true ->
  exec getattr inflate getxattr listxattr op s = Ok tt s' ->
  heap s' = heap s /\ fs s' = fs s /\ clock s' = clock s
  /\ (ticks s <= ticks s')%nat.
Proof.
  destruct op; cbn [exec is_query]; intros Hop Hrun; try discriminate Hop.
  - by injection Hrun as <-.
  - unfold GetInodeAttributes, getInodeOrDie, load in Hrun. msimpl in Hrun.
    destruct (inodes (fs s) !! id); [|discriminate]. msimpl in Hrun.
    destruct (heap s !! n); [|discriminate].
    destruct (getattr i); msimpl in Hrun; injection Hrun as <-;
      split_and!; simpl; try done; lia.
  - unfold GetXattr, getInodeOrDie, load in Hrun. msimpl in Hrun.
    destruct (inodes (fs s) !! id); [|discriminate]. msimpl in Hrun.
    destruct (heap s !! n); [|discriminate].
    destruct (getxattr i name); [by injection Hrun as <-|].
    cbv zeta in Hrun.
    destruct (Z.of_nat (length (x_Dst (mkXattrOut dst 0))) <? _) in Hrun;
      by injection Hrun as <-.
  - unfold ListXattr, getInodeOrDie, load in Hrun. msimpl in Hrun.
    destruct (inodes (fs s) !! id); [|discriminate]. msimpl in Hrun.
    destruct (heap s !! n); [|discriminate].
    destruct (listxattr i) as [xattrs err].
    destruct (ListXattr_loop _ _ _ _) as [[dst' b] nc] in Hrun.
    by injection Hrun as <-.
  - unfold ReadFile in Hrun. msimpl in Hrun.
    destruct (fileHandles_tbl (fs s) !! handle); [|discriminate].
    msimpl in Hrun. by injection Hrun as <-.
  - by injection Hrun as <-.
Qed.

End Requests.

(** The theorem at the example: inode 99 is unknown. *)
Lemma unknown_inode_panics_witness :
  GetXattr ex_getxattr 99 "etag" (mkXattrOut [] 0) ex_state = Panic
  /\ LookUpInode ex_inflate 99 "f"
       (mkChildInodeEntry 0 (mkFuseAttributes 0 0 0 0 0 0) 0 0) ex_state
     = Panic
  /\ OpenDir 99 ex_listing ex_state = Panic.
Proof.
  destruct (unknown_inode_panics ex_inflate ex_getxattr ex_listxattr
              ex_state 99 eq_refl) as (Hg & _ & Hl & Ho & _).
  split; [apply Hg|]. split; [apply Hl | apply Ho].
Defined.

(** The theorem at the example: a lookup of [f] in the root takes a
    reference and leaves the inode table alone. *)
Lemma only_ReadDir_allocates_witness :
  exists s',
    exec ex_getattr ex_inflate ex_getxattr ex_listxattr
      (OpLookUpInode 1 "f") ex_state = Ok tt s'
    /\ inodes (fs s') = inodes (fs ex_state)
    /\ length (heap s') = 2%nat.
Proof.
  destruct (exec ex_getattr ex_inflate ex_getxattr ex_listxattr
              (OpLookUpInode 1 "f") ex_state) as [[] s'| |] eqn:Hrun;
    [|by vm_compute in Hrun..].
  destruct (only_ReadDir_allocates ex_getattr ex_inflate ex_getxattr
              ex_listxattr (OpLookUpInode 1 "f") ex_state s' eq_refl Hrun)
    as (Hino & _ & Hlen & _).
  exists s'. split; [reflexivity|]. split; [exact Hino | exact Hlen].
Defined.

(** The theorem at the example: asking for the attributes of inode 2 reads
    the clock and nothing else. *)
Lemma queries_write_nothing_witness :
  exists s',
    exec ex_getattr ex_inflate ex_getxattr ex_listxattr
      (OpGetInodeAttributes 2) ex_state = Ok tt s'
    /\ heap s' = heap ex_state /\ fs s' = fs ex_state.
Proof.
  destruct (exec ex_getattr ex_inflate ex_getxattr ex_listxattr
              (OpGetInodeAttributes 2) ex_state) as [[] s'| |] eqn:Hrun;
    [|by vm_compute in Hrun..].
  destruct (queries_write_nothing ex_getattr ex_inflate ex_getxattr
              ex_listxattr (OpGetInodeAttributes 2) ex_state s' eq_refl Hrun)
    as (Hheap & Hfs & _).
  exists s'. split; [reflexivity|]. split; [exact Hheap | exact Hfs].
Defined.

(** ** Materialization composed with itself and with lookups *)



Section Addressing.

Variable getattr : Inode -> Errno + FuseAttributes.
Variable inflate : Fusera -> Inode -> FuseAttributes.

(** X10. An inode materialized from a listing entry can at once be
    addressed, by ID and by name. The directory being registered under an
    ID other than the next one to hand out: after
    [insertInodeFromDirEntry] has made the inode, [getInodeOrDie] finds it
    under the ID it was given, so that [GetInodeAttributes] for that ID
    answers what the inode's getter answers; and [LookUpInode] for the
    entry's name in that directory returns that ID and takes the first
    reference (unless the entry is a directory and a file of that name
    exists, which the lookup prefers). *)
Theorem materialized_inode_addressable s dirId parent p d e :
  inodes (fs s) !! dirId = Some parent ->
  dirId <> nextInodeID (fs s) ->
  heap s !! parent = Some p -> dir p = Some d ->
  Children d !! (e_Name e, is_DT_Directory (e_Type e)) = None ->
  Children d !! (e_Name e, false) = None ->
  exists s1 ni,
    insertInodeFromDirEntry parent e s = Ok (length (heap s)) s1
    /\ heap s1 !! length (heap s) = Some ni
    /\ getInodeOrDie (nextInodeID (fs s)) s1 = Ok (length (heap s)) s1
    /\ (forall op, exists r s2,
          GetInodeAttributes getattr (nextInodeID (fs s)) op s1 = Ok r s2
          /\ match getattr ni with
             | inr attr => ga_Attributes r.1 = attr /\ r.2 = None
             | inl err => r = (op, Some err)
             end)
    /\ (forall op, exists r s2 ni',
          LookUpInode inflate dirId (e_Name e) op s1 = Ok (r, None) s2
          /\ Child r = nextInodeID (fs s)
          /\ heap s2 !! length (heap s) = Some ni'
          /\ refcnt ni' = 1).
Proof.
  intros Hdir Hne Hp Hd Hc Hfile.
  assert (Hlt : (parent < length (heap s))%nat) by (by eapply lookup_lt_Some).
  destruct (insertInodeFromDirEntry_new _ _ e _ _ Hp Hd Hc)
    as (ni & Hrun & Hid & _ & _ & Hr & _).
  set (s1 := mkState _ _ _ _) in Hrun.
  assert (Hni : heap s1 !! length (heap s) = Some ni).
  { subst s1. simpl. rewrite list_lookup_insert_ne by lia.
    apply heap_app_lookup. }
  assert (Hnew : inodes (fs s1) !! nextInodeID (fs s)
                 = Some (length (heap s))).
  { subst s1. simpl. apply lookup_insert_eq. }
  exists s1, ni. split; [exact Hrun|]. split; [exact Hni|]. split_and!.
  - unfold getInodeOrDie. msimpl. by rewrite Hnew.
  - intros op. unfold GetInodeAttributes, getInodeOrDie. msimpl.
    rewrite Hnew. msimpl. rewrite (load_run _ _ _ Hni).
    destruct (getattr ni); msimpl; by eexists _, _.
  - intros op.
    assert (Hdir1 : inodes (fs s1) !! dirId = Some parent).
    { subst s1. simpl. by rewrite lookup_insert_ne. }
    assert (Hp1 : heap s1 !! parent
                  = Some (set_dir (Some (mkDir
                      (<[(e_Name e, is_DT_Directory (e_Type e))
                           := length (heap s)]> (Children d)) (DirTime d))) p)).
    { subst s1. simpl. eapply heap_insert_lookup, heap_app_lookup_old, Hp. }
    erewrite (LookUpInode_hit inflate s1 dirId (e_Name e) op parent _ _
                (length (heap s)) ni Hdir1 Hp1 eq_refl); [| |exact Hni].
    + eexists _, _, _. split; [reflexivity|]. simpl. split; [done|].
      split; [by eapply heap_insert_lookup|]. simpl. lia.
    + unfold child_named. simpl.
      destruct (is_DT_Directory (e_Type e)) eqn:Hk.
      * rewrite lookup_insert_ne by congruence. rewrite Hfile.
        apply lookup_insert_eq.
      * by rewrite lookup_insert_eq.
Qed.

End Addressing.

(** The theorem at the example: [g], materialized in the root, is inode 3,
    and a lookup of [g] in the root returns 3. *)
Lemma materialized_inode_addressable_witness :
  exists s1,
    insertInodeFromDirEntry 0%nat ex_new_entry ex_state = Ok 2%nat s1
    /\ getInodeOrDie 3 s1 = Ok 2%nat s1
    /\ exists r s2,
         LookUpInode ex_inflate 1 "g"
           (mkChildInodeEntry 0 (mkFuseAttributes 0 0 0 0 0 0) 0 0) s1
           = Ok (r, None) s2
         /\ Child r = 3.
Proof.
  destruct (materialized_inode_addressable ex_getattr ex_inflate ex_state 1
              0%nat ex_root ex_dirdata ex_new_entry eq_refl
              ltac:(simpl; lia) eq_refl eq_refl eq_refl eq_refl)
    as (s1 & ni & Hrun & _ & Hget & _ & Hlook).
  destruct (Hlook (mkChildInodeEntry 0 (mkFuseAttributes 0 0 0 0 0 0) 0 0))
    as (r & s2 & ni' & Hl & Hchild & _).
  exists s1. split; [exact Hrun|]. split; [exact Hget|].
  exists r, s2. split; [exact Hl | exact Hchild].
Defined.

(** ** Construction, step by step *)

(** One file whose size parses: the run of [newFile]. *)
Lemma newFile_explicit s dl f di dd u :
  heap s !! dl = Some di -> dir di = Some dd ->
  ParseUint (f_Size f) = Some u ->
  exists fi di' t,
    newFile dl f s =
      Ok None (mkState
        (<[dl := di']> (heap s ++ [fi]))
        (mkFusera (flags (fs s)) (umask (fs s)) (rootAttrs (fs s))
           (u64 (nextInodeID (fs s) + 1))
           (<[nextInodeID (fs s) := length (heap s)]> (inodes (fs s)))
           (u64 (nextHandleID (fs s) + 1)) (dirHandles (fs s))
           (<[nextHandleID (fs s) := mkFileHandle (length (heap s)) true]>
              (fileHandles_tbl (fs s)))
           (forgotCnt (fs s)))
        (clock s) t)
    /\ (dir fi = None /\ Name fi = f_Name f /\ Link fi = f_Link f
        /\ Size (Attributes fi) = u /\ Id fi = nextInodeID (fs s)
        /\ Parent fi = Some dl /\ fileHandles fi = 1)
    /\ (dir di'
        = Some (mkDir (<[(f_Name f, false) := length (heap s)]> (Children dd))
                      (DirTime dd))
        /\ Id di' = Id di /\ Name di' = Name di /\ Parent di' = Parent di).
Proof.
  intros Hdi Hdd Hu.
  assert (Hlt : (dl < length (heap s))%nat) by (by eapply lookup_lt_Some).
  unfold newFile, NewInode, touch. msimpl. mstep. rewrite Hu.
  msimpl. do 3 mstep.
  erewrite insertInode_run; [| heap_lookup | simpl; exact Hdd | heap_lookup | lia].
  msimpl. rewrite !list_insert_insert_eq.
  rewrite list_insert_insert_ne, list_insert_insert_eq by lia.
  rewrite (list_insert_insert_ne _ (length (heap s))) by lia.
  rewrite list_insert_insert_eq.
  rewrite insert_app_r_alt, Nat.sub_diag by lia. simpl.
  eexists _, _, _. split; [reflexivity|]. by split_and!.
Qed.

Lemma grown_refl s : grown 0 0 s s.
Proof.
  unfold grown. rewrite Nat.add_0_r, !Z.add_0_r. split_and!; try done.
  - intros k Hk. lia.
  - intros h Hh. lia.
  - intros a i Hi. by exists i.
Qed.

Lemma grown_trans m1 n1 m2 n2 s s1 s2 :
  grown m1 n1 s s1 -> grown m2 n2 s1 s2 ->
  grown (m1 + m2) (n1 + n2) s s2.
Proof.
  intros (Hc1 & Hd1 & Hk1 & Hl1 & Hi1 & Hh1 & Ho1 & Hn1 & Hho1 & Hhn1 & Hf1 & Hid1)
         (Hc2 & Hd2 & Hk2 & Hl2 & Hi2 & Hh2 & Ho2 & Hn2 & Hho2 & Hhn2 & Hf2 & Hid2).
  unfold grown. split_and!; try congruence.
  - lia.
  - lia.
  - lia.
  - intros id Hid. rewrite Ho2, Ho1; [done | lia | lia].
  - intros k Hk. destruct (decide (k < m1)%nat) as [Hlt|Hge].
    + destruct (Hn1 k Hlt) as (Htbl & i & Hi & Hidi).
      split.
      * rewrite Ho2 by lia. exact Htbl.
      * destruct (Hid2 _ _ Hi) as (i' & Hi' & Hidi' & _).
        exists i'. split; [done | congruence].
    + destruct (Hn2 (k - m1)%nat ltac:(lia)) as (Htbl & i & Hi & Hidi).
      rewrite Hi1 in Htbl, Hidi. rewrite Hl1 in Htbl, Hi.
      replace (nextInodeID (fs s) + Z.of_nat m1 + Z.of_nat (k - m1))
        with (nextInodeID (fs s) + Z.of_nat k) in * by lia.
      replace (length (heap s) + m1 + (k - m1))%nat
        with (length (heap s) + k)%nat in * by lia.
      split; [done | by exists i].
  - intros h Hh. rewrite Hho2, Hho1; [done | lia | lia].
  - intros h Hh.
    destruct (decide (h < nextHandleID (fs s) + Z.of_nat n1)) as [Hlt|Hge].
    + destruct (Hhn1 h ltac:(lia)) as (a & i & Htbl & Hi & Hdir & Hfh).
      exists a, i. split_and!; try done.
      * rewrite Hho2 by lia. exact Htbl.
      * by apply Hf2.
    + destruct (Hhn2 h ltac:(lia)) as (a & i & Htbl & Hi & Hdir & Hfh).
      by exists a, i.
  - intros a i Hi Hdir. apply Hf2; [by apply Hf1 | done].
  - intros a i Hi. destruct (Hid1 _ _ Hi) as (i1 & Hi1' & Hidi1 & Hk1').
    destruct (Hid2 _ _ Hi1') as (i2 & Hi2' & Hidi2 & Hk2').
    exists i2. split_and!; [done | congruence | congruence].
Qed.

(** One file: [newFile] makes one inode and one handle. *)
Lemma newFile_grown s dl f di dd :
  heap s !! dl = Some di -> dir di = Some dd ->
  parses f = true ->
  0 <= nextInodeID (fs s) < two64 - 1 ->
  0 <= nextHandleID (fs s) < two64 - 1 ->
  exists s', newFile dl f s = Ok None s' /\ grown 1 1 s s'.
Proof.
  intros Hdi Hdd Hparse Hni Hnh. unfold parses in Hparse.
  destruct (ParseUint (f_Size f)) as [u|] eqn:Hu; [|discriminate].
  assert (Hlt : (dl < length (heap s))%nat) by (by eapply lookup_lt_Some).
  destruct (newFile_explicit s dl f di dd u Hdi Hdd Hu)
    as (fi & di' & t & Hrun & (Hfd & _ & _ & _ & Hfid & _ & Hffh)
        & (Hdd' & Hdid & _)).
  eexists. split; [exact Hrun|].
  assert (Hnew : (<[dl := di']> (heap s ++ [fi])) !! length (heap s) = Some fi).
  { rewrite list_lookup_insert_ne by lia. apply heap_app_lookup. }
  unfold grown. simpl. split_and!; try done.
  - rewrite length_insert, length_app. simpl. lia.
  - unfold u64, two64 in *. apply Z.mod_small. lia.
  - unfold u64, two64 in *. apply Z.mod_small. lia.
  - intros id Hid. rewrite lookup_insert_ne; [done | lia].
  - intros k Hk. assert (k = 0%nat) as -> by lia.
    rewrite Z.add_0_r, Nat.add_0_r. split; [apply lookup_insert_eq|].
    by exists fi.
  - intros h Hh. rewrite lookup_insert_ne; [done | lia].
  - intros h Hh. assert (h = nextHandleID (fs s)) as -> by lia.
    exists (length (heap s)), fi. split; [apply lookup_insert_eq|].
    by split_and!.
  - intros a i Hi Hdir.
    assert (a <> dl) by (intros ->; congruence).
    rewrite list_lookup_insert_ne by done. by apply heap_app_lookup_old.
  - intros a i Hi. destruct (decide (dl = a)) as [<-|Hne].
    + exists di'.
      split; [eapply heap_insert_lookup, heap_app_lookup_old, Hdi|].
      assert (i = di) as -> by congruence.
      split; [done|]. unfold isDir. by rewrite Hdd', Hdd.
    + exists i. rewrite list_lookup_insert_ne by done.
      split; [by apply heap_app_lookup_old | done].
Qed.

Lemma newFiles_grown files : forall s dl di,
  heap s !! dl = Some di -> isDir di = true ->
  forallb parses files = true ->
  0 <= nextInodeID (fs s) ->
  nextInodeID (fs s) + Z.of_nat (length files) < two64 ->
  0 <= nextHandleID (fs s) ->
  nextHandleID (fs s) + Z.of_nat (length files) < two64 ->
  exists s',
    newFiles dl files s = Ok None s'
    /\ grown (length files) (length files) s s'.
Proof.
  induction files as [|f files IH]; intros s dl di Hdi Hdir Hall Hi0 Hi1 Hh0 Hh1.
  { exists s. split; [done | apply grown_refl]. }
  simpl in Hall. apply andb_true_iff in Hall as [Hf Hall].
  simpl length in Hi1, Hh1.
  unfold isDir in Hdir. destruct (dir di) as [dd|] eqn:Hdd; [|done].
  destruct (newFile_grown s dl f di dd Hdi Hdd Hf ltac:(lia) ltac:(lia))
    as (s1 & Hrun1 & Hg1).
  pose proof Hg1 as (_ & _ & _ & _ & Hni1 & Hnh1 & _ & _ & _ & _ & _ & Hid1).
  destruct (Hid1 _ _ Hdi) as (di1 & Hdi1 & _ & Hdir1).
  unfold isDir at 2 in Hdir1. rewrite Hdd in Hdir1.
  destruct (IH s1 dl di1 Hdi1 Hdir1 Hall ltac:(lia) ltac:(lia) ltac:(lia)
              ltac:(lia)) as (s' & Hrun & Hg).
  exists s'. cbn [newFiles]. msimpl. rewrite Hrun1.
  split; [exact Hrun|].
  change (length (f :: files)) with (1 + length files)%nat.
  by eapply grown_trans.
Qed.

(** One accession: [newAccession] makes the directory and then the files. *)
Lemma newAccession_grown s root acc ri rd :
  heap s !! root = Some ri -> dir ri = Some rd ->
  forallb parses (Files acc) = true ->
  0 <= nextInodeID (fs s) ->
  nextInodeID (fs s) + Z.of_nat (S (length (Files acc))) < two64 ->
  0 <= nextHandleID (fs s) ->
  nextHandleID (fs s) + Z.of_nat (length (Files acc)) < two64 ->
  exists s',
    newAccession root acc s = Ok None s'
    /\ grown (S (length (Files acc))) (length (Files acc)) s s'.
Proof.
  intros Hri Hrd Hall Hi0 Hi1 Hh0 Hh1.
  assert (Hlt : (root < length (heap s))%nat) by (by eapply lookup_lt_Some).
  unfold newAccession, NewInode, ToDir, touch. msimpl. do 2 mstep.
  erewrite insertInode_run; [| heap_lookup | exact Hrd | heap_lookup | lia].
  msimpl. rewrite !list_insert_insert_eq.
  rewrite insert_app_r_alt, Nat.sub_diag by lia. simpl.
  set (dino := set_Id _ _). set (ri1 := set_dir _ ri).
  set (s1 := mkState _ _ _ _).
  assert (Hd1 : heap s1 !! length (heap s) = Some dino).
  { simpl. rewrite list_lookup_insert_ne by lia. apply heap_app_lookup. }
  assert (Hr1 : heap s1 !! root = Some ri1).
  { simpl. eapply heap_insert_lookup, heap_app_lookup_old, Hri. }
  assert (Hg1 : grown 1 0 s s1).
  { unfold grown. simpl. rewrite Z.add_0_r. split_and!; try done.
    - rewrite length_insert, length_app. simpl. lia.
    - unfold u64, two64 in *. apply Z.mod_small. lia.
    - intros id Hid. rewrite lookup_insert_ne; [done | lia].
    - intros k Hk. assert (k = 0%nat) as -> by lia.
      rewrite Z.add_0_r, Nat.add_0_r. split; [apply lookup_insert_eq|].
      by exists dino.
    - intros h Hh. lia.
    - intros a i Hi Hdir.
      assert (a <> root) by (intros ->; congruence).
      rewrite list_lookup_insert_ne by done. by apply heap_app_lookup_old.
    - intros a i Hi. destruct (decide (root = a)) as [<-|Hne].
      + exists ri1. split; [exact Hr1|].
        assert (i = ri) as -> by congruence.
        split; [done|]. unfold isDir. simpl. by rewrite Hrd.
      + exists i. rewrite list_lookup_insert_ne by done.
        split; [by apply heap_app_lookup_old | done]. }
  destruct (newFiles_grown (Files acc) s1 (length (heap s)) dino Hd1 eq_refl
              Hall)
    as (s' & Hrun & Hg); [simpl; unfold u64, two64 in *..|].
  { rewrite Z.mod_small; lia. }
  { rewrite Z.mod_small; lia. }
  { lia. }
  { lia. }
  exists s'. split; [exact Hrun|].
  change (S (length (Files acc))) with (1 + length (Files acc))%nat.
  change (length (Files acc)) with (0 + length (Files acc))%nat at 2.
  by eapply grown_trans.
Qed.

Lemma newAccessions_grown payload : forall s root ri,
  heap s !! root = Some ri -> isDir ri = true ->
  forallb (fun acc => forallb parses (Files acc)) payload = true ->
  0 <= nextInodeID (fs s) ->
  nextInodeID (fs s) + Z.of_nat (count_inodes payload) < two64 ->
  0 <= nextHandleID (fs s) ->
  nextHandleID (fs s) + Z.of_nat (count_files payload) < two64 ->
  exists s',
    newAccessions root payload s = Ok None s'
    /\ grown (count_inodes payload) (count_files payload) s s'.
Proof.
  induction payload as [|acc payload IH];
    intros s root ri Hri Hdir Hall Hi0 Hi1 Hh0 Hh1.
  { exists s. split; [done | apply grown_refl]. }
  simpl in Hall. apply andb_true_iff in Hall as [Hacc Hall].
  assert (Hcf : count_files (acc :: payload)
                = (length (Files acc) + count_files payload)%nat).
  { unfold count_files. by rewrite fmap_cons. }
  assert (Hci : count_inodes (acc :: payload)
                = (S (length (Files acc)) + count_inodes payload)%nat).
  { unfold count_inodes. rewrite Hcf. simpl length. lia. }
  rewrite Hci in *. rewrite Hcf in *.
  unfold isDir in Hdir. destruct (dir ri) as [rd|] eqn:Hrd; [|done].
  destruct (newAccession_grown s root acc ri rd Hri Hrd Hacc)
    as (s1 & Hrun1 & Hg1); [lia..|].
  pose proof Hg1 as (_ & _ & _ & _ & Hni1 & Hnh1 & _ & _ & _ & _ & _ & Hid1).
  destruct (Hid1 _ _ Hri) as (ri1 & Hri1 & _ & Hdir1).
  unfold isDir at 2 in Hdir1. rewrite Hrd in Hdir1.
  destruct (IH s1 root ri1 Hri1 Hdir1 Hall) as (s' & Hrun & Hg); [lia..|].
  exists s'. cbn [newAccessions]. msimpl. rewrite Hrun1.
  split; [exact Hrun|]. by eapply grown_trans.
Qed.

(** [NewFusera] first builds the root, then serves the payload. *)
Lemma NewFusera_rooted fl payload clk :
  NewFusera fl (inr payload) clk = newAccessions 0%nat payload (rooted fl clk).
Proof.
  unfold NewFusera, NewFusera_build, blank, NewInode, ToDir. msimpl.
  do 3 mstep. reflexivity.
Qed.

Lemma constructed_inv fl payload clk s :
  constructed fl (inr payload) clk = Some s ->
  forallb (fun acc => forallb parses (Files acc)) payload = true
  /\ newAccessions 0%nat payload (rooted fl clk) = Ok None s.
Proof.
  unfold constructed. intros Hc.
  destruct (NewFusera_run fl payload clk) as (s1 & Hrun & _).
  rewrite Hrun in Hc. rewrite <- NewFusera_rooted, Hrun.
  destruct (forallb _ payload); [|discriminate].
  injection Hc as ->. by split.
Qed.

Lemma constructed_grown fl payload clk s :
  constructed fl (inr payload) clk = Some s ->
  Z.of_nat (count_inodes payload) + 2 < two64 ->
  grown (count_inodes payload) (count_files payload) (rooted fl clk) s.
Proof.
  intros Hc Hbound. apply constructed_inv in Hc as [Hall Hrun].
  assert (Hle : (count_files payload <= count_inodes payload)%nat)
    by (unfold count_inodes; lia).
  destruct (newAccessions_grown payload (rooted fl clk) 0%nat _
              eq_refl eq_refl Hall) as (s' & Hrun' & Hg);
    [simpl; unfold RootInodeID; lia..|].
  rewrite Hrun in Hrun'. by injection Hrun' as ->.
Qed.

(** X11. The file handles [NewFusera] makes. After construction from a
    payload whose sizes all parse (and that is not so large that a 64-bit
    counter wraps), there is no directory handle, the file-handle table
    holds exactly the IDs 1 to N, N being the number of files of the
    payload, the next handle ID is N + 1, and every handle is unpopulated
    ([dirty]) and bound to a file inode that counts one handle. *)
Theorem NewFusera_file_handles fl payload clk s :
  constructed fl (inr payload) clk = Some s ->
  Z.of_nat (count_inodes payload) + 2 < two64 ->
  dirHandles (fs s) = ∅
  /\ nextHandleID (fs s) = 1 + Z.of_nat (count_files payload)
  /\ (forall h, is_Some (fileHandles_tbl (fs s) !! h)
                <-> 1 <= h <= Z.of_nat (count_files payload))
  /\ (forall h fh, fileHandles_tbl (fs s) !! h = Some fh ->
        fh_dirty fh = true
        /\ exists i, heap s !! fh_inode fh = Some i
                     /\ dir i = None /\ fileHandles i = 1).
Proof.
  intros Hc Hbound.
  destruct (constructed_grown _ _ _ _ Hc Hbound)
    as (_ & Hdh & _ & _ & _ & Hnext & _ & _ & Hold & Hnew & _).
  simpl in Hdh, Hnext, Hold, Hnew.
  assert (Hin : forall h, 1 <= h < 1 + Z.of_nat (count_files payload) ->
            exists a i, fileHandles_tbl (fs s) !! h = Some (mkFileHandle a true)
                        /\ heap s !! a = Some i /\ dir i = None
                        /\ fileHandles i = 1) by exact Hnew.
  assert (Hout : forall h, ~ 1 <= h < 1 + Z.of_nat (count_files payload) ->
            fileHandles_tbl (fs s) !! h = None).
  { intros h Hh. rewrite Hold by done. apply lookup_empty. }
  split_and!; try done.
  - intros h. split.
    + intros [fh Hfh].
      destruct (decide (1 <= h < 1 + Z.of_nat (count_files payload)));
        [lia|]. rewrite Hout in Hfh by done. discriminate.
    + intros Hh. destruct (Hin h ltac:(lia)) as (a & i & -> & _). by eexists.
  - intros h fh Hfh.
    destruct (decide (1 <= h < 1 + Z.of_nat (count_files payload))) as [Hh|Hh].
    + destruct (Hin h Hh) as (a & i & Htbl & Hi & Hdir & Hcnt).
      rewrite Htbl in Hfh. injection Hfh as <-. split; [done|]. by exists i.
    + rewrite Hout in Hfh by done. discriminate.
Qed.

(** After construction every inode is in the table under its own ID. *)
Lemma constructed_registered fl payload clk s :
  constructed fl (inr payload) clk = Some s ->
  Z.of_nat (count_inodes payload) + 2 < two64 ->
  inodes (fs s) !! RootInodeID = Some 0%nat
  /\ forall a i, heap s !! a = Some i -> inodes (fs s) !! Id i = Some a.
Proof.
  intros Hc Hbound.
  destruct (constructed_grown _ _ _ _ Hc Hbound)
    as (_ & _ & _ & Hlen & _ & _ & Hold & Hnew & _ & _ & _ & Hkeep).
  simpl in Hlen, Hold, Hnew, Hkeep. unfold RootInodeID in *.
  assert (Hroot : inodes (fs s) !! 1 = Some 0%nat).
  { rewrite Hold by lia. apply lookup_insert_eq. }
  split; [done|]. intros a i Hi. destruct a as [|a].
  - destruct (Hkeep 0%nat _ eq_refl) as (i' & Hi' & Hid & _).
    rewrite Hi in Hi'. injection Hi' as <-. simpl in Hid. by rewrite Hid.
  - assert (Ha : (a < count_inodes payload)%nat).
    { apply lookup_lt_Some in Hi. lia. }
    destruct (Hnew a Ha) as (Htbl & i' & Hi' & Hid).
    rewrite Hi in Hi'. injection Hi' as <-. by rewrite Hid.
Qed.

(** X12. The inode IDs [NewFusera] hands out. After construction from a
    payload whose sizes all parse (and that is not so large that a 64-bit
    counter wraps), M being the number of accessions plus the number of
    files: the heap holds M + 1 inodes, the k-th one allocated (the root
    first) has the ID k, the inode table holds exactly the IDs 1 to M + 1,
    each mapped to the inode that carries it, and the next ID is M + 2. *)
Theorem NewFusera_inode_ids fl payload clk s :
  constructed fl (inr payload) clk = Some s ->
  Z.of_nat (count_inodes payload) + 2 < two64 ->
  length (heap s) = S (count_inodes payload)
  /\ nextInodeID (fs s) = 2 + Z.of_nat (count_inodes payload)
  /\ (forall a i, heap s !! a = Some i -> Id i = 1 + Z.of_nat a)
  /\ (forall id a, inodes (fs s) !! id = Some a
        <-> 1 <= id <= 1 + Z.of_nat (count_inodes payload)
            /\ a = Z.to_nat (id - 1)).
Proof.
  intros Hc Hbound.
  destruct (constructed_grown _ _ _ _ Hc Hbound)
    as (_ & _ & _ & Hlen & Hnext & _ & Hold & Hnew & _ & _ & _ & Hkeep).
  simpl in Hlen, Hnext, Hold, Hnew, Hkeep. unfold RootInodeID in *.
  split_and!; try done.
  - intros a i Hi. destruct a as [|a].
    + destruct (Hkeep 0%nat _ eq_refl) as (i' & Hi' & Hid & _).
      rewrite Hi in Hi'. injection Hi' as <-. simpl in Hid. lia.
    + assert (Ha : (a < count_inodes payload)%nat).
      { apply lookup_lt_Some in Hi. lia. }
      destruct (Hnew a Ha) as (_ & i' & Hi' & Hid).
      rewrite Hi in Hi'. injection Hi' as <-. lia.
  - intros id a. split.
    + intros Hid.
      destruct (decide (1 + 1 <= id < 1 + 1 + Z.of_nat (count_inodes payload)))
        as [Hin|Hout].
      * destruct (Hnew (Z.to_nat (id - 2)) ltac:(lia)) as (Htbl & _).
        replace (1 + 1 + Z.of_nat (Z.to_nat (id - 2))) with id in Htbl by lia.
        rewrite Hid in Htbl. injection Htbl as ->. lia.
      * rewrite Hold in Hid by done.
        apply lookup_insert_Some in Hid as [[<- <-]|[_ Hid]]; [lia|].
        by rewrite lookup_empty in Hid.
    + intros [Hid ->].
      destruct (decide (id = 1)) as [->|Hne].
      * rewrite Hold by lia. by rewrite lookup_insert_eq.
      * destruct (Hnew (Z.to_nat (id - 2)) ltac:(lia)) as (Htbl & _).
        replace (1 + 1 + Z.of_nat (Z.to_nat (id - 2))) with id in Htbl by lia.
        rewrite Htbl. f_equal. lia.
Qed.


(** The theorems at the scenario's filesystem: one accession with two
    files gives the handles 1 and 2 and the inodes 1 to 4. *)
Lemma NewFusera_file_handles_witness :
  dirHandles (fs ex_built) = ∅
  /\ nextHandleID (fs ex_built) = 3
  /\ (forall h, is_Some (fileHandles_tbl (fs ex_built) !! h) <-> 1 <= h <= 2).
Proof.
  destruct (NewFusera_file_handles ex_flags ex_payload ex_clock ex_built)
    as (Hdh & Hnext & Hkeys & _).
  { vm_compute. reflexivity. }
  { vm_compute. reflexivity. }
  split; [exact Hdh|]. split; [exact Hnext | exact Hkeys].
Defined.

Lemma NewFusera_inode_ids_witness :
  length (heap ex_built) = 4%nat
  /\ nextInodeID (fs ex_built) = 5
  /\ (forall id a, inodes (fs ex_built) !! id = Some a
        <-> 1 <= id <= 4 /\ a = Z.to_nat (id - 1)).
Proof.
  destruct (NewFusera_inode_ids ex_flags ex_payload ex_clock ex_built)
    as (Hlen & Hnext & _ & Htbl).
  { vm_compute. reflexivity. }
  { vm_compute. reflexivity. }
  split; [exact Hlen|]. split; [exact Hnext | exact Htbl].
Defined.

(** ** What the requests leave alone in the controller *)

Lemma keeps_ret {A B} (proj : Fusera -> B) (a : A) : keeps proj (ret a).
Proof. intros s b s' Hrun. cbn in Hrun. by injection Hrun as _ <-. Qed.

Lemma keeps_panic {A B} (proj : Fusera -> B) : keeps proj (@panic A).
Proof. intros s b s' Hrun. discriminate Hrun. Qed.

Lemma keeps_bind {A A' B} (proj : Fusera -> B) (m : M A) (k : A -> M A') :
  keeps proj m -> (forall a, keeps proj (k a)) -> keeps proj (bind m k).
Proof.
  intros Hm Hk s b s' Hrun. unfold bind in Hrun.
  destruct (m s) as [a s1| |] eqn:Hms; try discriminate.
  rewrite (Hk _ _ _ _ Hrun). by eapply Hm.
Qed.

Lemma keeps_now {B} (proj : Fusera -> B) : keeps proj now.
Proof. intros s b s' Hrun. cbn in Hrun. by injection Hrun as _ <-. Qed.

Lemma keeps_get_fs {B} (proj : Fusera -> B) : keeps proj get_fs.
Proof. intros s b s' Hrun. cbn in Hrun. by injection Hrun as _ <-. Qed.

Lemma keeps_load {B} (proj : Fusera -> B) a : keeps proj (load a).
Proof.
  intros s i s'. unfold load. destruct (heap s !! a); [|done].
  intros Hrun. by injection Hrun as _ <-.
Qed.

Lemma keeps_modify {B} (proj : Fusera -> B) a f : keeps proj (modify a f).
Proof.
  intros s u s'. unfold modify. destruct (heap s !! a); [|done].
  intros Hrun. by injection Hrun as _ <-.
Qed.

Lemma keeps_alloc {B} (proj : Fusera -> B) i : keeps proj (alloc i).
Proof. intros s a s' Hrun. cbn in Hrun. by injection Hrun as _ <-. Qed.

(** A write to the controller that does not touch [proj]. *)
Lemma keeps_get_put {A B} (proj : Fusera -> B) (g : Fusera -> Fusera)
    (k : Fusera -> M A) :
  (forall f, proj (g f) = proj f) -> (forall f, keeps proj (k f)) ->
  keeps proj (bind get_fs (fun f => bind (put_fs (g f)) (fun _ => k f))).
Proof.
  intros Hg Hk s b s' Hrun. cbn in Hrun.
  apply Hk in Hrun. rewrite Hrun. simpl. apply Hg.
Qed.

Lemma keeps_get_put_end {B} (proj : Fusera -> B) (g : Fusera -> Fusera) :
  (forall f, proj (g f) = proj f) ->
  keeps proj (bind get_fs (fun f => put_fs (g f))).
Proof.
  intros Hg s b s' Hrun. cbn in Hrun. injection Hrun as _ <-. simpl.
  apply Hg.
Qed.

Lemma keeps_load_all {B} (proj : Fusera -> B) l : keeps proj (load_all l).
Proof.
  induction l as [|a r IH]; cbn [load_all]; [apply keeps_ret|].
  apply keeps_bind; [apply keeps_load|]. intros i.
  apply keeps_bind; [apply IH|]. intros rest. apply keeps_ret.
Qed.

(** Decomposes a computation into its primitives. *)
Ltac keeps_tac :=
  repeat first
    [ apply keeps_ret | apply keeps_panic | apply keeps_now
    | apply keeps_load | apply keeps_modify | apply keeps_alloc
    | apply keeps_load_all
    | apply keeps_get_put_end; intros ?; reflexivity
    | apply keeps_get_put; [intros ?; reflexivity | intros ?]
    | apply keeps_get_fs
    | apply keeps_bind; [|intros ?]
    | match goal with
      | |- keeps _ (match ?x with _ => _ end) => destruct x
      | |- keeps _ (if ?x then _ else _) => destruct x
      end ].

(** Materialization writes the inode table and the allocator only. *)
Lemma keeps_insertInodeFromDirEntry parent e :
  keeps (fun f => (config f, handles f)) (insertInodeFromDirEntry parent e).
Proof.
  unfold insertInodeFromDirEntry, findChildUnlocked, NewInode, ToDir,
    insertInode, allocateInodeId, insertChildUnlocked, set_meta_opt.
  keeps_tac.
Qed.

Lemma keeps_ReadDir_loop fuel : forall dh dstLen i rfs op,
  keeps (fun f => (config f, handles f)) (ReadDir_loop fuel dh dstLen i rfs op).
Proof.
  induction fuel as [|fuel IH]; intros dh dstLen i rfs op; [by intros s a s'|].
  cbn [ReadDir_loop]. destruct (dh_Entries dh i) as [e|[e|]].
  - apply keeps_ret.
  - apply keeps_bind.
    + destruct (e_Inode e =? 0); [|apply keeps_ret].
      apply keeps_bind; [apply keeps_insertInodeFromDirEntry|].
      intros; apply keeps_ret.
    + intros rfs'. cbv zeta.
      destruct ((rd_BytesRead op <? 0) || (dstLen <? rd_BytesRead op));
        [apply keeps_panic|].
      destruct (WriteDirent _ _ =? 0); [apply keeps_ret | apply IH].
  - unfold findChildMaxTime. keeps_tac.
Qed.

Section Controller.

Variable getattr : Inode -> Errno + FuseAttributes.
Variable inflate : Fusera -> Inode -> FuseAttributes.
Variable getxattr : Inode -> string -> Errno + bytes.
Variable listxattr : Inode -> list string * option Errno.

(** What a request does to the configuration and to the handles. *)
Lemma exec_handle_step op s s' :
  exec getattr inflate getxattr listxattr op s = Ok tt s' ->
  handle_step (fs s) (fs s').
Proof.
  assert (Hsame : forall f f' : Fusera,
            (config f', handles f') = (config f, handles f) ->
            handle_step f f').
  { intros f f' Heq. split; [exact (f_equal fst Heq)|].
    left. exact (f_equal snd Heq). }
  assert (Hq : forall (A : Type) (m : M A),
            keeps (fun f => (config f, handles f)) m ->
            (m ;;; ret tt) s = Ok tt s' -> handle_step (fs s) (fs s')).
  { intros A m Hm Hrun. apply Hsame.
    refine (keeps_bind _ _ _ Hm _ s tt s' Hrun). intros; apply keeps_ret. }
  destruct op; cbn [exec]; intros Hrun.
  - injection Hrun as <-. by apply Hsame.
  - eapply Hq; [|exact Hrun].
    unfold GetInodeAttributes, getInodeOrDie. keeps_tac.
  - eapply Hq; [|exact Hrun].
    unfold GetXattr, getInodeOrDie. keeps_tac.
  - eapply Hq; [|exact Hrun].
    unfold ListXattr, getInodeOrDie.
    apply keeps_bind; [keeps_tac|]. intros a.
    apply keeps_bind; [keeps_tac|]. intros i.
    destruct (listxattr i) as [xattrs err].
    destruct (ListXattr_loop _ _ _ _) as [[dst' b] nc]. apply keeps_ret.
  - eapply Hq; [|exact Hrun].
    unfold LookUpInode, getInodeOrDie, findChildUnlockedFull,
      findChildUnlocked, Ref. keeps_tac.
  - unfold OpenDir, getInodeOrDie in Hrun. msimpl in Hrun.
    destruct (inodes _ !! id) in Hrun; [|discriminate].
    msimpl in Hrun. injection Hrun as <-.
    split; [done|]. right. left. by eexists.
  - apply Hsame. unfold ReadDir in Hrun. msimpl in Hrun.
    destruct (dirHandles (fs s) !! handle); [|discriminate].
    case_run Hrun. injection Hrun as <-.
    by eapply keeps_ReadDir_loop.
  - unfold ReleaseDirHandle in Hrun. msimpl in Hrun.
    destruct (dirHandles (fs s) !! handle); [|discriminate].
    msimpl in Hrun. injection Hrun as <-.
    split; [done|]. do 3 right. left. by exists handle.
  - unfold OpenFile, getInodeOrDie, Inode_OpenFile in Hrun. msimpl in Hrun.
    destruct (inodes (fs s) !! id); [|discriminate].
    destruct failure; msimpl in Hrun; injection Hrun as <-.
    + by apply Hsame.
    + split; [done|]. do 2 right. left. by eexists.
  - unfold ReadFile in Hrun. msimpl in Hrun.
    destruct (fileHandles_tbl (fs s) !! handle); [|discriminate].
    msimpl in Hrun. injection Hrun as <-. by apply Hsame.
  - injection Hrun as <-. by apply Hsame.
  - unfold ReleaseFileHandle in Hrun. msimpl in Hrun.
    destruct (fileHandles_tbl (fs s) !! handle); [|discriminate].
    msimpl in Hrun. injection Hrun as <-.
    split; [done|]. do 4 right. by exists handle.
Qed.

End Controller.

(** Construction writes the configuration once, before it serves the
    payload. *)
Lemma keeps_newFiles dl files : keeps config (newFiles dl files).
Proof.
  induction files as [|f files IH]; cbn [newFiles]; [apply keeps_ret|].
  apply keeps_bind.
  - unfold newFile, NewInode, touch, insertInode, allocateInodeId,
      insertChildUnlocked. cbv zeta. keeps_tac.
  - intros [err|]; [apply keeps_ret | apply IH].
Qed.

Lemma keeps_newAccessions root payload :
  keeps config (newAccessions root payload).
Proof.
  induction payload as [|acc payload IH]; cbn [newAccessions];
    [apply keeps_ret|].
  apply keeps_bind.
  - unfold newAccession, NewInode, ToDir, touch, insertInode,
      allocateInodeId, insertChildUnlocked.
    do 4 (apply keeps_bind; [keeps_tac | intros ?]). apply keeps_newFiles.
  - intros [err|]; [apply keeps_ret | apply IH].
Qed.

Lemma handle_step_ok f f' :
  handle_step f f' -> handles_ok f ->
  1 <= nextHandleID f -> nextHandleID f + 1 < two64 ->
  handles_ok f' /\ nextHandleID f <= nextHandleID f' <= nextHandleID f + 1.
Proof.
  intros [_ Hstep] [Hrange Hdisj] Hlo Hhi.
  assert (Hu : u64 (nextHandleID f + 1) = nextHandleID f + 1).
  { unfold u64, two64 in *. apply Z.mod_small. lia. }
  assert (Hfd : dirHandles f !! nextHandleID f = None).
  { destruct (dirHandles f !! nextHandleID f) eqn:Hk; [|done].
    specialize (Hrange (nextHandleID f) ltac:(left; by eexists)). lia. }
  assert (Hff : fileHandles_tbl f !! nextHandleID f = None).
  { destruct (fileHandles_tbl f !! nextHandleID f) eqn:Hk; [|done].
    specialize (Hrange (nextHandleID f) ltac:(right; by eexists)). lia. }
  unfold handles in Hstep.
  destruct Hstep as [Heq|[[dh Heq]|[[fh Heq]|[[h0 Heq]|[h0 Heq]]]]];
    injection Heq as Hn Hd Hfl; unfold handles_ok; rewrite Hn, Hd, Hfl, ?Hu.
  - split; [by split | lia].
  - split; [split | lia].
    + intros h [Hh|Hh].
      * apply lookup_insert_is_Some in Hh as [<-|[_ Hh]]; [lia|].
        specialize (Hrange h ltac:(by left)). lia.
      * specialize (Hrange h ltac:(by right)). lia.
    + intros h Hh. apply lookup_insert_is_Some in Hh as [<-|[_ Hh]];
        [done | by apply Hdisj].
  - split; [split | lia].
    + intros h [Hh|Hh].
      * specialize (Hrange h ltac:(by left)). lia.
      * apply lookup_insert_is_Some in Hh as [<-|[_ Hh]]; [lia|].
        specialize (Hrange h ltac:(by right)). lia.
    + intros h Hh. destruct (decide (nextHandleID f = h)) as [<-|Hne].
      * rewrite Hfd in Hh. by destruct Hh.
      * rewrite lookup_insert_ne by done. by apply Hdisj.
  - split; [split | lia].
    + intros h [Hh|Hh].
      * apply lookup_delete_is_Some in Hh as [_ Hh].
        specialize (Hrange h ltac:(by left)). lia.
      * specialize (Hrange h ltac:(by right)). lia.
    + intros h Hh. apply lookup_delete_is_Some in Hh as [_ Hh].
      by apply Hdisj.
  - split; [split | lia].
    + intros h [Hh|Hh].
      * specialize (Hrange h ltac:(by left)). lia.
      * apply lookup_delete_is_Some in Hh as [_ Hh].
        specialize (Hrange h ltac:(by right)). lia.
    + intros h Hh. destruct (decide (h0 = h)) as [<-|Hne].
      * apply lookup_delete_eq.
      * rewrite lookup_delete_ne by done. by apply Hdisj.
Qed.

Section Runs.

Variable getattr : Inode -> Errno + FuseAttributes.
Variable inflate : Fusera -> Inode -> FuseAttributes.
Variable getxattr : Inode -> string -> Errno + bytes.
Variable listxattr : Inode -> list string * option Errno.

Lemma execs_config ops : forall s s',
  execs getattr inflate getxattr listxattr ops s = Ok tt s' ->
  config (fs s') = config (fs s).
Proof.
  induction ops as [|op ops IH]; intros s s' Hrun; cbn [execs] in Hrun.
  { by injection Hrun as <-. }
  unfold bind in Hrun. case_run Hrun. destruct a.
  apply exec_handle_step in Heqr as [Hc _].
  rewrite (IH _ _ Hrun). exact Hc.
Qed.

Lemma execs_handles_ok ops : forall s s',
  execs getattr inflate getxattr listxattr ops s = Ok tt s' ->
  handles_ok (fs s) -> 1 <= nextHandleID (fs s) ->
  nextHandleID (fs s) + Z.of_nat (length ops) < two64 ->
  handles_ok (fs s')
  /\ nextHandleID (fs s) <= nextHandleID (fs s')
     <= nextHandleID (fs s) + Z.of_nat (length ops).
Proof.
  induction ops as [|op ops IH]; intros s s' Hrun Hok Hlo Hhi;
    cbn [execs] in Hrun.
  { injection Hrun as <-. split; [done | simpl; lia]. }
  unfold bind in Hrun. case_run Hrun. destruct a. simpl length in Hhi.
  apply exec_handle_step in Heqr.
  destruct (handle_step_ok _ _ Heqr Hok Hlo ltac:(lia)) as [Hok1 Hn1].
  destruct (IH _ _ Hrun Hok1 ltac:(lia) ltac:(lia)) as [Hok' Hn'].
  split; [done | simpl length; lia].
Qed.

(** X13. The configuration is written once. In every state that requests
    lead to from the filesystem [NewFusera] returned, the flags are those
    passed to [NewFusera] (so the cache TTLs the answers carry never
    change), the umask is 0122, the root attributes are the size 4096 and
    the time construction began, and the count of forgotten inodes is
    zero: no request writes any of them. *)
Theorem configuration_is_fixed fl payload clk s0 ops s :
  constructed fl (inr payload) clk = Some s0 ->
  execs getattr inflate getxattr listxattr ops s0 = Ok tt s ->
  flags (fs s) = fl
  /\ umask (fs s) = 82
  /\ rootAttrs (fs s) = mkAttrs 4096 (clk 0%nat)
  /\ forgotCnt (fs s) = 0.
Proof.
  intros Hc Hrun. apply constructed_inv in Hc as [_ Hbuild].
  apply keeps_newAccessions in Hbuild. apply execs_config in Hrun.
  rewrite Hbuild in Hrun. unfold config in Hrun. simpl in Hrun.
  by injection Hrun as -> -> -> ->.
Qed.

(** X14. Handle IDs in use are never handed out again. In every state that
    a sequence of requests leads to from the filesystem [NewFusera]
    returned (payload and sequence being short of what makes a 64-bit
    counter wrap), every ID in the directory-handle table or in the
    file-handle table lies between 1 and the counter, which is the ID the
    next [OpenDir] or [OpenFile] registers, and no ID is in both tables. *)
Theorem handle_ids_are_fresh fl payload clk s0 ops s :
  constructed fl (inr payload) clk = Some s0 ->
  execs getattr inflate getxattr listxattr ops s0 = Ok tt s ->
  Z.of_nat (count_inodes payload) + Z.of_nat (length ops) + 2 < two64 ->
  (forall h, is_Some (dirHandles (fs s) !! h)
             \/ is_Some (fileHandles_tbl (fs s) !! h) ->
             1 <= h < nextHandleID (fs s))
  /\ (forall h, is_Some (dirHandles (fs s) !! h) ->
                fileHandles_tbl (fs s) !! h = None)
  /\ dirHandles (fs s) !! nextHandleID (fs s) = None
  /\ fileHandles_tbl (fs s) !! nextHandleID (fs s) = None.
Proof.
  intros Hc Hrun Hbound.
  destruct (constructed_grown _ _ _ _ Hc ltac:(lia))
    as (_ & Hdh & _ & _ & _ & Hnext & _ & _ & Hold & Hnew & _).
  simpl in Hdh, Hnext, Hold, Hnew.
  assert (Hle : (count_files payload <= count_inodes payload)%nat)
    by (unfold count_inodes; lia).
  assert (Hok0 : handles_ok (fs s0)).
  { split.
    - intros h [Hh|Hh].
      + rewrite Hdh, lookup_empty in Hh. by destruct Hh.
      + destruct (decide (1 <= h < 1 + Z.of_nat (count_files payload)));
          [lia|]. rewrite Hold, lookup_empty in Hh by done. by destruct Hh.
    - intros h Hh. rewrite Hdh, lookup_empty in Hh. by destruct Hh. }
  destruct (execs_handles_ok ops s0 s Hrun Hok0 ltac:(lia) ltac:(lia))
    as [[Hrange Hdisj] _].
  split_and!; try done.
  - destruct (dirHandles (fs s) !! nextHandleID (fs s)) eqn:Hk; [|done].
    specialize (Hrange (nextHandleID (fs s)) ltac:(left; by eexists)). lia.
  - destruct (fileHandles_tbl (fs s) !! nextHandleID (fs s)) eqn:Hk; [|done].
    specialize (Hrange (nextHandleID (fs s)) ltac:(right; by eexists)). lia.
Qed.

End Runs.

(** The theorems at the scenario's filesystem, after the root has been
    opened and the file with inode 3 too. *)
Lemma configuration_is_fixed_witness :
  exists s,
    execs ex_getattr ex_inflate ex_getxattr ex_listxattr
      ex_requests ex_built = Ok tt s
    /\ flags (fs s) = ex_flags /\ umask (fs s) = 82
    /\ rootAttrs (fs s) = mkAttrs 4096 100 /\ forgotCnt (fs s) = 0.
Proof.
  destruct (execs ex_getattr ex_inflate ex_getxattr ex_listxattr
              ex_requests ex_built)
    as [[] s| |] eqn:Hrun; [|by vm_compute in Hrun..].
  exists s. split; [reflexivity|].
  apply (configuration_is_fixed ex_getattr ex_inflate ex_getxattr
           ex_listxattr ex_flags ex_payload ex_clock ex_built ex_requests s);
    [vm_compute; reflexivity | exact Hrun].
Defined.

Lemma handle_ids_are_fresh_witness :
  exists s,
    execs ex_getattr ex_inflate ex_getxattr ex_listxattr
      ex_requests ex_built = Ok tt s
    /\ (forall h, is_Some (dirHandles (fs s) !! h)
                  \/ is_Some (fileHandles_tbl (fs s) !! h) ->
                  1 <= h < nextHandleID (fs s))
    /\ (forall h, is_Some (dirHandles (fs s) !! h) ->
                  fileHandles_tbl (fs s) !! h = None).
Proof.
  destruct (execs ex_getattr ex_inflate ex_getxattr ex_listxattr
              ex_requests ex_built)
    as [[] s| |] eqn:Hrun; [|by vm_compute in Hrun..].
  exists s. split; [reflexivity|].
  destruct (handle_ids_are_fresh ex_getattr ex_inflate ex_getxattr
              ex_listxattr ex_flags ex_payload ex_clock ex_built ex_requests s)
    as (Hrange & Hdisj & _); [vm_compute; reflexivity | exact Hrun | |].
  { vm_compute. reflexivity. }
  split; [exact Hrange | exact Hdisj].
Defined.

(** ** The tree [NewFusera] builds *)

(** The files of one accession: where [newFiles] puts them. *)
Lemma newFiles_children files : forall s dl di dd,
  heap s !! dl = Some di -> dir di = Some dd ->
  forallb parses files = true ->
  exists s' di' dd',
    newFiles dl files s = Ok None s'
    /\ heap s' !! dl = Some di' /\ dir di' = Some dd'
    /\ (forall key c,
          Children dd !! key = Some c ->
          (forall g, g ∈ files -> key <> (f_Name g, false)) ->
          Children dd' !! key = Some c)
    /\ (NoDup (f_Name <$> files) ->
        forall f, f ∈ files ->
          exists a fi, Children dd' !! (f_Name f, false) = Some a
                       /\ heap s' !! a = Some fi /\ file_of f fi)
    /\ (forall a i, a <> dl -> heap s !! a = Some i -> heap s' !! a = Some i).
Proof.
  induction files as [|f files IH]; intros s dl di dd Hdi Hdd Hall.
  { exists s, di, dd. split_and!; try done. by intros _ f ?%elem_of_nil. }
  simpl in Hall. apply andb_true_iff in Hall as [Hf Hall].
  unfold parses in Hf.
  destruct (ParseUint (f_Size f)) as [u|] eqn:Hu; [|discriminate].
  assert (Hlt : (dl < length (heap s))%nat) by (by eapply lookup_lt_Some).
  destruct (newFile_explicit s dl f di dd u Hdi Hdd Hu)
    as (fi & di1 & t & Hrun1 & (Hfd & Hfn & Hfl & Hfs & _) & (Hdd1 & _)).
  set (s1 := mkState _ _ _ _) in Hrun1.
  assert (Hdi1 : heap s1 !! dl = Some di1).
  { subst s1. simpl. eapply heap_insert_lookup, heap_app_lookup_old, Hdi. }
  assert (Hfi1 : heap s1 !! length (heap s) = Some fi).
  { subst s1. simpl. rewrite list_lookup_insert_ne by lia.
    apply heap_app_lookup. }
  destruct (IH s1 dl di1 _ Hdi1 Hdd1 Hall)
    as (s' & di' & dd' & Hrun & Hdi' & Hdd' & Hold & Hnew & Hframe).
  exists s', di', dd'. cbn [newFiles]. msimpl. rewrite Hrun1.
  split; [exact Hrun|]. split; [done|]. split; [done|]. split_and!.
  - intros key c Hc Hkey. apply Hold.
    + simpl. rewrite lookup_insert_ne; [done|].
      intros Heq. by apply (Hkey f ltac:(left)).
    + intros g Hg. apply Hkey. by right.
  - intros Hnd g Hg. rewrite fmap_cons in Hnd.
    apply NoDup_cons in Hnd as [Hnotin Hnd].
    apply elem_of_cons in Hg as [->|Hg]; [|by apply Hnew].
    exists (length (heap s)), fi. split_and!.
    + apply Hold; [simpl; apply lookup_insert_eq|].
      intros g Hg Heq. apply Hnotin. injection Heq as ->.
      apply list_elem_of_fmap. by exists g.
    + apply Hframe; [lia | done].
    + split_and!; [done..|]. rewrite Hu. by f_equal.
  - intros a i Hne Hi. apply Hframe; [done|]. subst s1. simpl.
    rewrite list_lookup_insert_ne by done. by apply heap_app_lookup_old.
Qed.

(** One accession: where [newAccession] puts the directory and its files. *)
Lemma newAccession_children s root acc ri rd :
  heap s !! root = Some ri -> dir ri = Some rd ->
  forallb parses (Files acc) = true ->
  exists s' ri' dnode dd,
    newAccession root acc s = Ok None s'
    /\ heap s' !! root = Some ri'
    /\ dir ri' = Some (mkDir (<[(acc_ID acc, true) := length (heap s)]>
                                (Children rd)) (DirTime rd))
    /\ heap s' !! length (heap s) = Some dnode /\ dir dnode = Some dd
    /\ (NoDup (f_Name <$> Files acc) ->
        forall f, f ∈ Files acc ->
          exists a fi, Children dd !! (f_Name f, false) = Some a
                       /\ heap s' !! a = Some fi /\ file_of f fi)
    /\ (forall a i, a <> root -> (a < length (heap s))%nat ->
          heap s !! a = Some i -> heap s' !! a = Some i).
Proof.
  intros Hri Hrd Hall.
  assert (Hlt : (root < length (heap s))%nat) by (by eapply lookup_lt_Some).
  unfold newAccession, NewInode, ToDir, touch. msimpl. do 2 mstep.
  erewrite insertInode_run; [| heap_lookup | exact Hrd | heap_lookup | lia].
  msimpl. rewrite !list_insert_insert_eq.
  rewrite insert_app_r_alt, Nat.sub_diag by lia. simpl.
  set (dino := set_Id _ _). set (ri1 := set_dir _ ri).
  set (s1 := mkState _ _ _ _).
  assert (Hd1 : heap s1 !! length (heap s) = Some dino).
  { simpl. rewrite list_lookup_insert_ne by lia. apply heap_app_lookup. }
  assert (Hr1 : heap s1 !! root = Some ri1).
  { simpl. eapply heap_insert_lookup, heap_app_lookup_old, Hri. }
  destruct (newFiles_children (Files acc) s1 (length (heap s)) dino _
              Hd1 eq_refl Hall)
    as (s' & di' & dd' & Hrun & Hdi' & Hdd' & _ & Hnew & Hframe).
  exists s', ri1, di', dd'. split; [exact Hrun|]. split_and!; try done.
  - apply Hframe; [lia | done].
  - intros a i Hne Ha Hi. apply Hframe; [lia|]. simpl.
    rewrite list_lookup_insert_ne by done. by apply heap_app_lookup_old.
Qed.

(** The payload: where [newAccessions] puts the accessions. *)
Lemma newAccessions_children payload : forall s root ri rd,
  heap s !! root = Some ri -> dir ri = Some rd ->
  forallb (fun acc => forallb parses (Files acc)) payload = true ->
  NoDup (acc_ID <$> payload) ->
  exists s' ri' rd',
    newAccessions root payload s = Ok None s'
    /\ heap s' !! root = Some ri' /\ dir ri' = Some rd'
    /\ (forall key c,
          Children rd !! key = Some c ->
          (forall acc, acc ∈ payload -> key <> (acc_ID acc, true)) ->
          Children rd' !! key = Some c)
    /\ (forall name, Children rd !! (name, false) = None ->
                     Children rd' !! (name, false) = None)
    /\ (forall acc, acc ∈ payload ->
          exists da dnode dd,
            Children rd' !! (acc_ID acc, true) = Some da
            /\ heap s' !! da = Some dnode /\ dir dnode = Some dd
            /\ (NoDup (f_Name <$> Files acc) ->
                forall f, f ∈ Files acc ->
                  exists a fi, Children dd !! (f_Name f, false) = Some a
                               /\ heap s' !! a = Some fi /\ file_of f fi))
    /\ (forall a i, a <> root -> (a < length (heap s))%nat ->
          heap s !! a = Some i -> heap s' !! a = Some i).
Proof.
  induction payload as [|acc payload IH]; intros s root ri rd Hri Hrd Hall Hnd.
  { exists s, ri, rd. split_and!; try done. by intros acc ?%elem_of_nil. }
  simpl in Hall. apply andb_true_iff in Hall as [Hacc Hall].
  rewrite fmap_cons in Hnd. apply NoDup_cons in Hnd as [Hnotin Hnd].
  assert (Hlt : (root < length (heap s))%nat) by (by eapply lookup_lt_Some).
  destruct (newAccession_children s root acc ri rd Hri Hrd Hacc)
    as (s1 & ri1 & dnode & dd & Hrun1 & Hri1 & Hrd1 & Hdn & Hdd & Hfiles
        & Hframe1).
  destruct (IH s1 root ri1 _ Hri1 Hrd1 Hall Hnd)
    as (s' & ri' & rd' & Hrun & Hri' & Hrd' & Hold & Hnofile & Haccs
        & Hframe).
  exists s', ri', rd'. cbn [newAccessions]. msimpl. rewrite Hrun1.
  split; [exact Hrun|]. split; [done|]. split; [done|]. split_and!.
  - intros key c Hc Hkey. apply Hold.
    + simpl. rewrite lookup_insert_ne; [done|].
      intros Heq. by apply (Hkey acc ltac:(left)).
    + intros acc' Hacc'. apply Hkey. by right.
  - intros name Hname. apply Hnofile. simpl.
    by rewrite lookup_insert_ne.
  - intros acc' [->|Hacc']%elem_of_cons; [|by apply Haccs].
    assert (Hlen : (length (heap s) < length (heap s1))%nat)
      by (by eapply lookup_lt_Some).
    exists (length (heap s)), dnode, dd. split_and!.
    + apply Hold; [simpl; apply lookup_insert_eq|].
      intros acc' Hacc' Heq. apply Hnotin. injection Heq as ->.
      apply list_elem_of_fmap. by exists acc'.
    + apply Hframe; [lia | done | done].
    + done.
    + intros Hndf f Hf. destruct (Hfiles Hndf f Hf) as (a & fi & Hc & Hfi & Hfo).
      exists a, fi. split_and!; try done.
      apply Hframe; [|by eapply lookup_lt_Some | done].
      intros ->. rewrite Hri1 in Hfi. injection Hfi as <-.
      destruct Hfo as [Hnone _]. rewrite Hrd1 in Hnone. discriminate.
  - intros a i Hne Ha Hi. apply Hframe; [done| |].
    + apply (Hframe1 _ _ Hne Ha) in Hi. by eapply lookup_lt_Some.
    + by apply Hframe1.
Qed.

Section Paths.

Variable inflate : Fusera -> Inode -> FuseAttributes.

(** X15. The files of the payload can be reached by name. After
    construction from a payload whose accessions have distinct IDs (and
    that is not so large that a 64-bit counter wraps), for a file of an
    accession whose files have distinct names: [LookUpInode] of the
    accession's ID in the root succeeds, and [LookUpInode] of the file's
    name in the inode it returned succeeds and returns the ID of an inode
    that has the file's name and link and whose attribute size is the
    parsed declared size. *)
Theorem constructed_files_resolve fl payload clk s acc f op :
  constructed fl (inr payload) clk = Some s ->
  Z.of_nat (count_inodes payload) + 2 < two64 ->
  NoDup (acc_ID <$> payload) ->
  acc ∈ payload -> NoDup (f_Name <$> Files acc) -> f ∈ Files acc ->
  exists r1 s1 r2 s2 a fi,
    LookUpInode inflate RootInodeID (acc_ID acc) op s = Ok (r1, None) s1
    /\ LookUpInode inflate (Child r1) (f_Name f) op s1 = Ok (r2, None) s2
    /\ inodes (fs s2) !! Child r2 = Some a
    /\ heap s2 !! a = Some fi
    /\ Name fi = f_Name f /\ Link fi = f_Link f
    /\ ParseUint (f_Size f) = Some (Size (Attributes fi)).
Proof.
  intros Hc Hbound Hnd Hacc Hndf Hf.
  destruct (constructed_registered _ _ _ _ Hc Hbound) as [Hroot Hreg].
  apply constructed_inv in Hc as [Hall Hbuild].
  destruct (newAccessions_children payload (rooted fl clk) 0%nat _ _
              eq_refl eq_refl Hall Hnd)
    as (s' & ri & rd & Hrun & Hri & Hrd & _ & Hnofile & Haccs & _).
  rewrite Hbuild in Hrun. injection Hrun as <-.
  destruct (Haccs acc Hacc) as (da & dnode & dd & Hda & Hdn & Hdd & Hfiles).
  destruct (Hfiles Hndf f Hf) as (a & fi & Ha & Hfi & (Hfd & Hfn & Hfl & Hfs)).
  assert (Hne : a <> da).
  { intros ->. rewrite Hdn in Hfi. injection Hfi as <-. congruence. }
  eexists _, _, _, _, a, _.
  split.
  { eapply (LookUpInode_hit inflate s RootInodeID (acc_ID acc) op 0%nat ri rd
              da dnode Hroot Hri Hrd); [|exact Hdn].
    unfold child_named. rewrite (Hnofile _ (lookup_empty _)). exact Hda. }
  cbn [Child].
  split.
  { eapply (LookUpInode_hit inflate _ (Id dnode) (f_Name f) op da
              (set_refcnt (refcnt dnode + 1) dnode) dd a fi).
    - simpl. by apply Hreg.
    - simpl. by eapply heap_insert_lookup.
    - done.
    - unfold child_named. by rewrite Ha.
    - simpl. by rewrite list_lookup_insert_ne. }
  cbn [Child fs heap]. split_and!.
  - by apply Hreg.
  - eapply heap_insert_lookup. by rewrite list_lookup_insert_ne.
  - done.
  - done.
  - done.
Qed.

End Paths.

(** The theorem at the scenario's filesystem: [SRR1] and then [b.bam]
    resolve to an inode of size 200. *)
Lemma constructed_files_resolve_witness :
  exists r1 s1 r2 s2 a fi,
    LookUpInode ex_inflate 1 "SRR1"
      (mkChildInodeEntry 0 (mkFuseAttributes 0 0 0 0 0 0) 0 0) ex_built
      = Ok (r1, None) s1
    /\ LookUpInode ex_inflate (Child r1) "b.bam"
         (mkChildInodeEntry 0 (mkFuseAttributes 0 0 0 0 0 0) 0 0) s1
       = Ok (r2, None) s2
    /\ inodes (fs s2) !! Child r2 = Some a
    /\ heap s2 !! a = Some fi
    /\ Size (Attributes fi) = 200.
Proof.
  destruct (constructed_files_resolve ex_inflate ex_flags ex_payload ex_clock
              ex_built (mkAccession "SRR1" [mkFile "a.bam" "http://x/a" "100";
                                            mkFile "b.bam" "http://x/b" "200"])
              (mkFile "b.bam" "http://x/b" "200")
              (mkChildInodeEntry 0 (mkFuseAttributes 0 0 0 0 0 0) 0 0))
    as (r1 & s1 & r2 & s2 & a & fi & H1 & H2 & H3 & H4 & _ & _ & H5).
  { vm_compute. reflexivity. }
  { vm_compute. reflexivity. }
  { apply NoDup_singleton. }
  { apply list_elem_of_singleton. reflexivity. }
  { simpl. apply NoDup_cons. split; [|apply NoDup_singleton].
    intros Hin%list_elem_of_singleton. discriminate Hin. }
  { simpl. right. left. }
  exists r1, s1, r2, s2, a, fi. split; [exact H1|]. split; [exact H2|].
  split; [exact H3|]. split; [exact H4|].
  assert (Hp : ParseUint (f_Size (mkFile "b.bam" "http://x/b" "200"))
               = Some 200) by (vm_compute; reflexivity).
  rewrite Hp in H5. by injection H5 as <-.
Defined.

(** ** The heap in reachable states *)

Lemma ids_ok_rooted fl clk : ids_ok (rooted fl clk).
Proof.
  unfold ids_ok. simpl. split_and!.
  - intros k a [[<- <-]|[_ Hk]]%lookup_insert_Some; [by eexists|].
    by rewrite lookup_empty in Hk.
  - intros k a [[<- <-]|[_ Hk]]%lookup_insert_Some; [done|].
    by rewrite lookup_empty in Hk.
  - by rewrite map_size_insert_None, map_size_empty.
  - by rewrite lookup_insert_eq.
Qed.

Lemma registered_rooted fl clk : registered (rooted fl clk).
Proof.
  split; simpl.
  - intros [|a] i Hi; [|done]. simpl in Hi. injection Hi as <-.
    apply lookup_insert_eq.
  - by rewrite map_size_insert_None, map_size_empty.
Qed.

Lemma registered_same_ids s s' :
  registered s -> same_ids s s' -> registered s'.
Proof.
  intros [Hreg Hsz] (Hi & _ & Hlen & Hh). split; [|congruence].
  intros a i' Hi'.
  assert (Hlt : (a < length (heap s))%nat).
  { rewrite <- Hlen. by eapply lookup_lt_Some. }
  destruct (lookup_lt_is_Some_2 _ _ Hlt) as [i Ha].
  destruct (Hh _ _ Ha) as (i1 & Hi1 & Hid & _).
  assert (i1 = i') as -> by congruence.
  rewrite Hi, Hid. by apply Hreg.
Qed.

Lemma registered_inserted s s' :
  registered s -> ids_ok s -> inserted s s' -> registered s'.
Proof.
  intros [Hreg Hsz] (_ & Hrange & _) (Hi & _ & Hlen & (ni & Hni & Hnid & _) & Hh).
  assert (Hfresh : inodes (fs s) !! nextInodeID (fs s) = None).
  { destruct (inodes (fs s) !! nextInodeID (fs s)) as [a|] eqn:Hk; [|done].
    apply Hrange in Hk. lia. }
  split.
  - intros a i' Hi'. rewrite Hi.
    destruct (decide (a < length (heap s))%nat) as [Hlt|Hge].
    + destruct (lookup_lt_is_Some_2 _ _ Hlt) as [i Ha].
      destruct (Hh _ _ Ha) as (i1 & Hi1 & Hid & _).
      assert (i1 = i') as -> by congruence.
      pose proof (Hreg _ _ Ha) as Hk. rewrite Hid.
      rewrite lookup_insert_ne; [done|].
      intros Heq. rewrite <- Heq in Hk. congruence.
    + assert (a = length (heap s)) as ->.
      { apply lookup_lt_Some in Hi'. lia. }
      assert (ni = i') as -> by congruence.
      rewrite Hnid. apply lookup_insert_eq.
  - rewrite Hlen, Hi, map_size_insert_None by done. by rewrite Hsz.
Qed.

Lemma registered_steps s s' :
  rtc id_step s s' -> ids_ok s -> registered s ->
  Z.of_nat (size (inodes (fs s'))) <= MaxInt ->
  registered s'.
Proof.
  induction 1 as [|s s1 s' Hstep Hrest IH]; intros Hok Hreg Hsize; [done|].
  assert (Hok1 : ids_ok s1).
  { eapply ids_ok_steps; [by apply rtc_once | done |].
    apply id_steps_size in Hrest. lia. }
  apply IH; [done| |done]. destruct Hstep as [Hq|Hins].
  - by eapply registered_same_ids.
  - by eapply registered_inserted.
Qed.

Section Heap.

Variable getattr : Inode -> Errno + FuseAttributes.
Variable inflate : Fusera -> Inode -> FuseAttributes.
Variable getxattr : Inode -> string -> Errno + bytes.
Variable listxattr : Inode -> list string * option Errno.

Lemma reachable_from_rooted s :
  reachable getattr inflate getxattr listxattr s ->
  exists fl clk, rtc id_step (rooted fl clk) s.
Proof.
  induction 1 as [fl payload clk s Hnew|s op s' Hs IH Hrun].
  - exists fl, clk. apply constructed_inv in Hnew as [Hall Hbuild].
    destruct (newAccessions_run payload (rooted fl clk) 0%nat _ _
                eq_refl eq_refl) as (s1 & Hrun & Hm).
    rewrite Hbuild in Hrun. rewrite Hall in Hrun. injection Hrun as <-.
    by destruct (Hm Hall).
  - destruct IH as (fl & clk & Hsteps). exists fl, clk.
    etrans; [exact Hsteps|]. by eapply exec_id_steps.
Qed.

(** X16. The heap and the inode table agree in every reachable state (the
    table holding no more entries than a Go map can): every inode that was
    ever allocated is in the table under its own ID, the table has as many
    entries as there are inodes, so no inode is ever dropped or left out;
    and the children of every directory are inodes of the heap other than
    the directory itself. *)
Theorem reachable_heap_well_formed s :
  reachable getattr inflate getxattr listxattr s ->
  Z.of_nat (size (inodes (fs s))) <= MaxInt ->
  (forall a i, heap s !! a = Some i -> inodes (fs s) !! Id i = Some a)
  /\ length (heap s) = size (inodes (fs s))
  /\ (forall a p d k c,
        heap s !! a = Some p -> dir p = Some d ->
        Children d !! k = Some c ->
        c <> a /\ is_Some (heap s !! c)).
Proof.
  intros Hs Hsize.
  destruct (reachable_from_rooted s Hs) as (fl & clk & Hsteps).
  destruct (registered_steps _ _ Hsteps (ids_ok_rooted fl clk)
              (registered_rooted fl clk) Hsize) as [Hreg Hlen].
  split; [done|]. split; [done|].
  intros a p d k c Hp Hd Hc.
  destruct (reachable_tree_ok getattr inflate getxattr listxattr s Hs
              a p d Hp Hd k c Hc) as [Hne Hlt].
  split; [done | by apply lookup_lt_is_Some_2].
Qed.

End Heap.

(** The theorem at the scenario's filesystem: its four inodes are in the
    table under their IDs. *)
Lemma reachable_heap_well_formed_witness :
  reachable ex_getattr ex_inflate ex_getxattr ex_listxattr ex_built
  /\ (forall a i, heap ex_built !! a = Some i ->
                  inodes (fs ex_built) !! Id i = Some a)
  /\ length (heap ex_built) = size (inodes (fs ex_built)).
Proof.
  assert (Hr : reachable ex_getattr ex_inflate ex_getxattr ex_listxattr
                         ex_built).
  { apply (reachable_new _ _ _ _ ex_flags ex_payload ex_clock).
    vm_compute. reflexivity. }
  split; [exact Hr|].
  destruct (reachable_heap_well_formed ex_getattr ex_inflate ex_getxattr
              ex_listxattr ex_built Hr) as (Hreg & Hlen & _).
  { by vm_compute. }
  split; [exact Hreg | exact Hlen].
Defined.

(** ** More on [ReadDir] and [ListXattr] *)

(** X17. Listing a directory leaves the handles alone. A [ReadDir] that
    returns, whatever it materializes on the way, has written the inode
    side of the controller only: the handle counter, both handle tables and
    the configuration are as before, so no handle is invalidated by a
    listing. *)
Theorem ReadDir_keeps_handles s handle offset dstLen op r s' :
  ReadDir handle offset dstLen op s = Ok r s' ->
  nextHandleID (fs s') = nextHandleID (fs s)
  /\ dirHandles (fs s') = dirHandles (fs s)
  /\ fileHandles_tbl (fs s') = fileHandles_tbl (fs s)
  /\ config (fs s') = config (fs s).
Proof.
  unfold ReadDir. msimpl.
  destruct (dirHandles (fs s) !! handle) as [dh|]; [|discriminate].
  intros Hrun. apply keeps_ReadDir_loop in Hrun.
  pose proof (f_equal fst Hrun) as Hc. pose proof (f_equal snd Hrun) as Hh.
  simpl in Hc, Hh. unfold handles in Hh. injection Hh as Hn Hd Hf.
  by split_and!.
Qed.

(** The theorem at the example: reading the root through handle 7, which
    materializes [g], leaves handle 7 registered and the counter at 8. *)
Lemma ReadDir_keeps_handles_witness :
  exists r s',
    ReadDir 7 0 4096 (mkReadDirOut 0 []) ex_open = Ok r s'
    /\ nextHandleID (fs s') = 8
    /\ dirHandles (fs s') = dirHandles (fs ex_open)
    /\ length (heap s') = 3%nat.
Proof.
  destruct (ReadDir 7 0 4096 (mkReadDirOut 0 []) ex_open)
    as [r s'| |] eqn:Hrun; [|by vm_compute in Hrun..].
  destruct (ReadDir_keeps_handles ex_open 7 0 4096 (mkReadDirOut 0 []) r s'
              Hrun) as (Hn & Hd & _).
  exists r, s'. split; [reflexivity|]. split; [exact Hn|].
  split; [exact Hd|].
  vm_compute in Hrun. by injection Hrun as _ <-.
Defined.

Section XattrCount.

Variable listxattr : Inode -> list string * option Errno.


End XattrCount.


(** Past Go's [int] the count wraps: with [BytesRead] at [MaxInt] the one
    name [a] makes it negative, and no error is reported. *)
Example ListXattr_count_wraps :
  ListXattr (fun _ => (["a"%string], None)) 2
    (mkXattrOut (replicate 8 Byte.x01) MaxInt) ex_state
  = Ok (mkXattrOut
          (xattrs_bytes ["a"%string] ++ replicate 6 Byte.x01)
          (- 2 ^ 63 + 1), None) ex_state.
Proof. vm_compute. reflexivity. Qed.
